(** * efficient-notion-mcp: the markdown/block codec and the sync protocol

    A shallow embedding of [notion/markdown.go] and of the two revisions of
    [notion/sync.go], followed by the properties of the specification that
    are settled against them.

    Conventions of the embedding.
    - A Go [string] is a sequence of bytes: Rocq's [string], one [ascii]
      per byte.  Go [int]s are [Z]; a search that fails returns [-1] as in
      the source.
    - A Go loop [for i := ...; i < n; i++] is a [Fixpoint] over a counter of
      remaining iterations that carries the Go index [i] next to it.
    - A value of static type [any] is an [any]: the constructor records the
      dynamic Go type, because the encoder's type assertions
      ([x.([]any)], [x.(map[string]any)]) succeed on exactly one of them. *)

From Stdlib Require Import String Ascii List ZArith Lia Bool Arith.
Import ListNotations.

#[local] Set Warnings "-register-all".

#[local] Open Scope string_scope.
#[local] Open Scope list_scope.
#[local] Open Scope Z_scope.

(** ** Go strings *)

Notation "a +++ b" := (String.append a b) (at level 60, right associativity).

Definition nl : string := String "010"%char EmptyString.
Definition tab : string := String "009"%char EmptyString.

Definition len (s : string) : Z := Z.of_nat (String.length s).

Fixpoint drop (n : nat) (s : string) : string :=
  match n, s with
  | O, _ => s
  | S n', String _ r => drop n' r
  | S _, EmptyString => EmptyString
  end.

Fixpoint take (n : nat) (s : string) : string :=
  match n, s with
  | O, _ => EmptyString
  | S n', String c r => String c (take n' r)
  | S _, EmptyString => EmptyString
  end.

(** [s[a:b]], [s[a:]] and [s[:b]]; every use in the source is in range. *)
Definition slice (s : string) (a b : Z) : string :=
  take (Z.to_nat (b - a)) (drop (Z.to_nat a) s).
Definition sliceFrom (s : string) (a : Z) : string := drop (Z.to_nat a) s.
Definition sliceTo (s : string) (b : Z) : string := take (Z.to_nat b) s.

(** [s[i]] where the source has checked [i < len(s)] before. *)
Definition byteAt (s : string) (i : Z) : ascii :=
  match String.get (Z.to_nat i) s with
  | Some c => c
  | None => "000"%char
  end.

Definition byteN (c : ascii) : N := N_of_ascii c.

Fixpoint revOnto (s acc : string) : string :=
  match s with
  | EmptyString => acc
  | String c r => revOnto r (String c acc)
  end.
Definition rev (s : string) : string := revOnto s EmptyString.

Module strings.

Fixpoint HasPrefix (s prefix : string) {struct prefix} : bool :=
  match prefix with
  | EmptyString => true
  | String p prefix' =>
      match s with
      | String c s' => Ascii.eqb c p && HasPrefix s' prefix'
      | EmptyString => false
      end
  end.

Definition HasSuffix (s suffix : string) : bool :=
  HasPrefix (rev s) (rev suffix).

Definition TrimPrefix (s prefix : string) : string :=
  if HasPrefix s prefix then drop (String.length prefix) s else s.

Definition TrimSuffix (s suffix : string) : string :=
  if HasSuffix s suffix
  then take (String.length s - String.length suffix) s
  else s.

(** [strings.Index]: the byte offset of the first occurrence, or [-1]. *)
Fixpoint IndexFrom (s substr : string) (i : Z) : Z :=
  if HasPrefix s substr then i
  else match s with
       | EmptyString => -1
       | String _ r => IndexFrom r substr (i + 1)
       end.
Definition Index (s substr : string) : Z := IndexFrom s substr 0.

(** [strings.LastIndex]: the offset of the last occurrence, or [-1]. *)
Fixpoint LastIndexFrom (s substr : string) (i last : Z) : Z :=
  let last' := if HasPrefix s substr then i else last in
  match s with
  | EmptyString => last'
  | String _ r => LastIndexFrom r substr (i + 1) last'
  end.
Definition LastIndex (s substr : string) : Z := LastIndexFrom s substr 0 (-1).

Definition Contains (s substr : string) : bool := 0 <=? Index s substr.

(** [strings.Split] with a separator of one byte, the only kind the source
    passes: the pieces between the separators, [n+1] of them for [n]
    separators. *)
Fixpoint SplitByte (sep : ascii) (s : string) (cur : string) : list string :=
  match s with
  | EmptyString => [rev cur]
  | String c r =>
      if Ascii.eqb c sep then rev cur :: SplitByte sep r EmptyString
      else SplitByte sep r (String c cur)
  end.
Definition Split (s : string) (sep : ascii) : list string :=
  SplitByte sep s EmptyString.

(** [strings.SplitN(s, sep, 2)]: cut at the first separator only. *)
Fixpoint SplitN2Byte (sep : ascii) (s : string) (cur : string) : list string :=
  match s with
  | EmptyString => [rev cur]
  | String c r =>
      if Ascii.eqb c sep then [rev cur; r]
      else SplitN2Byte sep r (String c cur)
  end.
Definition SplitN2 (s : string) (sep : ascii) : list string :=
  SplitN2Byte sep s EmptyString.

Fixpoint Join (elems : list string) (sep : string) : string :=
  match elems with
  | [] => EmptyString
  | [x] => x
  | x :: rest => x +++ sep +++ Join rest sep
  end.

(** [strings.ReplaceAll(s, old, "")] for a one-byte [old]. *)
Fixpoint RemoveByte (s : string) (old : ascii) : string :=
  match s with
  | EmptyString => EmptyString
  | String c r =>
      if Ascii.eqb c old then RemoveByte r old else String c (RemoveByte r old)
  end.

(** White space as [unicode.IsSpace] has it, on the UTF-8 bytes: the six
    ASCII ones, U+0085 and U+00A0 (two bytes), and U+1680, U+2000..U+200A,
    U+2028, U+2029, U+202F, U+205F, U+3000 (three bytes). *)
Definition asciiSpace (a : ascii) : bool :=
  let n := byteN a in
  (((9 <=? n) && (n <=? 13)) || (n =? 32))%N.

Definition space2 (a b : ascii) : bool :=
  ((byteN a =? 194) && ((byteN b =? 133) || (byteN b =? 160)))%N.

Definition space3 (a b c : ascii) : bool :=
  let x := byteN a in let y := byteN b in let z := byteN c in
  (((x =? 225) && (y =? 154) && (z =? 128))
   || ((x =? 226) && (y =? 128)
       && (((128 <=? z) && (z <=? 138)) || (z =? 168) || (z =? 169) || (z =? 175)))
   || ((x =? 226) && (y =? 129) && (z =? 159))
   || ((x =? 227) && (y =? 128) && (z =? 128)))%N.

Fixpoint TrimLeftSpace (s : string) : string :=
  match s with
  | EmptyString => EmptyString
  | String a r1 =>
      if asciiSpace a then TrimLeftSpace r1
      else match r1 with
           | EmptyString => s
           | String b r2 =>
               if space2 a b then TrimLeftSpace r2
               else match r2 with
                    | EmptyString => s
                    | String c r3 =>
                        if space3 a b c then TrimLeftSpace r3 else s
                    end
           end
  end.

(** The same scan from the end, on the reversed string: [a] is the last
    byte, [b] the one before it. *)
Fixpoint TrimLeftSpaceRev (s : string) : string :=
  match s with
  | EmptyString => EmptyString
  | String a r1 =>
      if asciiSpace a then TrimLeftSpaceRev r1
      else match r1 with
           | EmptyString => s
           | String b r2 =>
               if space2 b a then TrimLeftSpaceRev r2
               else match r2 with
                    | EmptyString => s
                    | String c r3 =>
                        if space3 c b a then TrimLeftSpaceRev r3 else s
                    end
           end
  end.

Definition TrimRightSpace (s : string) : string :=
  rev (TrimLeftSpaceRev (rev s)).

Definition TrimSpace (s : string) : string :=
  TrimRightSpace (TrimLeftSpace s).

(** [strings.ToLower] on ASCII letters.  Bytes from 128 up are kept: the
    Unicode case tables are not part of this development. *)
Definition lowerByte (c : ascii) : ascii :=
  let n := byteN c in
  if ((65 <=? n) && (n <=? 90))%N then ascii_of_N (n + 32) else c.

Fixpoint ToLower (s : string) : string :=
  match s with
  | EmptyString => EmptyString
  | String c r => String (lowerByte c) (ToLower r)
  end.

End strings.

(** [fmt.Sprintf("%d", n)] for [n >= 0]. *)
Definition digitChar (d : Z) : ascii := ascii_of_N (Z.to_N (48 + d)).

Fixpoint itoaLoop (fuel : nat) (n : Z) (acc : string) : string :=
  match fuel with
  | O => acc
  | S fuel' =>
      let acc' := String (digitChar (n mod 10)) acc in
      if n <? 10 then acc' else itoaLoop fuel' (n / 10) acc'
  end.

Definition itoa (n : Z) : string := itoaLoop (S (Z.to_nat n)) n EmptyString.

(** ** Values of static type [any]

    The block and rich-text records of the Notion API are built and read as
    [map[string]any].  A Go map literal is kept as an association list in
    the order of the literal; keys are unique and a lookup is by key.  The
    constructors are the dynamic types that occur in the source. *)

Inductive any : Type :=
| Str (s : string)                                  (* string *)
| Bool (b : bool)                                   (* bool *)
| Int (n : Z)                                       (* int *)
| Float64 (n : Z)                                   (* float64, a JSON number *)
| MapAny (m : list (string * any))                  (* map[string]any *)
| MapStr (m : list (string * string))               (* map[string]string *)
| MapBool (m : list (string * bool))                (* map[string]bool *)
| SliceAny (l : list any)                           (* []any *)
| SliceMap (l : list (list (string * any)))         (* []map[string]any *)
| SliceSliceMap (l : list (list (list (string * any)))). (* [][]map[string]any *)

Definition gomap : Type := list (string * any).

Fixpoint lookup {V : Type} (m : list (string * V)) (k : string) : option V :=
  match m with
  | [] => None
  | (k', v) :: rest => if (k' =? k)%string then Some v else lookup rest k
  end.

(** Type assertions [v, ok := m[k].(T)]: the zero value when the key is
    absent or the dynamic type is another one. *)
Definition asString (v : option any) : string :=
  match v with Some (Str s) => s | _ => EmptyString end.
Definition asBool (v : option any) : bool :=
  match v with Some (Bool b) => b | _ => false end.
Definition asMapAny (v : option any) : option gomap :=
  match v with Some (MapAny m) => Some m | _ => None end.
Definition asSliceAny (v : option any) : option (list any) :=
  match v with Some (SliceAny l) => Some l | _ => None end.
Definition asSliceMap (v : option any) : option (list gomap) :=
  match v with Some (SliceMap l) => Some l | _ => None end.
Definition isString (v : option any) : bool :=
  match v with Some (Str _) => true | _ => false end.

(** ** Run-time outcomes

    A loop of the embedding runs on a counter; [OutOfFuel] is the counter
    running out before the loop's own exit, [Panic] an index or a slice
    bound out of range. *)

Inductive outcome (A : Type) : Type :=
| Done (a : A)
| Panic
| OutOfFuel.
Arguments Done {A} a.
Arguments Panic {A}.
Arguments OutOfFuel {A}.

Definition bind {A B : Type} (x : outcome A) (f : A -> outcome B) : outcome B :=
  match x with
  | Done a => f a
  | Panic => Panic
  | OutOfFuel => OutOfFuel
  end.

Notation "x <- c ;; k" := (bind c (fun x => k))
  (at level 61, c at next level, right associativity).

(** [a && b] where evaluating [b] may panic: [b] runs only if [a] holds. *)
Definition andThen (a : outcome bool) (b : outcome bool) : outcome bool :=
  x <- a ;; if x then b else Done false.
Notation "a &&& b" := (andThen a b) (at level 40, left associativity).

Definition index (s : string) (i : Z) : outcome ascii :=
  if (0 <=? i) && (i <? len s) then Done (byteAt s i) else Panic.

Definition sliceC (s : string) (a b : Z) : outcome string :=
  if (0 <=? a) && (a <=? b) && (b <=? len s) then Done (slice s a b) else Panic.

Definition byteIs (s : string) (i : Z) (c : ascii) : outcome bool :=
  x <- index s i ;; Done (Ascii.eqb x c).

Definition byteIsNot (s : string) (i : Z) (c : ascii) : outcome bool :=
  x <- index s i ;; Done (negb (Ascii.eqb x c)).

(** [string(b)] for a byte [b]: the UTF-8 encoding of the code point [b]. *)
Definition stringOfByte (c : ascii) : string :=
  let n := byteN c in
  if (n <? 128)%N then String c EmptyString
  else String (ascii_of_N (192 + n / 64))
         (String (ascii_of_N (128 + n mod 64)) EmptyString).

(** ** markdown.go: the inline decoder *)

Fixpoint findClosingLoop (n : nat) (text : string) (i : Z) (marker : string)
  : outcome Z :=
  match n with
  | O => OutOfFuel
  | S n' =>
      if i <=? len text - len marker then
        s <- sliceC text i (i + len marker) ;;
        if (s =? marker)%string then Done i
        else findClosingLoop n' text (i + 1) marker
      else Done (-1)
  end.

Definition findClosing (text : string) (pos : Z) (marker : string) : outcome Z :=
  findClosingLoop (S (String.length text)) text pos marker.

Fixpoint findClosingSingleLoop (n : nat) (text : string) (i : Z) (marker : ascii)
  : outcome Z :=
  match n with
  | O => OutOfFuel
  | S n' =>
      if i <? len text then
        c <- index text i ;;
        if Ascii.eqb c marker then Done i
        else findClosingSingleLoop n' text (i + 1) marker
      else Done (-1)
  end.

Definition findClosingSingle (text : string) (pos : Z) (marker : ascii) : outcome Z :=
  findClosingSingleLoop (S (String.length text)) text pos marker.

Definition plainSpan (content : string) : gomap :=
  [("type", Str "text"); ("text", MapStr [("content", content)])].

Definition annotatedSpan (content annotation : string) : gomap :=
  [("type", Str "text");
   ("text", MapStr [("content", content)]);
   ("annotations", MapBool [(annotation, true)])].

Definition mentionSpan (pageID : string) : gomap :=
  [("type", Str "mention");
   ("mention", MapAny [("type", Str "page");
                       ("page", MapAny [("id", Str pageID)])])].

Definition linkSpan (linkText linkURL : string) : gomap :=
  [("type", Str "text");
   ("text", MapAny [("content", Str linkText);
                    ("link", MapStr [("url", linkURL)])])].

(** One attempt of the loop body: the span and the index to go on from,
    or [None] when the marker at [i] does not open a span. *)
Definition tryBold (text : string) (i : Z) : outcome (option (gomap * Z)) :=
  c <- Done (i + 1 <? len text) &&& byteIs text i "*" &&& byteIs text (i + 1) "*" ;;
  if c then
    end_ <- findClosing text (i + 2) "**" ;;
    if end_ >? 0 then
      content <- sliceC text (i + 2) end_ ;;
      Done (Some (annotatedSpan content "bold", end_ + 2))
    else Done None
  else Done None.

Definition tryItalic (text : string) (i : Z) : outcome (option (gomap * Z)) :=
  star <- byteIs text i "*" ;;
  c <- (if star
        then if i + 1 >=? len text then Done true else byteIsNot text (i + 1) "*"
        else Done false) ;;
  if c then
    end_ <- findClosingSingle text (i + 1) "*" ;;
    if end_ >? 0 then
      content <- sliceC text (i + 1) end_ ;;
      Done (Some (annotatedSpan content "italic", end_ + 1))
    else Done None
  else Done None.

Definition tryCode (text : string) (i : Z) : outcome (option (gomap * Z)) :=
  c <- byteIs text i "`" ;;
  if c then
    end_ <- findClosingSingle text (i + 1) "`" ;;
    if end_ >? 0 then
      content <- sliceC text (i + 1) end_ ;;
      Done (Some (annotatedSpan content "code", end_ + 1))
    else Done None
  else Done None.

Definition tryLink (text : string) (i : Z) : outcome (option (gomap * Z)) :=
  c <- byteIs text i "[" ;;
  if c then
    closeBracket <- findClosingSingle text (i + 1) "]" ;;
    c2 <- Done (closeBracket >? 0) &&& Done (closeBracket + 1 <? len text)
          &&& byteIs text (closeBracket + 1) "(" ;;
    if c2 then
      closeParen <- findClosingSingle text (closeBracket + 2) ")" ;;
      if closeParen >? 0 then
        linkText <- sliceC text (i + 1) closeBracket ;;
        linkURL <- sliceC text (closeBracket + 2) closeParen ;;
        if strings.HasPrefix linkURL "notion://" && strings.HasPrefix linkText "@"
        then
          let pageID := strings.TrimPrefix linkURL "notion://" in
          Done (Some (mentionSpan pageID, closeParen + 1))
        else Done (Some (linkSpan linkText linkURL, closeParen + 1))
      else Done None
    else Done None
  else Done None.

(** [for i < len(text) && text[i] != '*' && text[i] != '`' && text[i] != '[' { i++ }] *)
Fixpoint plainRunLoop (n : nat) (text : string) (i : Z) : outcome Z :=
  match n with
  | O => OutOfFuel
  | S n' =>
      c <- Done (i <? len text) &&& byteIsNot text i "*"
           &&& byteIsNot text i "`" &&& byteIsNot text i "[" ;;
      if c then plainRunLoop n' text (i + 1) else Done i
  end.

Definition orElse {A : Type} (x : outcome (option A)) (y : outcome (option A))
  : outcome (option A) :=
  r <- x ;; match r with Some a => Done (Some a) | None => y end.

Fixpoint parseInlineLoop (fuel : nat) (text : string) (i : Z) (result : list gomap)
  : outcome (list gomap) :=
  match fuel with
  | O => OutOfFuel
  | S fuel' =>
      if i <? len text then
        marked <- orElse (tryBold text i)
                    (orElse (tryItalic text i)
                       (orElse (tryCode text i) (tryLink text i))) ;;
        match marked with
        | Some (span, next) => parseInlineLoop fuel' text next (result ++ [span])
        | None =>
            let start := i in
            i' <- plainRunLoop (S (String.length text)) text i ;;
            if i' >? start then
              content <- sliceC text start i' ;;
              parseInlineLoop fuel' text i' (result ++ [plainSpan content])
            else
              c <- index text i' ;;
              parseInlineLoop fuel' text (i' + 1)
                (result ++ [plainSpan (stringOfByte c)])
        end
      else Done result
  end.

(** The decoder as the source has it, with its run-time outcome. *)
Definition parseInlineMarkdownRun (text : string) : outcome (list gomap) :=
  result <- parseInlineLoop (S (String.length text)) text 0 [] ;;
  if (Z.of_nat (List.length result) =? 0) then Done [plainSpan text]
  else Done result.

(** The decoder as a function: [parseInlineMarkdownRun] always ends in
    [Done] (lemma [parseInlineMarkdownRun_total] below). *)
Definition parseInlineMarkdown (text : string) : list gomap :=
  match parseInlineMarkdownRun text with
  | Done result => result
  | _ => []
  end.

(** ** markdown.go: tables, languages, lines *)

Definition llen {A : Type} (l : list A) : Z := Z.of_nat (List.length l).

(** [lines[i]] where the source has checked the index before. *)
Definition lineAt (lines : list string) (i : Z) : string :=
  nth (Z.to_nat i) lines EmptyString.

Definition isEmpty (s : string) : bool := (s =? EmptyString)%string.

(** The closure [parseCells] of [parseMarkdownTable]. *)
Definition parseCells (row : string) : list string :=
  let row := strings.TrimSpace row in
  let row := if (len row >? 0) && Ascii.eqb (byteAt row 0) "|"
             then sliceFrom row 1 else row in
  let row := if (len row >? 0) && Ascii.eqb (byteAt row (len row - 1)) "|"
             then sliceTo row (len row - 1) else row in
  let parts := strings.Split row "|" in
  map strings.TrimSpace parts.

(** The loop of the closure [isSeparator].  The source ranges over runes;
    the four characters it accepts are ASCII, and a byte from 128 up is
    part of a rune that is none of them, so the bytes decide the same. *)
Fixpoint separatorChars (row : string) : bool :=
  match row with
  | EmptyString => true
  | String c r =>
      if negb (Ascii.eqb c "|") && negb (Ascii.eqb c "-")
         && negb (Ascii.eqb c ":") && negb (Ascii.eqb c " ")
      then false
      else separatorChars r
  end.

Definition isSeparator (row : string) : bool :=
  let row := strings.TrimSpace row in
  if separatorChars row then strings.Contains row "-" else false.

Fixpoint dataRowsOf (rows : list string) (dataRows : list (list string))
  : list (list string) :=
  match rows with
  | [] => dataRows
  | row :: rest =>
      if negb (isSeparator row) then
        let cells := parseCells row in
        if llen cells >? 0 then dataRowsOf rest (dataRows ++ [cells])
        else dataRowsOf rest dataRows
      else dataRowsOf rest dataRows
  end.

(** [for len(cells) < tableWidth { cells = append(cells, "") }] *)
Fixpoint padCells (n : nat) (cells : list string) (tableWidth : Z) : list string :=
  match n with
  | O => cells
  | S n' =>
      if llen cells <? tableWidth
      then padCells n' (cells ++ [EmptyString]) tableWidth
      else cells
  end.

Definition tableRowBlock (notionCells : list (list gomap)) : gomap :=
  [("object", Str "block");
   ("type", Str "table_row");
   ("table_row", MapAny [("cells", SliceSliceMap notionCells)])].

Definition tableRowOf (cells : list string) (tableWidth : Z) : gomap :=
  let cells := padCells (Z.to_nat tableWidth) cells tableWidth in
  let notionCells := map parseInlineMarkdown (firstn (Z.to_nat tableWidth) cells) in
  tableRowBlock notionCells.

(** [parseMarkdownTable]; [None] is the [nil] map. *)
Definition parseMarkdownTable (rows : list string) : option gomap :=
  if llen rows <? 2 then None
  else
    let dataRows := dataRowsOf rows [] in
    match dataRows with
    | [] => None
    | first :: _ =>
        let tableWidth := llen first in
        let tableRowBlocks := map (fun cells => tableRowOf cells tableWidth) dataRows in
        Some [("object", Str "block");
              ("type", Str "table");
              ("table", MapAny [("table_width", Int tableWidth);
                                ("has_column_header", Bool true);
                                ("has_row_header", Bool false);
                                ("children", SliceMap tableRowBlocks)])]
    end.

Fixpoint splitLinesLoop (s : string) (cur : string) (lines : list string)
  : list string :=
  match s with
  | EmptyString =>
      (* [if start < len(s)]: the last piece, unless it is empty *)
      match cur with
      | EmptyString => lines
      | _ => lines ++ [rev cur]
      end
  | String c r =>
      if Ascii.eqb c "010" then splitLinesLoop r EmptyString (lines ++ [rev cur])
      else splitLinesLoop r (String c cur) lines
  end.

(** [splitLines]: [cur] holds the bytes of [s[start:i]], last one first. *)
Definition splitLines (s : string) : list string :=
  splitLinesLoop s EmptyString [].

Definition languageMap : list (string * string) :=
  [("plaintext", "plain text"); ("plain", "plain text"); ("text", "plain text");
   ("txt", "plain text"); ("js", "javascript"); ("ts", "typescript");
   ("py", "python"); ("rb", "ruby"); ("sh", "shell"); ("bash", "shell");
   ("zsh", "shell"); ("yml", "yaml"); ("dockerfile", "docker");
   ("md", "markdown")].

Definition knownLanguages : list (string * bool) :=
  map (fun l => (l, true))
    ["abap"; "arduino"; "assembly"; "bash";
     "c"; "c#"; "c++"; "clojure"; "coffeescript";
     "css"; "dart"; "diff"; "docker"; "elixir";
     "elm"; "erlang"; "flow"; "fortran"; "f#";
     "gherkin"; "glsl"; "go"; "graphql"; "groovy";
     "haskell"; "html"; "java"; "javascript"; "json";
     "julia"; "kotlin"; "latex"; "less"; "lisp";
     "livescript"; "lua"; "makefile"; "markdown";
     "markup"; "matlab"; "mermaid"; "nix";
     "objective-c"; "ocaml"; "pascal"; "perl";
     "php"; "plain text"; "powershell"; "prolog";
     "protobuf"; "python"; "r"; "reason"; "ruby";
     "rust"; "sass"; "scala"; "scheme"; "scss";
     "shell"; "sql"; "swift"; "typescript";
     "vb.net"; "verilog"; "vhdl"; "visual basic";
     "webassembly"; "xml"; "yaml"; "java/c/c++/c#"].

(** [m[k]] on a [map[string]bool]: [false] for an absent key. *)
Definition lookupBool (m : list (string * bool)) (k : string) : bool :=
  match lookup m k with Some b => b | None => false end.

(** The body of [mapLanguageToNotion] after its first line, on the
    normalised hint. *)
Definition mapNormalisedLanguage (lang : string) : string :=
  if isEmpty lang then "plain text"
  else match lookup languageMap lang with
       | Some mapped => mapped
       | None => if lookupBool knownLanguages lang then lang else "plain text"
       end.

Definition mapLanguageToNotion (lang : string) : string :=
  let lang := strings.ToLower (strings.TrimSpace lang) in
  mapNormalisedLanguage lang.

(** ** markdown.go: [MarkdownToBlocks] *)

Definition textBlock (blockType : string) (richText : list gomap) : gomap :=
  [("object", Str "block");
   ("type", Str blockType);
   (blockType, MapAny [("rich_text", SliceMap richText)])].

Definition dividerBlock : gomap :=
  [("object", Str "block"); ("type", Str "divider"); ("divider", MapAny [])].

Definition codeBlock (codeContent notionLang : string) : gomap :=
  [("object", Str "block");
   ("type", Str "code");
   ("code", MapAny [("rich_text", SliceMap [plainSpan codeContent]);
                    ("language", Str notionLang)])].

Definition todoBlock (richText : list gomap) (checked : bool) : gomap :=
  [("object", Str "block");
   ("type", Str "to_do");
   ("to_do", MapAny [("rich_text", SliceMap richText);
                     ("checked", Bool checked)])].

Definition isFence (line : string) : bool :=
  (len line >=? 3) && (slice line 0 3 =? "```")%string.

(** [for i+1 < len(lines) { i++; if fence { break }; codeLines = append(...) }] *)
Fixpoint codeFenceLoop (n : nat) (lines : list string) (i : Z)
  (codeLines : list string) : Z * list string :=
  match n with
  | O => (i, codeLines)
  | S n' =>
      if i + 1 <? llen lines then
        let i := i + 1 in
        if isFence (lineAt lines i) then (i, codeLines)
        else codeFenceLoop n' lines i (codeLines ++ [lineAt lines i])
      else (i, codeLines)
  end.

(** [for i+1 < len(lines) && len(lines[i+1]) > 0 && lines[i+1][0] == '|'] *)
Fixpoint tableRowsLoop (n : nat) (lines : list string) (i : Z)
  (tableRows : list string) : Z * list string :=
  match n with
  | O => (i, tableRows)
  | S n' =>
      if (i + 1 <? llen lines) && (len (lineAt lines (i + 1)) >? 0)
         && Ascii.eqb (byteAt (lineAt lines (i + 1)) 0) "|"
      then tableRowsLoop n' lines (i + 1) (tableRows ++ [lineAt lines (i + 1)])
      else (i, tableRows)
  end.

Definition isDigit (c : ascii) : bool :=
  ((48 <=? byteN c) && (byteN c <=? 57))%N.

(** [for j := 1; j < len(line) && j < 4; j++] of the numbered-list case:
    the index of the dot, or [-1]. *)
Fixpoint dotIdxLoop (n : nat) (line : string) (j : Z) : Z :=
  match n with
  | O => -1
  | S n' =>
      if (j <? len line) && (j <? 4) then
        if Ascii.eqb (byteAt line j) "." && (j + 1 <? len line)
           && Ascii.eqb (byteAt line (j + 1)) " "
        then j
        else if negb (isDigit (byteAt line j)) then -1
        else dotIdxLoop n' line (j + 1)
      else -1
  end.

Definition numberedDotIdx (line : string) : Z :=
  if (len line >? 3) && isDigit (byteAt line 0) then dotIdxLoop 3 line 1 else -1.

Definition isChildPageMarker (line : string) : bool :=
  strings.HasPrefix line "<!-- child_page:" && strings.HasSuffix line "-->".

Fixpoint markdownLoop (n : nat) (lines : list string) (i : Z) (blocks : list gomap)
  : list gomap :=
  match n with
  | O => blocks
  | S n' =>
      if i <? llen lines then
        let line := lineAt lines i in
        if isEmpty line then markdownLoop n' lines (i + 1) blocks
        else if isChildPageMarker line then markdownLoop n' lines (i + 1) blocks
        else if (len line >? 2) && Ascii.eqb (byteAt line 0) "#"
                && Ascii.eqb (byteAt line 1) " "
        then markdownLoop n' lines (i + 1)
               (blocks ++ [textBlock "heading_1" (parseInlineMarkdown (sliceFrom line 2))])
        else if (len line >? 3) && (slice line 0 3 =? "## ")%string
        then markdownLoop n' lines (i + 1)
               (blocks ++ [textBlock "heading_2" (parseInlineMarkdown (sliceFrom line 3))])
        else if (len line >? 4) && (slice line 0 4 =? "### ")%string
        then markdownLoop n' lines (i + 1)
               (blocks ++ [textBlock "heading_3" (parseInlineMarkdown (sliceFrom line 4))])
        else if (line =? "---")%string
        then markdownLoop n' lines (i + 1) (blocks ++ [dividerBlock])
        else if isFence line then
          let lang := strings.TrimSpace (sliceFrom line 3) in
          let '(i, codeLines) := codeFenceLoop (List.length lines) lines i [] in
          let codeContent := strings.Join codeLines nl in
          let notionLang := mapLanguageToNotion lang in
          markdownLoop n' lines (i + 1) (blocks ++ [codeBlock codeContent notionLang])
        else if (len line >? 5)
                && ((slice line 0 5 =? "- [ ]")%string || (slice line 0 5 =? "- [x]")%string)
        then
          let checked := Ascii.eqb (byteAt line 3) "x" in
          let text := if len line >? 6 then sliceFrom line 6 else EmptyString in
          markdownLoop n' lines (i + 1)
            (blocks ++ [todoBlock (parseInlineMarkdown text) checked])
        else if (len line >? 2) && (slice line 0 2 =? "- ")%string
        then markdownLoop n' lines (i + 1)
               (blocks ++ [textBlock "bulleted_list_item"
                             (parseInlineMarkdown (sliceFrom line 2))])
        else if numberedDotIdx line >? 0
        then markdownLoop n' lines (i + 1)
               (blocks ++ [textBlock "numbered_list_item"
                             (parseInlineMarkdown
                                (sliceFrom line (numberedDotIdx line + 2)))])
        else if (len line >? 2) && (slice line 0 2 =? "> ")%string
        then markdownLoop n' lines (i + 1)
               (blocks ++ [textBlock "quote" (parseInlineMarkdown (sliceFrom line 2))])
        else if (len line >? 0) && Ascii.eqb (byteAt line 0) "|" then
          let '(i, tableRows) := tableRowsLoop (List.length lines) lines i [line] in
          match parseMarkdownTable tableRows with
          | Some tableBlock => markdownLoop n' lines (i + 1) (blocks ++ [tableBlock])
          | None => markdownLoop n' lines (i + 1) blocks
          end
        else markdownLoop n' lines (i + 1)
               (blocks ++ [textBlock "paragraph" (parseInlineMarkdown line)])
      else blocks
  end.

Definition MarkdownToBlocks (markdown : string) : list gomap :=
  let lines := splitLines markdown in
  markdownLoop (List.length lines) lines 0 [].

(** ** markdown.go: [BlocksToMarkdown] *)

(** What one iteration of [richTextToMarkdown]'s type switch leaves:
    text already written (the iteration ends with [continue]), or the
    content and link that go on to the annotations. *)
Inductive richItem : Type :=
| Written (s : string)
| Content (content linkURL : string).

Definition richTextSwitch (rt : gomap) : richItem :=
  let itemType := asString (lookup rt "type") in
  if (itemType =? "text")%string then
    match asMapAny (lookup rt "text") with
    | Some textObj =>
        let content := asString (lookup textObj "content") in
        match asMapAny (lookup textObj "link") with
        | Some link => Content content (asString (lookup link "url"))
        | None => Content content EmptyString
        end
    | None => Content EmptyString EmptyString
    end
  else if (itemType =? "mention")%string then
    match asMapAny (lookup rt "mention") with
    | Some mention =>
        let mentionType := asString (lookup mention "type") in
        if (mentionType =? "page")%string then
          match asMapAny (lookup mention "page") with
          | Some page =>
              let pageID := asString (lookup page "id") in
              let plainText := asString (lookup rt "plain_text") in
              let plainText := if isEmpty plainText then "Page" else plainText in
              Written ("[@" +++ plainText +++ "](notion://" +++ pageID +++ ")")
          | None => Content (asString (lookup rt "plain_text")) EmptyString
          end
        else Written (asString (lookup rt "plain_text"))
    | None => Content (asString (lookup rt "plain_text")) EmptyString
    end
  else Content (asString (lookup rt "plain_text")) EmptyString.

Definition applyAnnotations (rt : gomap) (content : string) : string :=
  match asMapAny (lookup rt "annotations") with
  | Some annotations =>
      let content := if asBool (lookup annotations "code")
                     then "`" +++ content +++ "`" else content in
      let content := if asBool (lookup annotations "bold")
                     then "**" +++ content +++ "**" else content in
      let content := if asBool (lookup annotations "italic")
                     then "*" +++ content +++ "*" else content in
      let content := if asBool (lookup annotations "strikethrough")
                     then "~~" +++ content +++ "~~" else content in
      content
  | None => content
  end.

Definition richTextItem (item : any) : string :=
  match item with
  | MapAny rt =>
      match richTextSwitch rt with
      | Written s => s
      | Content content linkURL =>
          let content := applyAnnotations rt content in
          if negb (isEmpty linkURL)
          then "[" +++ content +++ "](" +++ linkURL +++ ")"
          else content
      end
  | _ => EmptyString
  end.

Fixpoint richTextToMarkdown (richText : list any) : string :=
  match richText with
  | [] => EmptyString
  | item :: rest => richTextItem item +++ richTextToMarkdown rest
  end.

Definition extractBlockText (b : gomap) (blockType : string) : string :=
  let richText :=
    match asMapAny (lookup b blockType) with
    | Some content =>
        match asSliceAny (lookup content "rich_text") with
        | Some rt => rt
        | None => []
        end
    | None => []
    end in
  richTextToMarkdown richText.

Definition commentLine (c : gomap) : string :=
  let author := asString (lookup c "author") in
  let content := asString (lookup c "content") in
  let date := asString (lookup c "created_at") in
  let author := if isEmpty author then "Unknown" else author in
  "> **" +++ author +++ "** *(" +++ date +++ ")*: " +++ content +++ nl +++ nl.

Fixpoint commentLines (comments : list gomap) : string :=
  match comments with
  | [] => EmptyString
  | c :: rest => commentLine c +++ commentLines rest
  end.

Definition formatBlockComments (b : gomap) : string :=
  match asSliceMap (lookup b "_comments") with
  | Some comments => commentLines comments
  | None => EmptyString
  end.

Definition tableChildren (b : gomap) : option (list any) :=
  match asMapAny (lookup b "table") with
  | Some tableData => asSliceAny (lookup tableData "children")
  | None => None
  end.

Fixpoint tableCommentsLoop (children : list any) : string :=
  match children with
  | [] => EmptyString
  | MapAny row :: rest => formatBlockComments row +++ tableCommentsLoop rest
  | _ :: rest => tableCommentsLoop rest
  end.

Definition extractTableComments (b : gomap) : string :=
  match tableChildren b with
  | Some children => tableCommentsLoop children
  | None => EmptyString
  end.

Fixpoint rowCellsOf (cells : list any) : list string :=
  match cells with
  | [] => []
  | SliceAny cellItems :: rest => richTextToMarkdown cellItems :: rowCellsOf rest
  | _ :: rest => rowCellsOf rest
  end.

Fixpoint tableRowsOf (children : list any) : list (list string) :=
  match children with
  | [] => []
  | MapAny row :: rest =>
      match asMapAny (lookup row "table_row") with
      | Some rowData =>
          match asSliceAny (lookup rowData "cells") with
          | Some cells => rowCellsOf cells :: tableRowsOf rest
          | None => tableRowsOf rest
          end
      | None => tableRowsOf rest
      end
  | _ :: rest => tableRowsOf rest
  end.

Definition rowLine (row : list string) : string :=
  "| " +++ strings.Join row " | " +++ " |" +++ nl.

Fixpoint tableLines (i : Z) (rows : list (list string)) : string :=
  match rows with
  | [] => EmptyString
  | row :: rest =>
      rowLine row
      +++ (if i =? 0 then rowLine (map (fun _ => "---") row) else EmptyString)
      +++ tableLines (i + 1) rest
  end.

Definition extractTableMarkdown (b : gomap) : string :=
  match tableChildren b with
  | Some children =>
      let rows := tableRowsOf children in
      if llen rows =? 0 then EmptyString else tableLines 0 rows
  | None => EmptyString
  end.

(** The variables of the conversion loop. *)
Record encoder : Type := mkEncoder {
  result : string;
  listNum : Z;
  lastType : string
}.

Definition todoCheck (b : gomap) : string :=
  match asMapAny (lookup b "to_do") with
  | Some todoBlock => if asBool (lookup todoBlock "checked") then "x" else " "
  | None => " "
  end.

Definition codeLanguage (b : gomap) : string :=
  match asMapAny (lookup b "code") with
  | Some codeBlock => asString (lookup codeBlock "language")
  | None => EmptyString
  end.

(** One iteration of the loop of [BlocksToMarkdownWithChildPages]. *)
Definition encodeBlock (trailingChildPages : list (string * bool))
  (e : encoder) (b : gomap) : encoder :=
  let blockType := asString (lookup b "type") in
  if isEmpty blockType then e
  else
    let listNum := if negb (blockType =? "numbered_list_item")%string
                      && (lastType e =? "numbered_list_item")%string
                   then 1 else listNum e in
    let text := extractBlockText b blockType in
    let finish (written : string) (listNum : Z) : encoder :=
      let written := if negb (blockType =? "table")%string
                     then written +++ formatBlockComments b else written in
      mkEncoder (result e +++ written) listNum blockType in
    if (blockType =? "heading_1")%string then finish ("# " +++ text +++ nl +++ nl) listNum
    else if (blockType =? "heading_2")%string then finish ("## " +++ text +++ nl +++ nl) listNum
    else if (blockType =? "heading_3")%string then finish ("### " +++ text +++ nl +++ nl) listNum
    else if (blockType =? "paragraph")%string then finish (text +++ nl +++ nl) listNum
    else if (blockType =? "bulleted_list_item")%string then finish ("- " +++ text +++ nl) listNum
    else if (blockType =? "numbered_list_item")%string
    then finish (itoa listNum +++ ". " +++ text +++ nl) (listNum + 1)
    else if (blockType =? "to_do")%string
    then finish ("- [" +++ todoCheck b +++ "] " +++ text +++ nl) listNum
    else if (blockType =? "quote")%string then finish ("> " +++ text +++ nl +++ nl) listNum
    else if (blockType =? "callout")%string then finish ("> " +++ text +++ nl +++ nl) listNum
    else if (blockType =? "code")%string
    then finish ("```" +++ codeLanguage b +++ nl +++ text +++ nl +++ "```" +++ nl +++ nl) listNum
    else if (blockType =? "divider")%string then finish ("---" +++ nl +++ nl) listNum
    else if (blockType =? "child_page")%string then
      let pageID := asString (lookup b "id") in
      if negb (isEmpty pageID) then
        if lookupBool trailingChildPages pageID
        then mkEncoder (result e) listNum (lastType e)
        else match asMapAny (lookup b "child_page") with
             | Some childPage =>
                 let title := asString (lookup childPage "title") in
                 let title := if isEmpty title then "Untitled" else title in
                 finish ("[@" +++ title +++ "](notion://" +++ pageID +++ ")" +++ nl +++ nl)
                   listNum
             | None => finish EmptyString listNum
             end
      else finish EmptyString listNum
    else if (blockType =? "table")%string
    then finish (extractTableMarkdown b +++ nl +++ extractTableComments b) listNum
    else if negb (isEmpty text) then finish (text +++ nl +++ nl) listNum
    else finish EmptyString listNum.

Definition BlocksToMarkdownWithChildPages (blocks : list gomap)
  (trailingChildPages : list (string * bool)) : string :=
  result (fold_left (encodeBlock trailingChildPages) blocks
            (mkEncoder EmptyString 1 EmptyString)).

(** [BlocksToMarkdown] passes the [nil] map. *)
Definition BlocksToMarkdown (blocks : list gomap) : string :=
  BlocksToMarkdownWithChildPages blocks [].

(** ** The blocks as the API returns them

    [encoding/json] decodes every JSON array into a [[]any], every object
    into a [map[string]any] and every number into a [float64].  [jsonForm]
    gives a value built by the decoder the types it has after one trip
    through JSON; strings, booleans and the order of entries are kept. *)
Fixpoint jsonForm (v : any) : any :=
  let object := fix object (m : list (string * any)) : list (string * any) :=
    match m with
    | [] => []
    | (k, x) :: rest => (k, jsonForm x) :: object rest
    end in
  let objects := fix objects (l : list (list (string * any))) : list any :=
    match l with
    | [] => []
    | m :: rest => MapAny (object m) :: objects rest
    end in
  match v with
  | Str s => Str s
  | Bool b => Bool b
  | Int n => Float64 n
  | Float64 n => Float64 n
  | MapAny m => MapAny (object m)
  | MapStr m => MapAny (map (fun kv => (fst kv, Str (snd kv))) m)
  | MapBool m => MapAny (map (fun kv => (fst kv, Bool (snd kv))) m)
  | SliceAny l => SliceAny (map jsonForm l)
  | SliceMap l => SliceAny (objects l)
  | SliceSliceMap l =>
      SliceAny ((fix rows (l : list (list (list (string * any)))) : list any :=
                   match l with
                   | [] => []
                   | r :: rest => SliceAny (objects r) :: rows rest
                   end) l)
  end.

Definition jsonBlock (b : gomap) : gomap :=
  match jsonForm (MapAny b) with
  | MapAny m => m
  | _ => b
  end.

Definition jsonBlocks (blocks : list gomap) : list gomap := map jsonBlock blocks.

(** ** sync.go: the collaborators

    Everything a [Client] method does outside the process is a [call]; the
    answers come from the outside and are a parameter ([answers]) that sees
    the calls made so far.  [fetchAllBlocks], [fetchComments] and
    [getPageTitle] are read calls of the transport; each of the other
    remote calls is one [doRequest] that changes the remote page. *)

Record Comment : Type := mkComment {
  Author : string;
  CommentContent : string;
  CreatedAt : string      (* already formatted as [Jan 2, 2006] *)
}.

Inductive call : Type :=
| ReadFile (path : string)
| MkdirAll (path : string)
| WriteFile (path content : string)
| Now
| GetPageTitle (pageID : string)
| FetchAllBlocks (blockID : string)
| FetchComments (blockID : string)
| ErasePage (pageID : string)
| AppendChildren (pageID : string) (after : option string) (children : list gomap)
| RestorePage (pageID : string)
| ReparentPage (childID parentPageID : string)
| UpdateToEmptyParagraph (blockID : string)
| DeleteBlock (blockID : string).

Inductive response : Type :=
| Failed (err : string)
| Succeeded
| Text (s : string)
| BlockList (blocks : list gomap)
| CommentList (comments : list Comment).

Definition isRemoteMutation (c : call) : bool :=
  match c with
  | ErasePage _ | AppendChildren _ _ _ | RestorePage _ | ReparentPage _ _
  | UpdateToEmptyParagraph _ | DeleteBlock _ => true
  | _ => false
  end.

Definition isRemoteCall (c : call) : bool :=
  match c with
  | ReadFile _ | MkdirAll _ | WriteFile _ _ | Now => false
  | _ => true
  end.

Definition answers : Type := list call -> call -> response.

(** A Go function returning [(A, error)]: the value or the error's text. *)
Inductive errorOr (A : Type) : Type :=
| Ok (a : A)
| Err (msg : string).
Arguments Ok {A} a.
Arguments Err {A} msg.

Definition io (A : Type) : Type := answers -> list call -> errorOr A * list call.

Definition ret {A : Type} (a : A) : io A := fun _ trace => (Ok a, trace).
Definition fail {A : Type} (msg : string) : io A := fun _ trace => (Err msg, trace).
Definition ioBind {A B : Type} (x : io A) (f : A -> io B) : io B :=
  fun w trace =>
    match x w trace with
    | (Ok a, trace') => f a w trace'
    | (Err msg, trace') => (Err msg, trace')
    end.
Definition request (c : call) : io response :=
  fun w trace => (Ok (w trace c), trace ++ [c]).

Notation "x <-- c ;; k" := (ioBind c (fun x => k))
  (at level 61, c at next level, right associativity).

(** A call whose answer is only success or failure. *)
Definition perform (c : call) : io unit :=
  r <-- request c ;;
  match r with
  | Failed err => fail err
  | _ => ret tt
  end.

(** [fmt.Errorf(prefix + ": %w", err)] around a step. *)
Definition wrapErr {A : Type} (prefix : string) (x : io A) : io A :=
  fun w trace =>
    match x w trace with
    | (Err msg, trace') => (Err (prefix +++ ": " +++ msg), trace')
    | r => r
    end.

(** A step whose error is logged and dropped. *)
Definition ignoreErr (x : io unit) : io unit :=
  fun w trace =>
    match x w trace with
    | (_, trace') => (Ok tt, trace')
    end.

Definition readFile (path : string) : io string :=
  r <-- request (ReadFile path) ;;
  match r with
  | Text s => ret s
  | Failed err => fail err
  | _ => fail "unexpected answer"
  end.

Definition fetchAllBlocks (blockID : string) : io (list gomap) :=
  r <-- request (FetchAllBlocks blockID) ;;
  match r with
  | BlockList blocks => ret blocks
  | Failed err => fail err
  | _ => fail "unexpected answer"
  end.

Definition getPageTitle (pageID : string) : io string :=
  r <-- request (GetPageTitle pageID) ;;
  match r with
  | Text s => ret s
  | Failed err => fail err
  | _ => fail "unexpected answer"
  end.

Definition fetchComments (blockID : string) : io (list Comment) :=
  r <-- request (FetchComments blockID) ;;
  match r with
  | CommentList comments => ret comments
  | Failed err => fail err
  | _ => fail "unexpected answer"
  end.

Definition erasePage (pageID : string) : io unit := perform (ErasePage pageID).
Definition deleteBlock (blockID : string) : io unit := perform (DeleteBlock blockID).
Definition updateBlockToEmptyParagraph (blockID : string) : io unit :=
  perform (UpdateToEmptyParagraph blockID).

Fixpoint restorePages (pageIDs : list string) : io unit :=
  match pageIDs with
  | [] => ret tt
  | pageID :: rest =>
      _ <-- wrapErr ("failed to restore page " +++ pageID) (perform (RestorePage pageID)) ;;
      restorePages rest
  end.

Fixpoint reparentPages (parentPageID : string) (childPageIDs : list string) : io unit :=
  match childPageIDs with
  | [] => ret tt
  | childID :: rest =>
      _ <-- wrapErr ("failed to reparent page " +++ childID)
              (perform (ReparentPage childID parentPageID)) ;;
      reparentPages parentPageID rest
  end.

Definition batchSize : Z := 100.

(** [for i := 0; i < len(blocks); i += batchSize]; the pause between two
    batches is not modelled. *)
Fixpoint appendBatchesLoop (n : nat) (pageID : string) (after : option string)
  (blocks : list gomap) (i : Z) (errPrefix : bool) : io unit :=
  match n with
  | O => ret tt
  | S n' =>
      if i <? llen blocks then
        let end_ := if i + batchSize >? llen blocks then llen blocks else i + batchSize in
        let batch := firstn (Z.to_nat (end_ - i)) (skipn (Z.to_nat i) blocks) in
        let send := perform (AppendChildren pageID after batch) in
        _ <-- (if errPrefix
               then wrapErr ("failed to append batch " +++ itoa (i / batchSize)) send
               else send) ;;
        appendBatchesLoop n' pageID after blocks (i + batchSize) errPrefix
      else ret tt
  end.

Definition appendBlocksBatched (pageID : string) (blocks : list gomap) : io unit :=
  appendBatchesLoop (List.length blocks) pageID None blocks 0 true.

Definition appendBlocksAfter (pageID afterBlockID : string) (blocks : list gomap)
  : io unit :=
  if llen blocks =? 0 then ret tt
  else appendBatchesLoop (List.length blocks) pageID (Some afterBlockID) blocks 0 false.

(** ** sync.go: what both revisions share *)

Definition isUnsafeFilenameByte (c : ascii) : bool :=
  let n := byteN c in
  ((n =? 60) || (n =? 62) || (n =? 58) || (n =? 34) || (n =? 47)
   || (n =? 92) || (n =? 124) || (n =? 63) || (n =? 42))%N.

Fixpoint replaceUnsafe (name : string) : string :=
  match name with
  | EmptyString => EmptyString
  | String c r =>
      String (if isUnsafeFilenameByte c then "_"%char else c) (replaceUnsafe r)
  end.

Definition sanitizeFilename (name : string) : string :=
  let name := replaceUnsafe name in
  if len name >? 100 then sliceTo name 100 else name.

Definition extractCommentsSection (markdown : string) : string * string :=
  let idx := strings.Index markdown (nl +++ "## Comments" +++ nl) in
  if idx =? -1 then (markdown, EmptyString)
  else
    let dividerIdx := strings.LastIndex (sliceTo markdown idx) (nl +++ "---" +++ nl) in
    if negb (dividerIdx =? -1)
    then (strings.TrimSpace (sliceTo markdown dividerIdx),
          strings.TrimSpace (sliceFrom markdown (idx + 13)))
    else (strings.TrimSpace (sliceTo markdown idx),
          strings.TrimSpace (sliceFrom markdown (idx + 13))).

(** The blocks [PushPage] appends for a preserved comments section. *)
Definition withPreservedComments (blocks : list gomap) (preservedComments : string)
  : list gomap :=
  if negb (isEmpty preservedComments) then
    (blocks ++ [dividerBlock]
       ++ [[("object", Str "block");
            ("type", Str "heading_2");
            ("heading_2", MapAny [("rich_text", SliceMap [plainSpan "Comments"])])]])
      ++ MarkdownToBlocks preservedComments
  else blocks.

(** The comparison of [DiffPage], from the two markdown texts on. *)
Fixpoint diffLoop (n : nat) (localLines notionLines : list string) (i : Z)
  (diff : string) (hasChanges : bool) : string * bool :=
  match n with
  | O => (diff, hasChanges)
  | S n' =>
      let local := if i <? llen localLines then lineAt localLines i else EmptyString in
      let notion := if i <? llen notionLines then lineAt notionLines i else EmptyString in
      if negb (local =? notion)%string then
        let diff := if negb (isEmpty notion) then diff +++ "- " +++ notion +++ nl else diff in
        let diff := if negb (isEmpty local) then diff +++ "+ " +++ local +++ nl else diff in
        diffLoop n' localLines notionLines (i + 1) diff true
      else diffLoop n' localLines notionLines (i + 1) diff hasChanges
  end.

Definition noChanges : string := "No changes detected.".

Definition diffHeader (filePath pageID : string) : string :=
  "Comparing " +++ filePath +++ " against Notion page " +++ pageID +++ nl +++ nl.

Definition diffReport (filePath pageID localMarkdown notionMarkdown : string) : string :=
  let localLines := strings.Split (strings.TrimSpace localMarkdown) "010" in
  let notionLines := strings.Split (strings.TrimSpace notionMarkdown) "010" in
  let maxLines := if llen notionLines >? llen localLines
                  then llen notionLines else llen localLines in
  let '(diff, hasChanges) :=
    diffLoop (Z.to_nat maxLines) localLines notionLines 0
      (diffHeader filePath pageID) false in
  if negb hasChanges then noChanges else diff.

(** [m[k] = v] on a Go map kept as an association list. *)
Fixpoint mapSet {V : Type} (m : list (string * V)) (k : string) (v : V)
  : list (string * V) :=
  match m with
  | [] => [(k, v)]
  | (k', v') :: rest =>
      if (k' =? k)%string then (k, v) :: rest else (k', v') :: mapSet rest k v
  end.

Definition blockTypeOf (block : gomap) : string := asString (lookup block "type").
Definition blockIDOf (block : gomap) : string := asString (lookup block "id").

(** ** sync.go, first revision (lines 1-1011): the child pages are listed
    in the frontmatter and re-parented after a push *)

Module SyncReparent.

Record PullResult : Type := mkPullResult {
  Markdown : string;
  FilePath : string;
  PageID : string;
  Title : string;
  ChildPages : list string
}.

(** First pass of [PullPage]: the ids of the child pages. *)
Fixpoint childPageIDsOf (blocks : list gomap) (childPageIDs : list string)
  : list string :=
  match blocks with
  | [] => childPageIDs
  | block :: rest =>
      if (blockTypeOf block =? "child_page")%string && negb (isEmpty (blockIDOf block))
      then childPageIDsOf rest (childPageIDs ++ [blockIDOf block])
      else childPageIDsOf rest childPageIDs
  end.

(** Second pass: the index of the last block that is no child page. *)
Fixpoint lastNonChildPageIdxLoop (blocks : list gomap) (i : Z) (lastNonChildPageIdx : Z)
  : Z :=
  match blocks with
  | [] => lastNonChildPageIdx
  | block :: rest =>
      if negb (blockTypeOf block =? "child_page")%string
      then lastNonChildPageIdxLoop rest (i + 1) i
      else lastNonChildPageIdxLoop rest (i + 1) lastNonChildPageIdx
  end.

Fixpoint trailingLoop (blocks : list gomap) (i : Z) (lastNonChildPageIdx : Z)
  (trailingChildPages : list (string * bool)) : list (string * bool) :=
  match blocks with
  | [] => trailingChildPages
  | block :: rest =>
      if (blockTypeOf block =? "child_page")%string && (i >? lastNonChildPageIdx)
         && negb (isEmpty (blockIDOf block))
      then trailingLoop rest (i + 1) lastNonChildPageIdx
             (mapSet trailingChildPages (blockIDOf block) true)
      else trailingLoop rest (i + 1) lastNonChildPageIdx trailingChildPages
  end.

Definition trailingChildPagesOf (blocks : list gomap) : list (string * bool) :=
  trailingLoop blocks 0 (lastNonChildPageIdxLoop blocks 0 (-1)) [].

Definition pageCommentLine (comment : Comment) : string :=
  "> **" +++ Author comment +++ "** *(" +++ CreatedAt comment +++ ")*: "
  +++ CommentContent comment +++ nl +++ nl.

Fixpoint pageCommentLines (comments : list Comment) : string :=
  match comments with
  | [] => EmptyString
  | c :: rest => pageCommentLine c +++ pageCommentLines rest
  end.

Definition commentsSection (comments : list Comment) : string :=
  if llen comments >? 0
  then nl +++ "---" +++ nl +++ nl +++ "## Comments" +++ nl +++ nl +++ pageCommentLines comments
  else EmptyString.

Fixpoint childPageLines (childPageIDs : list string) : string :=
  match childPageIDs with
  | [] => EmptyString
  | cpID :: rest => "  - " +++ cpID +++ nl +++ childPageLines rest
  end.

(** The frontmatter [PullPage] writes (lines 173-182). *)
Definition renderFrontmatter (pageID title pulledAt : string) (childPageIDs : list string)
  : string :=
  "---" +++ nl +++ "notion_id: " +++ pageID +++ nl +++ "title: " +++ title +++ nl
  +++ "pulled_at: " +++ pulledAt +++ nl
  +++ (if llen childPageIDs >? 0
       then "child_pages:" +++ nl +++ childPageLines childPageIDs
       else EmptyString)
  +++ "---" +++ nl +++ nl.

Definition orDefault {A : Type} (x : io A) (d : A) : io A :=
  fun w trace =>
    match x w trace with
    | (Ok a, trace') => (Ok a, trace')
    | (Err _, trace') => (Ok d, trace')
    end.

Definition now : io string :=
  r <-- request Now ;;
  match r with
  | Text s => ret s
  | _ => ret EmptyString
  end.

(** [filepath.Join] is the two parts around a slash here; it also cleans
    the path, which no property below looks at. *)
Definition PullPage (pageID outputDir : string) : io PullResult :=
  let pageID := strings.RemoveByte pageID "-" in
  title <-- orDefault (getPageTitle pageID) pageID ;;
  blocks <-- wrapErr "failed to fetch blocks" (fetchAllBlocks pageID) ;;
  let childPageIDs := childPageIDsOf blocks [] in
  let trailingChildPages := trailingChildPagesOf blocks in
  comments <-- orDefault (fetchComments pageID) [] ;;
  let markdown := BlocksToMarkdownWithChildPages blocks trailingChildPages in
  let markdown := markdown +++ commentsSection comments in
  let outputDir := if isEmpty outputDir then "/tmp/notion" else outputDir in
  _ <-- wrapErr "failed to create output dir" (perform (MkdirAll outputDir)) ;;
  let safeTitle := sanitizeFilename title in
  let filePath := outputDir +++ "/" +++ safeTitle +++ ".md" in
  pulledAt <-- now ;;
  let frontmatter := renderFrontmatter pageID title pulledAt childPageIDs in
  let content := frontmatter +++ markdown in
  _ <-- wrapErr "failed to write file" (perform (WriteFile filePath content)) ;;
  ret (mkPullResult content filePath pageID title childPageIDs).

(** The state of the loop of [parseFrontmatterFull]. *)
Record frontmatterScan : Type := mkScan {
  scanPageID : string;
  scanChildPages : list string;
  inChildPages : bool
}.

Definition frontmatterLine (st : frontmatterScan) (line : string) : frontmatterScan :=
  if strings.HasPrefix line "notion_id:" then
    mkScan (strings.TrimSpace (strings.TrimPrefix line "notion_id:"))
      (scanChildPages st) false
  else if strings.HasPrefix line "child_pages:" then
    mkScan (scanPageID st) (scanChildPages st) true
  else if inChildPages st && strings.HasPrefix line "  - " then
    let cpID := strings.TrimSpace (strings.TrimPrefix line "  - ") in
    if negb (isEmpty cpID)
    then mkScan (scanPageID st) (scanChildPages st ++ [cpID]) (inChildPages st)
    else st
  else if negb (strings.HasPrefix line "  ") then
    mkScan (scanPageID st) (scanChildPages st) false
  else st.

Definition parseFrontmatterFull (content : string) : string * list string * string :=
  if negb (strings.HasPrefix content ("---" +++ nl)) then (EmptyString, [], content)
  else
    let endIdx := strings.Index (sliceFrom content 4) (nl +++ "---" +++ nl) in
    if endIdx =? -1 then (EmptyString, [], content)
    else
      let frontmatter := slice content 4 (4 + endIdx) in
      let markdown := sliceFrom content (4 + endIdx + 5) in
      let st := fold_left frontmatterLine (strings.Split frontmatter "010")
                  (mkScan EmptyString [] false) in
      (scanPageID st, scanChildPages st, markdown).

Definition parseFrontmatter (content : string) : string * string :=
  let '(pageID, _, markdown) := parseFrontmatterFull content in
  (pageID, markdown).

Definition PushPage (filePath : string) : io unit :=
  content <-- wrapErr "failed to read file" (readFile filePath) ;;
  let '(pageID, childPageIDs, markdown) := parseFrontmatterFull content in
  if isEmpty pageID then fail "no notion_id found in frontmatter"
  else
    let '(markdown, preservedComments) := extractCommentsSection markdown in
    let blocks := MarkdownToBlocks markdown in
    let blocks := withPreservedComments blocks preservedComments in
    _ <-- wrapErr "failed to erase page" (erasePage pageID) ;;
    _ <-- wrapErr "failed to append blocks" (appendBlocksBatched pageID blocks) ;;
    if llen childPageIDs >? 0
    then wrapErr "failed to reparent child pages" (reparentPages pageID childPageIDs)
    else ret tt.

Definition DiffPage (filePath : string) : io string :=
  localContent <-- wrapErr "failed to read file" (readFile filePath) ;;
  let '(pageID, localMarkdown) := parseFrontmatter localContent in
  if isEmpty pageID then fail "no notion_id found in frontmatter"
  else
    blocks <-- wrapErr "failed to fetch blocks" (fetchAllBlocks pageID) ;;
    let notionMarkdown := BlocksToMarkdown blocks in
    ret (diffReport filePath pageID localMarkdown notionMarkdown).

End SyncReparent.

(** ** sync.go, second revision (lines 1012-2316): a push keeps the child
    pages where they are when it can *)

Module SyncPositions.

Record PullResult : Type := mkPullResult {
  Markdown : string;
  FilePath : string;
  PageID : string;
  PullTitle : string
}.

Definition pageCommentLine (comment : Comment) : string :=
  "> **" +++ Author comment +++ "** *(" +++ CreatedAt comment +++ ")*: "
  +++ CommentContent comment +++ nl +++ nl.

Fixpoint pageCommentLines (comments : list Comment) : string :=
  match comments with
  | [] => EmptyString
  | c :: rest => pageCommentLine c +++ pageCommentLines rest
  end.

Definition PullPage (pageID outputDir : string) : io PullResult :=
  let pageID := strings.RemoveByte pageID "-" in
  title <-- SyncReparent.orDefault (getPageTitle pageID) pageID ;;
  blocks <-- wrapErr "failed to fetch blocks" (fetchAllBlocks pageID) ;;
  comments <-- SyncReparent.orDefault (fetchComments pageID) [] ;;
  let markdown := BlocksToMarkdown blocks in
  let markdown :=
    if llen comments >? 0
    then markdown +++ nl +++ "---" +++ nl +++ nl +++ "## Comments" +++ nl +++ nl
         +++ pageCommentLines comments
    else markdown in
  let outputDir := if isEmpty outputDir then "/tmp/notion" else outputDir in
  _ <-- wrapErr "failed to create output dir" (perform (MkdirAll outputDir)) ;;
  let safeTitle := sanitizeFilename title in
  let filePath := outputDir +++ "/" +++ safeTitle +++ ".md" in
  pulledAt <-- SyncReparent.now ;;
  let frontmatter := "---" +++ nl +++ "notion_id: " +++ pageID +++ nl
                     +++ "title: " +++ title +++ nl
                     +++ "pulled_at: " +++ pulledAt +++ nl +++ "---" +++ nl +++ nl in
  let content := frontmatter +++ markdown in
  _ <-- wrapErr "failed to write file" (perform (WriteFile filePath content)) ;;
  ret (mkPullResult content filePath pageID title).

(** [childPageInfo]: a child page's marker in the markdown. *)
Record childPageInfo : Type := mkChildPageInfo {
  ID : string;
  Title : string;
  Position : Z
}.

(** The anonymous struct of [currentChildPages]. *)
Record currentChildPage : Type := mkCurrentChildPage {
  cpID : string;
  cpTitle : string;
  cpPosition : Z;
  cpBlockID : string
}.

(** The loop over the frontmatter's lines stops at the first [notion_id:]. *)
Fixpoint firstNotionID (lines : list string) : string :=
  match lines with
  | [] => EmptyString
  | line :: rest =>
      if strings.HasPrefix line "notion_id:"
      then strings.TrimSpace (strings.TrimPrefix line "notion_id:")
      else firstNotionID rest
  end.

Definition parseFrontmatter (content : string) : string * string :=
  if negb (strings.HasPrefix content ("---" +++ nl)) then (EmptyString, content)
  else
    let endIdx := strings.Index (sliceFrom content 4) (nl +++ "---" +++ nl) in
    if endIdx =? -1 then (EmptyString, content)
    else
      let frontmatter := slice content 4 (4 + endIdx) in
      let markdown := sliceFrom content (4 + endIdx + 5) in
      (firstNotionID (strings.Split frontmatter "010"), markdown).

(** The id and the title of a marker line [<!-- child_page: ID | Title -->]. *)
Definition markerParts (line : string) : list string :=
  let inner := strings.TrimPrefix line "<!-- child_page:" in
  let inner := strings.TrimSuffix inner "-->" in
  let inner := strings.TrimSpace inner in
  strings.SplitN2 inner "|".

Definition markerID (line : string) : string :=
  strings.TrimSpace (nth 0 (markerParts line) EmptyString).

Definition markerTitle (line : string) : string :=
  let parts := markerParts line in
  if llen parts >? 1 then strings.TrimSpace (nth 1 parts EmptyString) else EmptyString.

Fixpoint childPageCommentsLoop (lines : list string) (blockIndex : Z)
  (result : list childPageInfo) : list childPageInfo :=
  match lines with
  | [] => result
  | line :: rest =>
      if isEmpty line then childPageCommentsLoop rest blockIndex result
      else if isChildPageMarker line then
        childPageCommentsLoop rest blockIndex
          (result ++ [mkChildPageInfo (markerID line) (markerTitle line) blockIndex])
      else childPageCommentsLoop rest (blockIndex + 1) result
  end.

Definition parseChildPageComments (markdown : string) : list childPageInfo :=
  childPageCommentsLoop (splitLines markdown) 0 [].

Definition warningParagraph (title : string) : gomap :=
  let warningText := "(child page '" +++ title +++ "' moved to end of this doc)" in
  [("object", Str "block");
   ("type", Str "paragraph");
   ("paragraph",
    MapAny [("rich_text",
             SliceMap [[("type", Str "text");
                        ("text", MapStr [("content", warningText)]);
                        ("annotations", MapAny [("italic", Bool true);
                                                ("color", Str "gray")])]])])].

Fixpoint warningMapOf (warnings : list childPageInfo)
  (warningMap : list (string * childPageInfo)) : list (string * childPageInfo) :=
  match warnings with
  | [] => warningMap
  | w :: rest => warningMapOf rest (mapSet warningMap (ID w) w)
  end.

Fixpoint warningsLoop (lines : list string) (blocks : list gomap)
  (warningMap : list (string * childPageInfo)) (blockIndex : Z) (result : list gomap)
  : list gomap :=
  match lines with
  | [] => result
  | line :: rest =>
      if isEmpty line then warningsLoop rest blocks warningMap blockIndex result
      else if isChildPageMarker line then
        match lookup warningMap (markerID line) with
        | Some w =>
            warningsLoop rest blocks warningMap blockIndex
              (result ++ [warningParagraph (Title w)])
        | None => warningsLoop rest blocks warningMap blockIndex result
        end
      else
        let result := if blockIndex <? llen blocks
                      then result ++ [nth (Z.to_nat blockIndex) blocks []]
                      else result in
        warningsLoop rest blocks warningMap (blockIndex + 1) result
  end.

Definition markdownToBlocksWithChildPageWarnings (markdown : string)
  (warnings : list childPageInfo) : list gomap :=
  let blocks := MarkdownToBlocks markdown in
  if llen warnings =? 0 then blocks
  else warningsLoop (splitLines markdown) blocks (warningMapOf warnings []) 0 [].

Fixpoint currentChildPagesLoop (blocks : list gomap) (i : Z)
  (currentChildPages : list currentChildPage) : list currentChildPage :=
  match blocks with
  | [] => currentChildPages
  | block :: rest =>
      if (blockTypeOf block =? "child_page")%string then
        let blockID := blockIDOf block in
        let title := match asMapAny (lookup block "child_page") with
                     | Some cp => asString (lookup cp "title")
                     | None => EmptyString
                     end in
        currentChildPagesLoop rest (i + 1)
          (currentChildPages ++ [mkCurrentChildPage blockID title i blockID])
      else currentChildPagesLoop rest (i + 1) currentChildPages
  end.

Definition currentChildPagesOf (currentBlocks : list gomap) : list currentChildPage :=
  currentChildPagesLoop currentBlocks 0 [].

(** [needsFallback] and [fallbackWarnings] of [PushPage] (lines 1227-1243). *)
Definition fallbackCheck (currentChildPages : list currentChildPage)
  (childPagesInMarkdown : list childPageInfo) : bool * list childPageInfo :=
  match currentChildPages with
  | first :: _ =>
      if cpPosition first =? 0 then
        match childPagesInMarkdown with
        | marker :: _ =>
            if Position marker >? 0 then (true, [marker]) else (false, [])
        | [] => (true, [])
        end
      else (false, [])
  | [] => (false, [])
  end.

Definition pushPageSimple (pageID : string) (blocks : list gomap)
  (childPages : list currentChildPage) : io unit :=
  let childPageIDs := map cpID childPages in
  _ <-- wrapErr "failed to erase page" (erasePage pageID) ;;
  _ <-- wrapErr "failed to append blocks" (appendBlocksBatched pageID blocks) ;;
  if llen childPageIDs >? 0
  then wrapErr "failed to restore child pages" (restorePages childPageIDs)
  else ret tt.

(** The anchor: the id of the first block that is no child page. *)
Fixpoint anchorOf (currentBlocks : list gomap) : string :=
  match currentBlocks with
  | [] => EmptyString
  | block :: rest =>
      if negb (blockTypeOf block =? "child_page")%string then blockIDOf block
      else anchorOf rest
  end.

Fixpoint deleteOthers (currentBlocks : list gomap) (anchorBlockID : string) : io unit :=
  match currentBlocks with
  | [] => ret tt
  | block :: rest =>
      _ <-- (if negb (blockIDOf block =? anchorBlockID)%string
                && negb (blockTypeOf block =? "child_page")%string
             then ignoreErr (deleteBlock (blockIDOf block))
             else ret tt) ;;
      deleteOthers rest anchorBlockID
  end.

Record section : Type := mkSection {
  secBlocks : list gomap;
  afterID : string
}.

Record sectioning : Type := mkSectioning {
  sections : list section;
  currentSection : section;
  blockIndex : Z;
  childPageIndex : Z
}.

Fixpoint childPageIDMapOf (currentChildPages : list currentChildPage)
  (m : list (string * string)) : list (string * string) :=
  match currentChildPages with
  | [] => m
  | cp :: rest =>
      childPageIDMapOf rest (mapSet m (strings.RemoveByte (cpID cp) "-") (cpBlockID cp))
  end.

Definition sectionStep (markdownChildPages : list childPageInfo)
  (childPageIDMap : list (string * string)) (anchorBlockID : string)
  (st : sectioning) (block : gomap) : sectioning :=
  let st :=
    if childPageIndex st <? llen markdownChildPages then
      match nth_error markdownChildPages (Z.to_nat (childPageIndex st)) with
      | Some cp =>
          if blockIndex st =? Position cp then
            let sections := if llen (secBlocks (currentSection st)) >? 0
                            then sections st ++ [currentSection st]
                            else sections st in
            let normalizedID := strings.RemoveByte (ID cp) "-" in
            let currentSection :=
              match lookup childPageIDMap normalizedID with
              | Some blockID => mkSection [] blockID
              | None => mkSection [] anchorBlockID
              end in
            mkSectioning sections currentSection (blockIndex st) (childPageIndex st + 1)
          else st
      | None => st
      end
    else st in
  mkSectioning (sections st)
    (mkSection (secBlocks (currentSection st) ++ [block]) (afterID (currentSection st)))
    (blockIndex st + 1) (childPageIndex st).

Definition sectionsOf (newBlocks : list gomap) (markdownChildPages : list childPageInfo)
  (childPageIDMap : list (string * string)) (anchorBlockID : string) : list section :=
  let st := fold_left (sectionStep markdownChildPages childPageIDMap anchorBlockID)
              newBlocks (mkSectioning [] (mkSection [] anchorBlockID) 0 0) in
  if llen (secBlocks (currentSection st)) >? 0
  then sections st ++ [currentSection st]
  else sections st.

Fixpoint insertSections (pageID : string) (secs : list section) (i : Z) : io unit :=
  match secs with
  | [] => ret tt
  | sec :: rest =>
      _ <-- wrapErr ("failed to insert section " +++ itoa i)
              (appendBlocksAfter pageID (afterID sec) (secBlocks sec)) ;;
      insertSections pageID rest (i + 1)
  end.

Definition pushPagePreservePositions (pageID : string) (newBlocks : list gomap)
  (currentBlocks : list gomap) (currentChildPages : list currentChildPage)
  (markdownChildPages : list childPageInfo) : io unit :=
  let anchorBlockID := anchorOf currentBlocks in
  if isEmpty anchorBlockID then pushPageSimple pageID newBlocks currentChildPages
  else
    _ <-- wrapErr "failed to update anchor" (updateBlockToEmptyParagraph anchorBlockID) ;;
    _ <-- deleteOthers currentBlocks anchorBlockID ;;
    let childPageIDMap := childPageIDMapOf currentChildPages [] in
    let secs := sectionsOf newBlocks markdownChildPages childPageIDMap anchorBlockID in
    _ <-- insertSections pageID secs 0 ;;
    ignoreErr (deleteBlock anchorBlockID).

Definition PushPage (filePath : string) : io unit :=
  content <-- wrapErr "failed to read file" (readFile filePath) ;;
  let '(pageID, markdown) := parseFrontmatter content in
  if isEmpty pageID then fail "no notion_id found in frontmatter"
  else
    let '(markdown, preservedComments) := extractCommentsSection markdown in
    let childPagesInMarkdown := parseChildPageComments markdown in
    currentBlocks <-- wrapErr "failed to fetch current blocks" (fetchAllBlocks pageID) ;;
    let currentChildPages := currentChildPagesOf currentBlocks in
    let '(needsFallback, fallbackWarnings) :=
      fallbackCheck currentChildPages childPagesInMarkdown in
    let blocks := markdownToBlocksWithChildPageWarnings markdown fallbackWarnings in
    let blocks := withPreservedComments blocks preservedComments in
    if needsFallback || (llen currentChildPages =? 0)
    then pushPageSimple pageID blocks currentChildPages
    else pushPagePreservePositions pageID blocks currentBlocks currentChildPages
           childPagesInMarkdown.

Definition DiffPage (filePath : string) : io string :=
  localContent <-- wrapErr "failed to read file" (readFile filePath) ;;
  let '(pageID, localMarkdown) := parseFrontmatter localContent in
  if isEmpty pageID then fail "no notion_id found in frontmatter"
  else
    blocks <-- wrapErr "failed to fetch blocks" (fetchAllBlocks pageID) ;;
    let notionMarkdown := BlocksToMarkdown blocks in
    ret (diffReport filePath pageID localMarkdown notionMarkdown).

End SyncPositions.

(** * Properties *)

(** ** Language hints of fenced code (C10) *)

(** The languages Notion accepts: the keys of [knownLanguages]. *)
Definition supportedLanguage (lang : string) : bool := lookupBool knownLanguages lang.

Lemma lookup_In {V : Type} (m : list (string * V)) (k : string) (v : V) :
  lookup m k = Some v -> In (k, v) m.
Proof.
  induction m as [|[k' v'] m IH]; simpl; [discriminate|].
  destruct (String.eqb_spec k' k) as [->|_].
  - intros [= ->]. now left.
  - intros H. right. now apply IH.
Qed.

Lemma languageMap_targets_supported :
  Forall (fun kv => supportedLanguage (snd kv) = true) languageMap.
Proof. repeat constructor. Qed.

Lemma mapNormalisedLanguage_supported (lang : string) :
  supportedLanguage (mapNormalisedLanguage lang) = true.
Proof.
  unfold mapNormalisedLanguage.
  destruct (isEmpty lang); [reflexivity|].
  destruct (lookup languageMap lang) as [mapped|] eqn:E.
  - apply lookup_In in E.
    pose proof languageMap_targets_supported as F.
    rewrite Forall_forall in F. exact (F _ E).
  - destruct (lookupBool knownLanguages lang) eqn:K; [exact K | reflexivity].
Qed.

Lemma mapLanguageToNotion_supported (lang : string) :
  supportedLanguage (mapLanguageToNotion lang) = true.
Proof. apply mapNormalisedLanguage_supported. Qed.

(** The language of every code block is a supported one: an invariant of
    the accumulator of [markdownLoop]. *)
Definition codeLanguageSupported (b : gomap) : Prop :=
  blockTypeOf b = "code" -> supportedLanguage (codeLanguage b) = true.

Lemma Forall_snoc {A : Type} (P : A -> Prop) (l : list A) (x : A) :
  Forall P l -> P x -> Forall P (l ++ [x]).
Proof. intros. apply Forall_app. split; [assumption | now constructor]. Qed.

Lemma textBlock_not_code (t : string) (rt : list gomap) :
  t <> "code" -> codeLanguageSupported (textBlock t rt).
Proof.
  intros Ht Hc. unfold blockTypeOf, textBlock in Hc. simpl in Hc. contradiction.
Qed.

Lemma parseMarkdownTable_not_code (rows : list string) (b : gomap) :
  parseMarkdownTable rows = Some b -> codeLanguageSupported b.
Proof.
  unfold parseMarkdownTable.
  destruct (llen rows <? 2); [discriminate|].
  destruct (dataRowsOf rows []); [discriminate|].
  intros [= <-] Hc. discriminate Hc.
Qed.

Lemma markdownLoop_codeLanguage (n : nat) (lines : list string) :
  forall (i : Z) (blocks : list gomap),
    Forall codeLanguageSupported blocks ->
    Forall codeLanguageSupported (markdownLoop n lines i blocks).
Proof.
  induction n as [|n IH]; intros i blocks Hb; simpl; [assumption|].
  destruct (i <? llen lines); [|assumption].
  repeat match goal with
  | |- Forall _ (if ?c then _ else _) => destruct c
  | |- Forall _ (let '(_, _) := ?p in _) => destruct p
  | |- Forall _ (match parseMarkdownTable ?r with _ => _ end) =>
      let E := fresh "E" in destruct (parseMarkdownTable r) eqn:E
  end;
  try (apply IH; try assumption; apply Forall_snoc; try assumption;
       first [ apply textBlock_not_code; discriminate
             | intros Hc; discriminate Hc
             | eapply parseMarkdownTable_not_code; eassumption
             | idtac ]).
  intros _. unfold codeLanguage, codeBlock. simpl.
  apply mapLanguageToNotion_supported.
Qed.

(** C10.  Every language hint is mapped to a language of Notion's fixed
    set, by [mapLanguageToNotion] and so in every code block that
    [MarkdownToBlocks] produces; the empty hint and a hint that is neither
    an alias nor a known language give [plain text]; the aliases [js], [py]
    and [bash] give their canonical names; the match is on the hint
    trimmed and lowered.  The second conjunct is on the hint after
    normalisation, whatever the normalisation did to it. *)
Theorem language_always_supported :
  (forall lang, supportedLanguage (mapLanguageToNotion lang) = true)
  /\ (forall normalised, supportedLanguage (mapNormalisedLanguage normalised) = true)
  /\ (forall markdown b,
        In b (MarkdownToBlocks markdown) -> blockTypeOf b = "code" ->
        supportedLanguage (codeLanguage b) = true)
  /\ mapLanguageToNotion EmptyString = "plain text"
  /\ (forall lang,
        lookup languageMap (strings.ToLower (strings.TrimSpace lang)) = None ->
        supportedLanguage (strings.ToLower (strings.TrimSpace lang)) = false ->
        mapLanguageToNotion lang = "plain text")
  /\ mapLanguageToNotion "js" = "javascript"
  /\ mapLanguageToNotion "py" = "python"
  /\ mapLanguageToNotion "bash" = "shell"
  /\ mapLanguageToNotion ("  PyThOn " +++ tab) = "python"
  /\ mapLanguageToNotion " JS" = "javascript"
  /\ mapLanguageToNotion "brainfuck" = "plain text"
  /\ (forall a b,
        strings.ToLower (strings.TrimSpace a) = strings.ToLower (strings.TrimSpace b) ->
        mapLanguageToNotion a = mapLanguageToNotion b).
Proof.
  split; [exact mapLanguageToNotion_supported|].
  split; [exact mapNormalisedLanguage_supported|].
  split.
  { intros markdown b Hin.
    pose proof (markdownLoop_codeLanguage (List.length (splitLines markdown))
                  (splitLines markdown) 0 [] (Forall_nil _)) as F.
    rewrite Forall_forall in F. exact (F b Hin). }
  split; [reflexivity|].
  split.
  { intros lang Hm Hk. unfold mapLanguageToNotion, mapNormalisedLanguage.
    destruct (isEmpty _); [reflexivity|].
    rewrite Hm. unfold supportedLanguage in Hk. now rewrite Hk. }
  repeat (split; [reflexivity|]).
  intros a b H. unfold mapLanguageToNotion. now rewrite H.
Qed.

(** ** Tables (C6) *)

(** The width and the rows of cells of a table block as [parseMarkdownTable]
    builds it. *)
Definition tableWidthOf (b : gomap) : option Z :=
  match asMapAny (lookup b "table") with
  | Some t => match lookup t "table_width" with
              | Some (Int n) => Some n
              | _ => None
              end
  | None => None
  end.

Definition rowCells (row : gomap) : list (list gomap) :=
  match asMapAny (lookup row "table_row") with
  | Some r => match lookup r "cells" with
              | Some (SliceSliceMap cells) => cells
              | _ => []
              end
  | None => []
  end.

Definition tableRowCells (b : gomap) : list (list (list gomap)) :=
  match asMapAny (lookup b "table") with
  | Some t => match asSliceMap (lookup t "children") with
              | Some children => map rowCells children
              | None => []
              end
  | None => []
  end.

(** A row cut or filled with empty cells to the width of the table. *)
Definition fitCells (tableWidth : nat) (cells : list string) : list string :=
  firstn tableWidth (cells ++ repeat EmptyString (tableWidth - List.length cells)).

Definition nonSeparator (row : string) : bool := negb (isSeparator row).

Lemma SplitByte_nonempty (sep : ascii) (s cur : string) :
  strings.SplitByte sep s cur <> [].
Proof.
  revert cur. induction s as [|c r IH]; intros cur; simpl; [discriminate|].
  destruct (Ascii.eqb c sep); [discriminate | apply IH].
Qed.

Lemma parseCells_nonempty (row : string) : parseCells row <> [].
Proof.
  unfold parseCells, strings.Split. intros H. apply map_eq_nil in H.
  exact (SplitByte_nonempty _ _ _ H).
Qed.

Lemma llen_pos {A : Type} (l : list A) : l <> [] -> (llen l >? 0) = true.
Proof.
  destruct l; [contradiction|]. intros _. unfold llen.
  rewrite Z.gtb_ltb. apply Z.ltb_lt. simpl List.length. lia.
Qed.

Lemma dataRowsOf_filter (rows : list string) (acc : list (list string)) :
  dataRowsOf rows acc = acc ++ map parseCells (filter nonSeparator rows).
Proof.
  revert acc. induction rows as [|row rows IH]; intros acc; simpl.
  - now rewrite app_nil_r.
  - unfold nonSeparator at 1. destruct (isSeparator row); simpl.
    + apply IH.
    + rewrite (llen_pos _ (parseCells_nonempty row)). rewrite IH.
      now rewrite <- app_assoc.
Qed.

Lemma padCells_repeat (tableWidth : Z) (n : nat) (cells : list string) :
  (Z.to_nat tableWidth - List.length cells <= n)%nat ->
  padCells n cells tableWidth
  = cells ++ repeat EmptyString (Z.to_nat tableWidth - List.length cells).
Proof.
  revert cells. induction n as [|n IH]; intros cells Hn; simpl.
  - replace (Z.to_nat tableWidth - List.length cells)%nat with O by lia.
    simpl. now rewrite app_nil_r.
  - unfold llen. destruct (Z.ltb_spec (Z.of_nat (List.length cells)) tableWidth).
    + rewrite IH by (rewrite length_app; simpl; lia).
      rewrite length_app. simpl.
      replace (Z.to_nat tableWidth - List.length cells)%nat
        with (S (Z.to_nat tableWidth - (List.length cells + 1)))%nat by lia.
      simpl. now rewrite <- app_assoc.
    + replace (Z.to_nat tableWidth - List.length cells)%nat with O by lia.
      simpl. now rewrite app_nil_r.
Qed.

Lemma rowCells_tableRowOf (cells : list string) (tableWidth : Z) :
  rowCells (tableRowOf cells tableWidth)
  = map parseInlineMarkdown (fitCells (Z.to_nat tableWidth) cells).
Proof.
  unfold tableRowOf, rowCells, tableRowBlock, fitCells. simpl.
  now rewrite padCells_repeat by lia.
Qed.


(** What a table block is, in terms of the lines it was read from. *)
Lemma parseMarkdownTable_rows (rows : list string) (b : gomap) :
  parseMarkdownTable rows = Some b ->
  exists first others,
    filter nonSeparator rows = first :: others
    /\ blockTypeOf b = "table"
    /\ tableWidthOf b = Some (llen (parseCells first))
    /\ tableRowCells b
       = map (fun row => map parseInlineMarkdown
                           (fitCells (List.length (parseCells first)) (parseCells row)))
           (first :: others).
Proof.
  unfold parseMarkdownTable.
  destruct (llen rows <? 2); [discriminate|].
  rewrite dataRowsOf_filter. simpl.
  destruct (filter nonSeparator rows) as [|first others]; [discriminate|].
  simpl. intros [= <-]. exists first, others.
  split; [reflexivity|]. split; [reflexivity|]. split; [reflexivity|].
  unfold tableRowCells. simpl. f_equal.
  - rewrite rowCells_tableRowOf. unfold llen. now rewrite Nat2Z.id.
  - rewrite !map_map. apply map_ext. intros row.
    rewrite rowCells_tableRowOf. unfold llen. now rewrite Nat2Z.id.
Qed.






(** ** Ordinals of numbered items (C5) *)

Definition numbered : string := "numbered_list_item".

(** The encoder after a prefix of the blocks. *)
Definition encodeAll (trailingChildPages : list (string * bool)) (blocks : list gomap)
  : encoder :=
  fold_left (encodeBlock trailingChildPages) blocks (mkEncoder EmptyString 1 EmptyString).

Lemma encodeAll_snoc (tr : list (string * bool)) (pre : list gomap) (b : gomap) :
  encodeAll tr (pre ++ [b]) = encodeBlock tr (encodeAll tr pre) b.
Proof. unfold encodeAll. now rewrite fold_left_app. Qed.

Lemma isEmpty_false (s : string) : s <> EmptyString -> isEmpty s = false.
Proof. intros H. unfold isEmpty. now apply String.eqb_neq. Qed.

(** After a block that is no numbered item the counter is 1, unless it was
    not counting. *)
Lemma encodeBlock_listNum_other (tr : list (string * bool)) (e : encoder) (b : gomap) :
  blockTypeOf b <> EmptyString -> blockTypeOf b <> numbered ->
  listNum (encodeBlock tr e b)
  = if (lastType e =? numbered)%string then 1 else listNum e.
Proof.
  intros Hne Hnn. unfold encodeBlock. fold (blockTypeOf b).
  rewrite (isEmpty_false _ Hne).
  apply String.eqb_neq in Hnn. unfold numbered in *. rewrite Hnn. simpl negb.
  repeat match goal with
  | |- listNum (if ?c then _ else _) = _ => destruct c
  | |- listNum (match ?c with _ => _ end) = _ => destruct c
  end; reflexivity.
Qed.

Lemma encodeBlock_numbered (tr : list (string * bool)) (e : encoder) (b : gomap) :
  blockTypeOf b = numbered ->
  encodeBlock tr e b
  = mkEncoder (result e +++ (itoa (listNum e) +++ ". " +++ extractBlockText b numbered +++ nl)
                 +++ formatBlockComments b)
      (listNum e + 1) numbered.
Proof.
  intros Hn. unfold encodeBlock. fold (blockTypeOf b). rewrite Hn.
  reflexivity.
Qed.

(** The counter is 1 whenever the encoder is not in a run of numbered
    items. *)
Definition counterReset (e : encoder) : Prop :=
  lastType e <> numbered -> listNum e = 1.

Lemma encodeBlock_lastType (tr : list (string * bool)) (e : encoder) (b : gomap) :
  lastType (encodeBlock tr e b) = blockTypeOf b
  \/ (lastType (encodeBlock tr e b) = lastType e
      /\ (blockTypeOf b = EmptyString \/ blockTypeOf b = "child_page")).
Proof.
  unfold encodeBlock. fold (blockTypeOf b).
  destruct (isEmpty (blockTypeOf b)) eqn:E.
  - right. split; [reflexivity|]. left. now apply String.eqb_eq in E.
  - repeat match goal with
    | |- context [if (blockTypeOf b =? ?s)%string then _ else _] =>
        let Q := fresh "Q" in
        destruct (String.eqb_spec (blockTypeOf b) s) as [Q|Q]
    end;
    repeat match goal with
    | |- lastType (if ?c then _ else _) = _ \/ _ => destruct c
    | |- lastType (match ?c with _ => _ end) = _ \/ _ => destruct c
    end;
    first [ now left | right; split; [reflexivity | now right] ].
Qed.

Lemma encodeBlock_counterReset (tr : list (string * bool)) (e : encoder) (b : gomap) :
  counterReset e -> counterReset (encodeBlock tr e b).
Proof.
  intros He.
  destruct (String.eqb_spec (blockTypeOf b) EmptyString) as [E|E].
  - unfold encodeBlock. fold (blockTypeOf b). rewrite E. exact He.
  - destruct (String.eqb_spec (blockTypeOf b) numbered) as [N|N].
    + rewrite (encodeBlock_numbered _ _ _ N). intros H. now contradiction H.
    + intros _. rewrite (encodeBlock_listNum_other _ _ _ E N).
      destruct (String.eqb_spec (lastType e) numbered) as [L|L];
        [reflexivity | exact (He L)].
Qed.

Lemma encodeAll_counterReset (tr : list (string * bool)) (blocks : list gomap) :
  counterReset (encodeAll tr blocks).
Proof.
  unfold encodeAll.
  assert (G : forall e, counterReset e ->
                        counterReset (fold_left (encodeBlock tr) blocks e)).
  { induction blocks as [|b blocks IH]; intros e He; simpl; [exact He|].
    apply IH. now apply encodeBlock_counterReset. }
  apply G. intros _. reflexivity.
Qed.

Definition numberedExample : string :=
  "1. a" +++ nl +++ "2. b" +++ nl +++ "- c" +++ nl +++ "1. d".

(** C5.  The four lines of the example decode to two numbered items, a
    bullet and a numbered item, and their encoding numbers them 1, 2 and,
    after the bullet, 1 again; the numbers written in the markup are not
    kept by the decoder (lines numbered 7, 9 and 4 are encoded the same).
    In general the encoder starts at 1, writes its counter before a
    numbered item and adds one, and has its counter back at 1 after every
    block that is no numbered item. *)
Theorem numbered_ordinals_restart :
  BlocksToMarkdown (jsonBlocks (MarkdownToBlocks numberedExample))
  = "1. a" +++ nl +++ "2. b" +++ nl +++ "- c" +++ nl +++ "1. d" +++ nl
  /\ map blockTypeOf (MarkdownToBlocks numberedExample)
     = [numbered; numbered; "bulleted_list_item"; numbered]
  /\ BlocksToMarkdown
       (jsonBlocks (MarkdownToBlocks
                      ("7. a" +++ nl +++ "9. b" +++ nl +++ "- c" +++ nl +++ "4. d")))
     = "1. a" +++ nl +++ "2. b" +++ nl +++ "- c" +++ nl +++ "1. d" +++ nl
  /\ (forall tr, listNum (encodeAll tr []) = 1)
  /\ (forall tr pre item,
        blockTypeOf item = numbered ->
        result (encodeAll tr (pre ++ [item]))
        = result (encodeAll tr pre)
          +++ (itoa (listNum (encodeAll tr pre)) +++ ". "
               +++ extractBlockText item numbered +++ nl)
          +++ formatBlockComments item
        /\ listNum (encodeAll tr (pre ++ [item])) = listNum (encodeAll tr pre) + 1)
  /\ (forall tr pre other,
        blockTypeOf other <> EmptyString -> blockTypeOf other <> numbered ->
        listNum (encodeAll tr (pre ++ [other])) = 1).
Proof.
  split; [vm_compute; reflexivity|].
  split; [vm_compute; reflexivity|].
  split; [vm_compute; reflexivity|].
  split; [reflexivity|].
  split.
  - intros tr pre item Hn. rewrite encodeAll_snoc.
    rewrite (encodeBlock_numbered _ _ _ Hn). now split.
  - intros tr pre other He Hn. rewrite encodeAll_snoc.
    rewrite (encodeBlock_listNum_other _ _ _ He Hn).
    pose proof (encodeAll_counterReset tr pre) as R.
    destruct (String.eqb_spec (lastType (encodeAll tr pre)) numbered) as [L|L];
      [reflexivity | exact (R L)].
Qed.

(** ** Strings: concatenation, reversal, pieces *)

Lemma append_nil_r (s : string) : s +++ EmptyString = s.
Proof. induction s; simpl; congruence. Qed.

Lemma append_assoc (a b c : string) : (a +++ b) +++ c = a +++ (b +++ c).
Proof. induction a; simpl; congruence. Qed.

Lemma length_append (a b : string) :
  String.length (a +++ b) = (String.length a + String.length b)%nat.
Proof. induction a; simpl; congruence. Qed.

Lemma append_eq_nil (a b : string) : a +++ b = EmptyString -> a = EmptyString /\ b = EmptyString.
Proof. destruct a; simpl; [auto | discriminate]. Qed.

Lemma append_inv_head (a b c : string) : a +++ b = a +++ c -> b = c.
Proof. induction a; simpl; [auto | intros [= H]; auto]. Qed.

Lemma revOnto_append (s acc : string) : revOnto s acc = rev s +++ acc.
Proof.
  unfold rev. revert acc. induction s as [|c r IH]; intros acc; simpl; [reflexivity|].
  rewrite (IH (String c acc)), (IH (String c EmptyString)).
  now rewrite append_assoc.
Qed.

Lemma rev_String (c : ascii) (s : string) : rev (String c s) = rev s +++ String c EmptyString.
Proof. unfold rev at 1. simpl. apply revOnto_append. Qed.

Lemma rev_append (a b : string) : rev (a +++ b) = rev b +++ rev a.
Proof.
  induction a as [|c a IH]; simpl.
  - now rewrite append_nil_r.
  - now rewrite !rev_String, IH, append_assoc.
Qed.

Lemma rev_involutive (s : string) : rev (rev s) = s.
Proof.
  induction s as [|c s IH]; [reflexivity|].
  rewrite rev_String, rev_append, IH. reflexivity.
Qed.

Lemma rev_length (s : string) : String.length (rev s) = String.length s.
Proof.
  induction s as [|c s IH]; [reflexivity|].
  rewrite rev_String, length_append, IH. simpl. lia.
Qed.


Lemma Join_cons2 (x y : string) (rest : list string) (sep : string) :
  strings.Join (x :: y :: rest) sep = x +++ sep +++ strings.Join (y :: rest) sep.
Proof. reflexivity. Qed.





(** ** White space *)

(** What is left of a scan for white space does not start with an ASCII
    white-space byte. *)
Definition noLeadingAsciiSpace (s : string) : Prop :=
  match s with
  | EmptyString => True
  | String c _ => strings.asciiSpace c = false
  end.


Lemma TrimLeftSpace_head (n : nat) :
  forall s, (String.length s <= n)%nat ->
            noLeadingAsciiSpace (strings.TrimLeftSpace s).
Proof.
  induction n as [|n IH]; intros s Hl.
  - destruct s; [exact I | simpl in Hl; lia].
  - destruct s as [|a r1]; [exact I|]. simpl in Hl. simpl.
    destruct (strings.asciiSpace a) eqn:Ea; [apply IH; lia|].
    destruct r1 as [|b r2]; [exact Ea|]. simpl in Hl.
    destruct (strings.space2 a b); [apply IH; lia|].
    destruct r2 as [|c r3]; [exact Ea|]. simpl in Hl.
    destruct (strings.space3 a b c); [apply IH; lia | exact Ea].
Qed.


(** ** The diff (C3) *)













(** Concatenations brought to one shape: bytes in front, nested to the
    right. *)
Ltac str_norm :=
  repeat first [ rewrite !append_assoc
               | rewrite !append_nil_r
               | progress (cbn [String.append nl tab]) ].

(** ** Slices of a concatenation *)


Lemma take_append (a b : string) : take (String.length a) (a +++ b) = a.
Proof. induction a; simpl; congruence. Qed.

Lemma take_all (a : string) : take (String.length a) a = a.
Proof. induction a; simpl; congruence. Qed.



Lemma len_append (a b : string) : len (a +++ b) = len a + len b.
Proof. unfold len. rewrite length_append. lia. Qed.

Lemma len_nonneg (a : string) : 0 <= len a.
Proof. unfold len. lia. Qed.

(** ** Lines *)

(** No newline byte in the string. *)
Fixpoint oneLine (s : string) : bool :=
  match s with
  | EmptyString => true
  | String c r => negb (Ascii.eqb c "010") && oneLine r
  end.





(** ** The frontmatter (C7) *)

Definition fence : string := nl +++ "---" +++ nl.




















(** ** A file without a page id (C8) *)

Definition noNotionID : string := "no notion_id found in frontmatter".

Lemma readFile_run (w : answers) (trace : list call) (filePath content : string) :
  w trace (ReadFile filePath) = Text content ->
  wrapErr "failed to read file" (readFile filePath) w trace
  = (Ok content, trace ++ [ReadFile filePath]).
Proof.
  intros H. unfold wrapErr, readFile, ioBind, request. now rewrite H.
Qed.

Lemma fetchAllBlocks_run (w : answers) (trace : list call) (prefix blockID : string)
  (blocks : list gomap) :
  w trace (FetchAllBlocks blockID) = BlockList blocks ->
  wrapErr prefix (fetchAllBlocks blockID) w trace
  = (Ok blocks, trace ++ [FetchAllBlocks blockID]).
Proof.
  intros H. unfold wrapErr, fetchAllBlocks, ioBind, request. now rewrite H.
Qed.

Lemma isEmpty_true (s : string) : s = EmptyString -> isEmpty s = true.
Proof. now intros ->. Qed.

Lemma push_reparent_without_id (w : answers) (trace : list call) (filePath content : string) :
  w trace (ReadFile filePath) = Text content ->
  fst (SyncReparent.parseFrontmatter content) = EmptyString ->
  SyncReparent.PushPage filePath w trace = (Err noNotionID, trace ++ [ReadFile filePath]).
Proof.
  intros Hr Hid. unfold SyncReparent.PushPage, ioBind.
  rewrite (readFile_run _ _ _ _ Hr).
  unfold SyncReparent.parseFrontmatter in Hid.
  destruct (SyncReparent.parseFrontmatterFull content) as [[pageID cps] md].
  simpl in Hid. subst pageID. reflexivity.
Qed.

Lemma diff_reparent_without_id (w : answers) (trace : list call) (filePath content : string) :
  w trace (ReadFile filePath) = Text content ->
  fst (SyncReparent.parseFrontmatter content) = EmptyString ->
  SyncReparent.DiffPage filePath w trace = (Err noNotionID, trace ++ [ReadFile filePath]).
Proof.
  intros Hr Hid. unfold SyncReparent.DiffPage, ioBind.
  rewrite (readFile_run _ _ _ _ Hr).
  destruct (SyncReparent.parseFrontmatter content) as [pageID md].
  simpl in Hid. subst pageID. reflexivity.
Qed.

Lemma push_positions_without_id (w : answers) (trace : list call) (filePath content : string) :
  w trace (ReadFile filePath) = Text content ->
  fst (SyncPositions.parseFrontmatter content) = EmptyString ->
  SyncPositions.PushPage filePath w trace = (Err noNotionID, trace ++ [ReadFile filePath]).
Proof.
  intros Hr Hid. unfold SyncPositions.PushPage, ioBind.
  rewrite (readFile_run _ _ _ _ Hr).
  destruct (SyncPositions.parseFrontmatter content) as [pageID md].
  simpl in Hid. subst pageID. reflexivity.
Qed.

Lemma diff_positions_without_id (w : answers) (trace : list call) (filePath content : string) :
  w trace (ReadFile filePath) = Text content ->
  fst (SyncPositions.parseFrontmatter content) = EmptyString ->
  SyncPositions.DiffPage filePath w trace = (Err noNotionID, trace ++ [ReadFile filePath]).
Proof.
  intros Hr Hid. unfold SyncPositions.DiffPage, ioBind.
  rewrite (readFile_run _ _ _ _ Hr).
  destruct (SyncPositions.parseFrontmatter content) as [pageID md].
  simpl in Hid. subst pageID. reflexivity.
Qed.

(** The three ways a file has no page id. *)
Definition headerMissing (content : string) : Prop :=
  strings.HasPrefix content ("---" +++ nl) = false.

Definition headerUnterminated (content : string) : Prop :=
  strings.HasPrefix content ("---" +++ nl) = true
  /\ strings.Index (sliceFrom content 4) fence = -1.

(** The header between the two fences. *)
Definition headerOf (content : string) : string :=
  slice content 4 (4 + strings.Index (sliceFrom content 4) fence).

Definition keyMissing (content : string) : Prop :=
  strings.HasPrefix content ("---" +++ nl) = true
  /\ strings.Index (sliceFrom content 4) fence <> -1
  /\ forallb (fun line => negb (strings.HasPrefix line "notion_id:"))
       (strings.Split (headerOf content) "010") = true.

Lemma scan_without_key (lines : list string) :
  forallb (fun line => negb (strings.HasPrefix line "notion_id:")) lines = true ->
  forall st,
    SyncReparent.scanPageID (fold_left SyncReparent.frontmatterLine lines st)
    = SyncReparent.scanPageID st.
Proof.
  induction lines as [|l lines IH]; intros H st; [reflexivity|].
  cbn [forallb] in H. apply andb_prop in H. destruct H as [Hl Hr].
  cbn [fold_left]. rewrite (IH Hr).
  unfold SyncReparent.frontmatterLine.
  apply negb_true_iff in Hl. rewrite Hl.
  repeat match goal with
  | |- SyncReparent.scanPageID (if ?c then _ else _) = _ => destruct c
  end; reflexivity.
Qed.

Lemma firstNotionID_without_key (lines : list string) :
  forallb (fun line => negb (strings.HasPrefix line "notion_id:")) lines = true ->
  SyncPositions.firstNotionID lines = EmptyString.
Proof.
  induction lines as [|l lines IH]; intros H; [reflexivity|].
  cbn [forallb] in H. apply andb_prop in H. destruct H as [Hl Hr].
  apply negb_true_iff in Hl. cbn [SyncPositions.firstNotionID]. rewrite Hl.
  now apply IH.
Qed.

Lemma no_id_cases (content : string) :
  headerMissing content \/ headerUnterminated content \/ keyMissing content ->
  fst (SyncReparent.parseFrontmatter content) = EmptyString
  /\ fst (SyncPositions.parseFrontmatter content) = EmptyString.
Proof.
  unfold headerMissing, headerUnterminated, keyMissing, headerOf,
    SyncReparent.parseFrontmatter, SyncReparent.parseFrontmatterFull,
    SyncPositions.parseFrontmatter.
  fold fence.
  intros [H | [[H1 H2] | (H1 & H2 & H3)]].
  - rewrite H. now split.
  - rewrite H1, H2. now split.
  - rewrite H1. apply Z.eqb_neq in H2. rewrite H2. cbn [negb fst].
    split; [now rewrite scan_without_key | now apply firstNotionID_without_key].
Qed.

(** C8.  When the file that is read has no page id in its frontmatter,
    [PushPage] and [DiffPage], in both revisions, return the error
    [no notion_id found in frontmatter] and the only call they have made is
    the reading of the file: nothing is fetched from the remote page and
    nothing on it is changed.  The id is missing in particular when the
    file does not start with the fence, when the fence is never closed, and
    when no line between the fences starts with the key. *)
Theorem missing_id_is_terminal
  (w : answers) (trace : list call) (filePath content : string) :
  w trace (ReadFile filePath) = Text content ->
  (fst (SyncReparent.parseFrontmatter content) = EmptyString ->
   SyncReparent.PushPage filePath w trace = (Err noNotionID, trace ++ [ReadFile filePath])
   /\ SyncReparent.DiffPage filePath w trace = (Err noNotionID, trace ++ [ReadFile filePath]))
  /\ (fst (SyncPositions.parseFrontmatter content) = EmptyString ->
      SyncPositions.PushPage filePath w trace = (Err noNotionID, trace ++ [ReadFile filePath])
      /\ SyncPositions.DiffPage filePath w trace = (Err noNotionID, trace ++ [ReadFile filePath]))
  /\ (headerMissing content \/ headerUnterminated content \/ keyMissing content ->
      fst (SyncReparent.parseFrontmatter content) = EmptyString
      /\ fst (SyncPositions.parseFrontmatter content) = EmptyString)
  /\ isRemoteCall (ReadFile filePath) = false.
Proof.
  intros Hr. split; [|split; [|split]].
  - intros H. split;
      [ now apply (push_reparent_without_id _ _ _ content)
      | now apply (diff_reparent_without_id _ _ _ content) ].
  - intros H. split;
      [ now apply (push_positions_without_id _ _ _ content)
      | now apply (diff_positions_without_id _ _ _ content) ].
  - apply no_id_cases.
  - reflexivity.
Qed.

(** A remote side that would accept every call, and three files without
    an id. *)
Definition willingRemote (content : string) : answers :=
  fun _ c =>
    match c with
    | ReadFile _ => Text content
    | FetchAllBlocks _ => BlockList []
    | _ => Succeeded
    end.

Definition fileWithoutHeader : string := "# Notes" +++ nl +++ "text" +++ nl.
Definition fileUnterminated : string :=
  "---" +++ nl +++ "notion_id: abc123" +++ nl +++ "# Notes" +++ nl.
Definition fileWithoutKey : string :=
  "---" +++ nl +++ "title: Notes" +++ nl +++ "---" +++ nl +++ nl +++ "# Notes" +++ nl.

Lemma missing_id_is_terminal_files :
  (SyncReparent.PushPage "notes.md" (willingRemote fileWithoutHeader) []
   = (Err noNotionID, [ReadFile "notes.md"])
   /\ SyncPositions.DiffPage "notes.md" (willingRemote fileWithoutHeader) []
      = (Err noNotionID, [ReadFile "notes.md"]))
  /\ (SyncPositions.PushPage "notes.md" (willingRemote fileUnterminated) []
      = (Err noNotionID, [ReadFile "notes.md"])
      /\ SyncReparent.DiffPage "notes.md" (willingRemote fileUnterminated) []
         = (Err noNotionID, [ReadFile "notes.md"]))
  /\ (SyncPositions.PushPage "notes.md" (willingRemote fileWithoutKey) []
      = (Err noNotionID, [ReadFile "notes.md"])
      /\ SyncReparent.PushPage "notes.md" (willingRemote fileWithoutKey) []
         = (Err noNotionID, [ReadFile "notes.md"])).
Proof.
  pose proof (missing_id_is_terminal (willingRemote fileWithoutHeader) [] "notes.md"
                fileWithoutHeader eq_refl) as (A1 & A2 & A3 & _).
  pose proof (missing_id_is_terminal (willingRemote fileUnterminated) [] "notes.md"
                fileUnterminated eq_refl) as (B1 & B2 & B3 & _).
  pose proof (missing_id_is_terminal (willingRemote fileWithoutKey) [] "notes.md"
                fileWithoutKey eq_refl) as (C1 & C2 & C3 & _).
  assert (HA : headerMissing fileWithoutHeader) by reflexivity.
  assert (HB : headerUnterminated fileUnterminated) by (split; reflexivity).
  assert (HC : keyMissing fileWithoutKey)
    by (split; [reflexivity | split; [discriminate | reflexivity]]).
  destruct (A3 (or_introl HA)) as [A3r A3p].
  destruct (B3 (or_intror (or_introl HB))) as [B3r B3p].
  destruct (C3 (or_intror (or_intror HC))) as [C3r C3p].
  split; [|split].
  - split; [exact (proj1 (A1 A3r)) | exact (proj2 (A2 A3p))].
  - split; [exact (proj1 (B2 B3p)) | exact (proj2 (B1 B3r))].
  - split; [exact (proj1 (C2 C3p)) | exact (proj1 (C1 C3r))].
Defined.

(** ** The choice between the two ways to push (C2) *)

Lemma childPageCommentsLoop_acc (lines : list string) :
  forall blockIndex acc,
    SyncPositions.childPageCommentsLoop lines blockIndex acc
    = acc ++ SyncPositions.childPageCommentsLoop lines blockIndex [].
Proof.
  induction lines as [|l lines IH]; intros bi acc; simpl.
  - now rewrite app_nil_r.
  - destruct (isEmpty l); [apply IH|].
    destruct (isChildPageMarker l); [|apply IH].
    rewrite IH. rewrite (IH bi [_]). now rewrite app_assoc.
Qed.

Lemma warningsLoop_keeps (lines : list string) (blocks : list gomap)
  (warningMap : list (string * SyncPositions.childPageInfo)) (x : gomap) :
  forall blockIndex acc,
    In x acc -> In x (SyncPositions.warningsLoop lines blocks warningMap blockIndex acc).
Proof.
  induction lines as [|l lines IH]; intros bi acc Hin; simpl; [exact Hin|].
  destruct (isEmpty l); [now apply IH|].
  destruct (isChildPageMarker l).
  - destruct (lookup warningMap (SyncPositions.markerID l)); apply IH;
      [apply in_or_app; now left | exact Hin].
  - apply IH. destruct (bi <? llen blocks); [apply in_or_app; now left | exact Hin].
Qed.

(** The marker that [parseChildPageComments] finds first gets its warning. *)
Lemma warningsLoop_first_marker (blocks : list gomap)
  (marker : SyncPositions.childPageInfo) (markers : list SyncPositions.childPageInfo)
  (lines : list string) :
  forall blockIndex blockIndex' acc,
    SyncPositions.childPageCommentsLoop lines blockIndex [] = marker :: markers ->
    In (SyncPositions.warningParagraph (SyncPositions.Title marker))
      (SyncPositions.warningsLoop lines blocks
         [(SyncPositions.ID marker, marker)] blockIndex' acc).
Proof.
  induction lines as [|l lines IH]; intros bi bi' acc H; simpl in *; [discriminate|].
  destruct (isEmpty l); [now apply (IH bi)|].
  destruct (isChildPageMarker l).
  - rewrite childPageCommentsLoop_acc in H. injection H as Hm _.
    subst marker. simpl. rewrite String.eqb_refl.
    apply warningsLoop_keeps. apply in_or_app. right. now left.
  - now apply (IH (bi + 1)).
Qed.

Lemma currentChildPagesLoop_acc (blocks : list gomap) :
  forall i acc,
    SyncPositions.currentChildPagesLoop blocks i acc
    = acc ++ SyncPositions.currentChildPagesLoop blocks i [].
Proof.
  induction blocks as [|b blocks IH]; intros i acc; simpl.
  - now rewrite app_nil_r.
  - destruct (blockTypeOf b =? "child_page")%string; [|apply IH].
    rewrite IH. rewrite (IH (i + 1) [_]). now rewrite app_assoc.
Qed.

Lemma withPreservedComments_keeps (blocks : list gomap) (comments : string) (x : gomap) :
  In x blocks -> In x (withPreservedComments blocks comments).
Proof.
  intros H. unfold withPreservedComments. destruct (negb (isEmpty comments)); [|exact H].
  apply in_or_app. left. apply in_or_app. now left.
Qed.

(** When the first block of the remote page is a child page and the first
    marker of the markdown has ordinary lines before it, [PushPage] goes
    on with [pushPageSimple], and the blocks it sends hold the warning
    with the title written in that marker. *)
Lemma push_first_marker_fallback
  (w : answers) (trace : list call) (filePath content pageID markdown : string)
  (first : gomap) (rest : list gomap)
  (marker : SyncPositions.childPageInfo) (markers : list SyncPositions.childPageInfo) :
  w trace (ReadFile filePath) = Text content ->
  SyncPositions.parseFrontmatter content = (pageID, markdown) ->
  pageID <> EmptyString ->
  w (trace ++ [ReadFile filePath]) (FetchAllBlocks pageID) = BlockList (first :: rest) ->
  blockTypeOf first = "child_page" ->
  SyncPositions.parseChildPageComments (fst (extractCommentsSection markdown))
  = marker :: markers ->
  SyncPositions.Position marker > 0 ->
  exists blocks,
    In (SyncPositions.warningParagraph (SyncPositions.Title marker)) blocks
    /\ SyncPositions.PushPage filePath w trace
       = SyncPositions.pushPageSimple pageID blocks
           (SyncPositions.currentChildPagesOf (first :: rest)) w
           ((trace ++ [ReadFile filePath]) ++ [FetchAllBlocks pageID]).
Proof.
  intros Hr Hp Hid Hf Hfirst Hm Hpos.
  unfold SyncPositions.PushPage, ioBind.
  rewrite (readFile_run _ _ _ _ Hr), Hp, (isEmpty_false _ Hid).
  destruct (extractCommentsSection markdown) as [md preserved] eqn:Ec.
  simpl fst in Hm.
  rewrite (fetchAllBlocks_run _ _ _ _ _ Hf).
  unfold SyncPositions.currentChildPagesOf.
  cbn [SyncPositions.currentChildPagesLoop]. rewrite Hfirst. cbn [String.eqb Ascii.eqb Bool.eqb].
  rewrite currentChildPagesLoop_acc. cbn [app].
  unfold SyncPositions.fallbackCheck. cbn [SyncPositions.cpPosition Z.eqb].
  rewrite Hm.
  assert (Hgt : (SyncPositions.Position marker >? 0) = true)
    by (rewrite Z.gtb_ltb; apply Z.ltb_lt; lia).
  rewrite Hgt. cbn [orb].
  eexists. split; [|reflexivity].
  apply withPreservedComments_keeps.
  unfold SyncPositions.markdownToBlocksWithChildPageWarnings. cbn [llen List.length Z.of_nat Z.eqb].
  change (SyncPositions.warningMapOf [marker] [])
    with [(SyncPositions.ID marker, marker)].
  unfold SyncPositions.parseChildPageComments in Hm.
  exact (warningsLoop_first_marker _ _ _ _ _ _ _ Hm).
Qed.

(** A remote page [Alpha, a paragraph, Beta] and a local file that has the
    marker of Beta first, then a line of text, then the marker of Alpha:
    the text stands before the marker of the child page that is first on
    the remote page. *)
Definition childPageBlock (id title : string) : gomap :=
  [("object", Str "block"); ("id", Str id); ("type", Str "child_page");
   ("child_page", MapAny [("title", Str title)])].

Definition remoteParagraph (id text : string) : gomap :=
  [("object", Str "block"); ("id", Str id); ("type", Str "paragraph");
   ("paragraph",
    MapAny [("rich_text",
             SliceAny [MapAny [("type", Str "text");
                               ("text", MapAny [("content", Str text)]);
                               ("plain_text", Str text)]])])].

Definition reorderedRemote : list gomap :=
  [childPageBlock "a" "Alpha"; remoteParagraph "p" "old"; childPageBlock "b" "Beta"].

Definition reorderedBody : string :=
  "<!-- child_page: b | Beta -->" +++ nl +++ "intro" +++ nl
  +++ "<!-- child_page: a | Alpha -->" +++ nl.

Definition reorderedFile : string :=
  "---" +++ nl +++ "notion_id: page1" +++ nl +++ "---" +++ nl +++ nl +++ reorderedBody.

Definition reorderedAnswers : answers :=
  fun _ c =>
    match c with
    | ReadFile _ => Text reorderedFile
    | FetchAllBlocks _ => BlockList reorderedRemote
    | _ => Succeeded
    end.

(** C2.  On this input the remote page starts with the child page Alpha
    and the markdown has a line of text before the marker of Alpha, and
    [PushPage] does not fall back: it keeps the positions (the anchor is
    emptied, the text is inserted after Beta, the anchor is deleted), it
    never erases the page, and no block it sends is a warning.  The check
    of [PushPage] looks at the first marker of the markdown, whichever
    child page it names. *)
Theorem push_reordered_markers_keeps_positions :
  map blockTypeOf reorderedRemote = ["child_page"; "paragraph"; "child_page"]
  /\ SyncPositions.parseChildPageComments (nl +++ reorderedBody)
     = [SyncPositions.mkChildPageInfo "b" "Beta" 0;
        SyncPositions.mkChildPageInfo "a" "Alpha" 1]
  /\ SyncPositions.PushPage "doc.md" reorderedAnswers []
     = (Ok tt,
        [ReadFile "doc.md";
         FetchAllBlocks "page1";
         UpdateToEmptyParagraph "p";
         AppendChildren "page1" (Some "b") [textBlock "paragraph" [plainSpan "intro"]];
         DeleteBlock "p"]).
Proof. repeat split; vm_compute; reflexivity. Qed.

(** The same file against a remote page whose markers are in the order of
    the file: the push falls back and warns. *)
Example push_first_marker_fallback_example :
  SyncPositions.PushPage "doc.md"
    (fun _ c =>
       match c with
       | ReadFile _ =>
           Text ("---" +++ nl +++ "notion_id: page1" +++ nl +++ "---" +++ nl +++ nl
                 +++ "intro" +++ nl +++ "<!-- child_page: a | Alpha -->" +++ nl)
       | FetchAllBlocks _ => BlockList [childPageBlock "a" "Alpha"; remoteParagraph "p" "old"]
       | _ => Succeeded
       end) []
  = (Ok tt,
     [ReadFile "doc.md";
      FetchAllBlocks "page1";
      ErasePage "page1";
      AppendChildren "page1" None
        [textBlock "paragraph" [plainSpan "intro"];
         SyncPositions.warningParagraph "Alpha"];
      RestorePage "a"]).
Proof. vm_compute. reflexivity. Qed.

(** ** Trailing child pages on pull (C9) *)

Definition isChildPage (b : gomap) : bool := (blockTypeOf b =? "child_page")%string.

Lemma lookupBool_mapSet (m : list (string * bool)) (k k' : string) :
  lookupBool (mapSet m k true) k' = (k =? k')%string || lookupBool m k'.
Proof.
  unfold lookupBool. induction m as [|[x v] m IH]; simpl.
  - destruct (k =? k')%string; reflexivity.
  - destruct (String.eqb_spec x k) as [->|Hxk]; simpl.
    + destruct (k =? k')%string; reflexivity.
    + destruct (String.eqb_spec x k') as [->|Hxk'].
      * destruct (String.eqb_spec k k') as [->|_]; [contradiction | reflexivity].
      * exact IH.
Qed.

(** The index of the last block that is no child page, from [i] on. *)
Lemma lastNonChildPageIdx_spec (blocks : list gomap) :
  forall i last,
    last < i ->
    let L := SyncReparent.lastNonChildPageIdxLoop blocks i last in
    (forallb isChildPage blocks = true -> L = last)
    /\ (forallb isChildPage blocks = false -> i <= L)
    /\ forall pre b post,
         blocks = pre ++ b :: post ->
         (i + llen pre > L <-> forallb isChildPage (b :: post) = true).
Proof.
  induction blocks as [|x xs IH]; intros i last Hlt; cbn zeta.
  - split; [reflexivity|]. split; [discriminate|].
    intros pre b post H. now destruct pre.
  - cbn [SyncReparent.lastNonChildPageIdxLoop forallb].
    fold (isChildPage x).
    destruct (isChildPage x) eqn:Ex; cbn [negb andb].
    + destruct (IH (i + 1) last ltac:(lia)) as (A & B & C).
      split; [exact A|]. split; [intros H; specialize (B H); lia|].
      intros pre b post H. destruct pre as [|p pre].
      * cbn [app] in H. injection H as Hb Hxs. subst b post.
        cbn [forallb]. rewrite Ex. cbn [andb]. unfold llen. cbn [List.length Z.of_nat].
        destruct (forallb isChildPage xs) eqn:Exs.
        -- rewrite (A eq_refl). split; [reflexivity | lia].
        -- specialize (B eq_refl). split; [lia | discriminate].
      * cbn [app] in H. injection H as Hp Hxs. subst p.
        specialize (C pre b post Hxs). unfold llen in *.
        cbn [List.length]. rewrite <- C. lia.
    + destruct (IH (i + 1) i ltac:(lia)) as (A & B & C).
      assert (Hi : i <= SyncReparent.lastNonChildPageIdxLoop xs (i + 1) i).
      { destruct (forallb isChildPage xs) eqn:Exs;
          [rewrite (A eq_refl); lia | specialize (B eq_refl); lia]. }
      split; [discriminate|]. split; [intros _; exact Hi|].
      intros pre b post H. destruct pre as [|p pre].
      * cbn [app] in H. injection H as Hb Hxs. subst b post.
        cbn [forallb]. rewrite Ex. cbn [andb]. unfold llen. cbn [List.length Z.of_nat].
        split; [lia | discriminate].
      * cbn [app] in H. injection H as Hp Hxs. subst p.
        specialize (C pre b post Hxs). unfold llen in *.
        cbn [List.length]. rewrite <- C. lia.
Qed.

Lemma trailingLoop_spec (blocks : list gomap) (last : Z) (id : string) :
  forall i m,
    lookupBool (SyncReparent.trailingLoop blocks i last m) id = true
    <-> lookupBool m id = true
        \/ exists pre b post,
             blocks = pre ++ b :: post
             /\ isChildPage b = true /\ blockIDOf b = id /\ id <> EmptyString
             /\ i + llen pre > last.
Proof.
  induction blocks as [|x xs IH]; intros i m; cbn [SyncReparent.trailingLoop].
  - split; [now left|]. intros [H|(pre & b & post & H & _)]; [exact H|].
    now destruct pre.
  - fold (isChildPage x).
    destruct (isChildPage x && (i >? last) && negb (isEmpty (blockIDOf x))) eqn:Ec.
    + apply andb_prop in Ec. destruct Ec as [Ec Hne].
      apply andb_prop in Ec. destruct Ec as [Hx Hgt].
      apply negb_true_iff in Hne. apply String.eqb_neq in Hne.
      rewrite Z.gtb_ltb in Hgt. apply Z.ltb_lt in Hgt.
      rewrite IH, lookupBool_mapSet. split.
      * intros [H|(pre & b & post & -> & H)].
        -- apply orb_prop in H. destruct H as [H|H]; [|now left].
           apply String.eqb_eq in H. right. exists [], x, xs.
           unfold llen. simpl. repeat split; try assumption; try lia. congruence.
        -- right. exists (x :: pre), b, post. destruct H as (H1 & H2 & H3 & H4).
           unfold llen in *. simpl List.length. repeat split; try assumption. lia.
      * intros [H|(pre & b & post & H & H1 & H2 & H3 & H4)].
        -- left. rewrite H. apply orb_true_r.
        -- destruct pre as [|p pre]; injection H as <- ->.
           ++ left. rewrite H2, String.eqb_refl. reflexivity.
           ++ right. exists pre, b, post. unfold llen in *. simpl List.length in H4.
              repeat split; try assumption. lia.
    + rewrite IH. split.
      * intros [H|(pre & b & post & -> & H1 & H2 & H3 & H4)]; [now left|].
        right. exists (x :: pre), b, post. unfold llen in *. simpl List.length.
        repeat split; try assumption. lia.
      * intros [H|(pre & b & post & H & H1 & H2 & H3 & H4)]; [now left|].
        destruct pre as [|p pre]; injection H as <- ->.
        -- exfalso. unfold llen in H4. simpl in H4.
           rewrite H1 in Ec. cbn [andb] in Ec.
           apply andb_false_iff in Ec. destruct Ec as [Ec|Ec].
           ++ rewrite Z.gtb_ltb in Ec. apply Z.ltb_ge in Ec. lia.
           ++ apply negb_false_iff in Ec. apply String.eqb_eq in Ec. congruence.
        -- right. exists pre, b, post. unfold llen in *. simpl List.length in H4.
           repeat split; try assumption. lia.
Qed.

(** A child page is trailing exactly when only child pages come after it. *)
Lemma trailing_iff (blocks : list gomap) (id : string) :
  lookupBool (SyncReparent.trailingChildPagesOf blocks) id = true
  <-> exists pre b post,
        blocks = pre ++ b :: post
        /\ blockTypeOf b = "child_page" /\ blockIDOf b = id /\ id <> EmptyString
        /\ forallb isChildPage post = true.
Proof.
  unfold SyncReparent.trailingChildPagesOf. rewrite trailingLoop_spec.
  destruct (lastNonChildPageIdx_spec blocks 0 (-1) ltac:(lia)) as (_ & _ & C).
  split.
  - intros [H|(pre & b & post & H & H1 & H2 & H3 & H4)]; [discriminate|].
    exists pre, b, post. apply (C pre b post H) in H4.
    cbn [forallb] in H4. apply andb_prop in H4.
    repeat split; try assumption; try tauto.
    now apply String.eqb_eq.
  - intros (pre & b & post & H & H1 & H2 & H3 & H4). right.
    exists pre, b, post. repeat split; try assumption.
    + unfold isChildPage. now rewrite H1.
    + apply (C pre b post H). cbn [forallb]. unfold isChildPage at 1.
      now rewrite H1, H4.
Qed.

Lemma encodeBlock_child_page (tr : list (string * bool)) (e : encoder) (b : gomap) :
  blockTypeOf b = "child_page" -> blockIDOf b <> EmptyString ->
  (lookupBool tr (blockIDOf b) = true -> result (encodeBlock tr e b) = result e)
  /\ (lookupBool tr (blockIDOf b) = false ->
      forall childPage,
        asMapAny (lookup b "child_page") = Some childPage ->
        let title := asString (lookup childPage "title") in
        let title := if isEmpty title then "Untitled" else title in
        result (encodeBlock tr e b)
        = result e
          +++ ("[@" +++ title +++ "](notion://" +++ blockIDOf b +++ ")" +++ nl +++ nl)
          +++ formatBlockComments b).
Proof.
  intros Ht Hid. unfold encodeBlock. fold (blockTypeOf b) (blockIDOf b).
  rewrite Ht. cbn [isEmpty String.eqb Ascii.eqb Bool.eqb negb andb].
  rewrite (isEmpty_false _ Hid). cbn [negb].
  split.
  - intros ->. reflexivity.
  - intros -> childPage ->. reflexivity.
Qed.

Lemma mention_line_is_no_marker (title id : string) :
  isChildPageMarker ("[@" +++ title +++ "](notion://" +++ id +++ ")") = false.
Proof. reflexivity. Qed.

Definition pulledExample : list gomap :=
  [childPageBlock "a" "Alpha"; remoteParagraph "p" "text"; childPageBlock "b" "Beta"].

(** The child page Alpha of this page is not trailing; the markup that is
    rendered for it is a mention line, and [parseChildPageComments], by
    which the position-preserving push finds its markers, finds none in
    the rendered text. *)
Lemma pulled_anchor_is_not_recognized :
  SyncReparent.trailingChildPagesOf pulledExample = [("b", true)]
  /\ BlocksToMarkdownWithChildPages pulledExample
       (SyncReparent.trailingChildPagesOf pulledExample)
     = "[@Alpha](notion://a)" +++ nl +++ nl +++ "text" +++ nl +++ nl
  /\ SyncPositions.parseChildPageComments
       (BlocksToMarkdownWithChildPages pulledExample
          (SyncReparent.trailingChildPagesOf pulledExample))
     = [].
Proof. repeat split; vm_compute; reflexivity. Qed.

(** C9, as the code has it.  The id of a child page is in the trailing
    set exactly when a child-page block with that id has only child pages
    after it; the encoder writes nothing for a child page whose id is in
    the set; for any other child page (with an id and its payload) it
    writes the mention line [[@Title](notion://id)], with [Untitled] for
    an empty title; such a line is never a marker line of the
    position-preserving push, whatever the title and the id. *)
Theorem pull_trailing_child_pages :
  (forall blocks id,
     lookupBool (SyncReparent.trailingChildPagesOf blocks) id = true
     <-> exists pre b post,
           blocks = pre ++ b :: post
           /\ blockTypeOf b = "child_page" /\ blockIDOf b = id /\ id <> EmptyString
           /\ forallb isChildPage post = true)
  /\ (forall tr e b,
        blockTypeOf b = "child_page" -> blockIDOf b <> EmptyString ->
        lookupBool tr (blockIDOf b) = true ->
        result (encodeBlock tr e b) = result e)
  /\ (forall tr e b childPage,
        blockTypeOf b = "child_page" -> blockIDOf b <> EmptyString ->
        lookupBool tr (blockIDOf b) = false ->
        asMapAny (lookup b "child_page") = Some childPage ->
        result (encodeBlock tr e b)
        = result e
          +++ ("[@" +++ (if isEmpty (asString (lookup childPage "title"))
                         then "Untitled" else asString (lookup childPage "title"))
               +++ "](notion://" +++ blockIDOf b +++ ")" +++ nl +++ nl)
          +++ formatBlockComments b)
  /\ (forall title id,
        isChildPageMarker ("[@" +++ title +++ "](notion://" +++ id +++ ")") = false).
Proof.
  split; [exact trailing_iff|].
  split.
  { intros tr e b Ht Hid Hin. now apply (encodeBlock_child_page tr e b Ht Hid). }
  split.
  { intros tr e b childPage Ht Hid Hout Hcp.
    now apply (proj2 (encodeBlock_child_page tr e b Ht Hid) Hout childPage Hcp). }
  exact mention_line_is_no_marker.
Qed.

(** ** Indices and slices *)

Lemma take_drop (n : nat) (s : string) : take n s +++ drop n s = s.
Proof.
  revert s. induction n as [|n IH]; intros s; [reflexivity|].
  destruct s as [|c s]; [reflexivity|]. simpl. now rewrite IH.
Qed.

Lemma drop_drop (a b : nat) (s : string) : drop a (drop b s) = drop (b + a) s.
Proof.
  revert s. induction b as [|b IH]; intros s; [reflexivity|].
  destruct s as [|c s]; simpl; [now destruct a | apply IH].
Qed.

Lemma length_drop (n : nat) (s : string) :
  String.length (drop n s) = (String.length s - n)%nat.
Proof.
  revert s. induction n as [|n IH]; intros s; simpl; [lia|].
  destruct s as [|c s]; simpl; [reflexivity | apply IH].
Qed.

Lemma length_take (n : nat) (s : string) :
  (n <= String.length s)%nat -> String.length (take n s) = n.
Proof.
  revert s. induction n as [|n IH]; intros s H; [reflexivity|].
  destruct s as [|c s]; simpl in *; [lia|]. rewrite IH; lia.
Qed.

Lemma drop_get (n : nat) (s : string) (c : ascii) :
  String.get n s = Some c -> drop n s = String c (drop (S n) s).
Proof.
  revert n. induction s as [|d s IH]; intros n H; [discriminate|].
  destruct n as [|n]; simpl in *; [now injection H as -> | now apply IH].
Qed.

Lemma get_in_range (n : nat) (s : string) :
  (n < String.length s)%nat -> exists c, String.get n s = Some c.
Proof.
  revert n. induction s as [|d s IH]; intros n H; simpl in H; [lia|].
  destruct n as [|n]; simpl; [now exists d | apply IH; lia].
Qed.

Lemma sliceFrom_split (text : string) (a b : Z) :
  0 <= a <= b -> sliceFrom text a = slice text a b +++ sliceFrom text b.
Proof.
  intros H. unfold sliceFrom, slice.
  replace (Z.to_nat b) with (Z.to_nat a + Z.to_nat (b - a))%nat by lia.
  rewrite <- drop_drop. now rewrite take_drop.
Qed.

Lemma sliceFrom_byte (text : string) (i : Z) :
  0 <= i < len text ->
  sliceFrom text i = String (byteAt text i) (sliceFrom text (i + 1)).
Proof.
  intros H. unfold sliceFrom, byteAt, len in *.
  destruct (get_in_range (Z.to_nat i) text ltac:(lia)) as [c Hc].
  rewrite Hc. replace (Z.to_nat (i + 1)) with (S (Z.to_nat i)) by lia.
  now apply drop_get.
Qed.

Lemma sliceFrom_0 (text : string) : sliceFrom text 0 = text.
Proof. reflexivity. Qed.

Lemma sliceFrom_len (text : string) : sliceFrom text (len text) = EmptyString.
Proof.
  unfold sliceFrom, len. rewrite Nat2Z.id.
  assert (H : String.length (drop (String.length text) text) = O)
    by (rewrite length_drop; lia).
  now destruct (drop (String.length text) text).
Qed.

Lemma index_in_range (s : string) (i : Z) :
  0 <= i < len s -> index s i = Done (byteAt s i).
Proof.
  intros H. unfold index.
  destruct (Z.leb_spec 0 i); [|lia]. destruct (Z.ltb_spec i (len s)); [reflexivity | lia].
Qed.

Lemma sliceC_in_range (s : string) (a b : Z) :
  0 <= a <= b -> b <= len s -> sliceC s a b = Done (slice s a b).
Proof.
  intros H H'. unfold sliceC.
  destruct (Z.leb_spec 0 a); [|lia]. destruct (Z.leb_spec a b); [|lia].
  destruct (Z.leb_spec b (len s)); [reflexivity | lia].
Qed.

Lemma byteIs_in_range (s : string) (i : Z) (c : ascii) :
  0 <= i < len s -> byteIs s i c = Done (Ascii.eqb (byteAt s i) c).
Proof. intros H. unfold byteIs. now rewrite index_in_range. Qed.

Lemma byteIsNot_in_range (s : string) (i : Z) (c : ascii) :
  0 <= i < len s -> byteIsNot s i c = Done (negb (Ascii.eqb (byteAt s i) c)).
Proof. intros H. unfold byteIsNot. now rewrite index_in_range. Qed.

(** ** The searches of the inline decoder *)

Lemma findClosingSingleLoop_spec (n : nat) (text : string) (c : ascii) :
  forall i,
    0 <= i -> (Z.to_nat (len text - i) < n)%nat ->
    exists r,
      findClosingSingleLoop n text i c = Done r
      /\ (r = -1 \/ (i <= r < len text /\ byteAt text r = c)).
Proof.
  induction n as [|n IH]; intros i Hi Hn; [lia|]. cbn [findClosingSingleLoop].
  destruct (Z.ltb_spec i (len text)) as [Hlt|Hge].
  - rewrite index_in_range by lia. cbn [bind].
    destruct (Ascii.eqb_spec (byteAt text i) c) as [E|E].
    + exists i. split; [reflexivity|]. right. split; [lia | exact E].
    + destruct (IH (i + 1) ltac:(lia) ltac:(lia)) as (r & Hr & [->|[H1 H2]]).
      * exists (-1). split; [exact Hr | now left].
      * exists r. split; [exact Hr|]. right. split; [lia | exact H2].
  - exists (-1). split; [reflexivity | now left].
Qed.

Lemma findClosingSingle_spec (text : string) (pos : Z) (c : ascii) :
  0 <= pos ->
  exists r,
    findClosingSingle text pos c = Done r
    /\ (r = -1 \/ (pos <= r < len text /\ byteAt text r = c)).
Proof.
  intros H. unfold findClosingSingle. apply findClosingSingleLoop_spec; [exact H|].
  unfold len. lia.
Qed.

Lemma findClosingLoop_spec (n : nat) (text marker : string) :
  forall i,
    0 <= i -> (Z.to_nat (len text - len marker - i + 1) < n)%nat ->
    exists r,
      findClosingLoop n text i marker = Done r
      /\ (r = -1
          \/ (i <= r /\ r + len marker <= len text
              /\ slice text r (r + len marker) = marker)).
Proof.
  induction n as [|n IH]; intros i Hi Hn; [lia|]. cbn [findClosingLoop].
  pose proof (len_nonneg marker) as Hm.
  destruct (Z.leb_spec i (len text - len marker)) as [Hle|Hgt].
  - rewrite sliceC_in_range by lia. cbn [bind].
    destruct (String.eqb_spec (slice text i (i + len marker)) marker) as [E|E].
    + exists i. split; [reflexivity|]. right. repeat split; try lia. exact E.
    + destruct (IH (i + 1) ltac:(lia) ltac:(lia)) as (r & Hr & [->|(H1 & H2 & H3)]).
      * exists (-1). split; [exact Hr | now left].
      * exists r. split; [exact Hr|]. right. repeat split; try lia. exact H3.
  - exists (-1). split; [reflexivity | now left].
Qed.

Lemma findClosing_spec (text : string) (pos : Z) (marker : string) :
  0 <= pos -> marker <> EmptyString ->
  exists r,
    findClosing text pos marker = Done r
    /\ (r = -1
        \/ (pos <= r /\ r + len marker <= len text
            /\ slice text r (r + len marker) = marker)).
Proof.
  intros H Hm. unfold findClosing. apply findClosingLoop_spec; [exact H|].
  assert (0 < len marker) by (destruct marker; [contradiction | unfold len; simpl; lia]).
  unfold len in *. lia.
Qed.

Definition special (c : ascii) : Prop := c = "*"%char \/ c = "`"%char \/ c = "["%char.

Lemma plainRunLoop_spec (n : nat) (text : string) :
  forall i,
    0 <= i <= len text -> (Z.to_nat (len text - i) < n)%nat ->
    exists r,
      plainRunLoop n text i = Done r
      /\ i <= r <= len text
      /\ (r < len text -> special (byteAt text r)).
Proof.
  induction n as [|n IH]; intros i Hi Hn; [lia|]. cbn [plainRunLoop].
  unfold andThen. cbn [bind].
  destruct (Z.ltb_spec i (len text)) as [Hlt|Hge].
  - rewrite !byteIsNot_in_range by lia. cbn [bind].
    destruct (Ascii.eqb_spec (byteAt text i) "*") as [E1|E1]; cbn [negb].
    { exists i. split; [reflexivity|]. split; [lia|]. intros _. now left. }
    destruct (Ascii.eqb_spec (byteAt text i) "`") as [E2|E2]; cbn [negb].
    { exists i. split; [reflexivity|]. split; [lia|]. intros _. right. now left. }
    destruct (Ascii.eqb_spec (byteAt text i) "[") as [E3|E3]; cbn [negb].
    { exists i. split; [reflexivity|]. split; [lia|]. intros _. right. now right. }
    destruct (IH (i + 1) ltac:(lia) ltac:(lia)) as (r & Hr & H1 & H2).
    exists r. split; [exact Hr|]. split; [lia | exact H2].
  - exists i. split; [reflexivity|]. split; [lia|]. intros H. lia.
Qed.

(** ** The inline decoder reads every byte (C4) *)

(** The piece of markup a span is read from.  A mention keeps the page id
    and not the title that stands between the brackets. *)
Inductive spanSource : gomap -> string -> Prop :=
| source_plain (content : string) :
    spanSource (plainSpan content) content
| source_bold (content : string) :
    spanSource (annotatedSpan content "bold") ("**" +++ content +++ "**")
| source_italic (content : string) :
    spanSource (annotatedSpan content "italic") ("*" +++ content +++ "*")
| source_code (content : string) :
    spanSource (annotatedSpan content "code") ("`" +++ content +++ "`")
| source_link (linkText linkURL : string) :
    strings.HasPrefix linkURL "notion://" && strings.HasPrefix linkText "@" = false ->
    spanSource (linkSpan linkText linkURL) ("[" +++ linkText +++ "](" +++ linkURL +++ ")")
| source_mention (title pageID : string) :
    spanSource (mentionSpan pageID) ("[@" +++ title +++ "](notion://" +++ pageID +++ ")").

(** The spans lie on the text one after the other and cover it. *)
Inductive tiles : string -> list gomap -> Prop :=
| tiles_nil : tiles EmptyString []
| tiles_cons (source rest : string) (span : gomap) (spans : list gomap) :
    spanSource span source -> source <> EmptyString -> tiles rest spans ->
    tiles (source +++ rest) (span :: spans).

(** What one attempt of the loop body gives at index [i]. *)
Definition attempt (text : string) (i : Z) (r : option (gomap * Z)) : Prop :=
  match r with
  | None => True
  | Some (span, next) =>
      i < next <= len text
      /\ exists source,
           spanSource span source /\ source <> EmptyString
           /\ sliceFrom text i = source +++ sliceFrom text next
  end.

Lemma slice_one (text : string) (i : Z) (c : ascii) :
  0 <= i < len text -> byteAt text i = c ->
  sliceFrom text i = String c (sliceFrom text (i + 1)).
Proof. intros H <-. now apply sliceFrom_byte. Qed.

Lemma tryBold_spec (text : string) (i : Z) :
  0 <= i < len text ->
  exists r, tryBold text i = Done r /\ attempt text i r.
Proof.
  intros Hi. unfold tryBold, andThen. cbn [bind].
  destruct (Z.ltb_spec (i + 1) (len text)) as [H1|H1];
    [|exists None; split; [reflexivity | exact I]].
  rewrite byteIs_in_range by lia. cbn [bind].
  destruct (Ascii.eqb_spec (byteAt text i) "*") as [E1|E1];
    [|exists None; split; [reflexivity | exact I]].
  rewrite byteIs_in_range by lia. cbn [bind].
  destruct (Ascii.eqb_spec (byteAt text (i + 1)) "*") as [E2|E2];
    [|exists None; split; [reflexivity | exact I]].
  destruct (findClosing_spec text (i + 2) "**" ltac:(lia) ltac:(discriminate))
    as (e & He & Hs).
  rewrite He. cbn [bind].
  destruct (Z.gtb_spec e 0) as [Hpos|Hneg];
    [|exists None; split; [reflexivity | exact I]].
  destruct Hs as [->|(Ha & Hb & Hc)]; [lia|]. change (len "**") with 2 in *.
  rewrite sliceC_in_range by lia. cbn [bind].
  eexists. split; [reflexivity|]. split; [lia|].
  exists ("**" +++ slice text (i + 2) e +++ "**").
  split; [constructor|]. split; [discriminate|].
  rewrite (slice_one text i "*") by (try lia; assumption).
  rewrite (slice_one text (i + 1) "*") by (try lia; assumption).
  replace (i + 1 + 1) with (i + 2) by lia.
  rewrite (sliceFrom_split text (i + 2) e) by lia.
  rewrite (sliceFrom_split text e (e + 2)) by lia.
  rewrite Hc. str_norm. reflexivity.
Qed.

(** The common part of the italic and the code case. *)
Lemma single_marker_attempt (text : string) (i : Z) (marker : ascii) (annotation : string) :
  0 <= i < len text -> byteAt text i = marker ->
  (forall content,
     spanSource (annotatedSpan content annotation)
       (String marker (content +++ String marker EmptyString))) ->
  exists r,
    (end_ <- findClosingSingle text (i + 1) marker ;;
     if end_ >? 0 then
       content <- sliceC text (i + 1) end_ ;;
       Done (Some (annotatedSpan content annotation, end_ + 1))
     else Done None) = Done r
    /\ attempt text i r.
Proof.
  intros Hi Hb Hsrc.
  destruct (findClosingSingle_spec text (i + 1) marker ltac:(lia)) as (e & He & Hs).
  rewrite He. cbn [bind].
  destruct (Z.gtb_spec e 0) as [Hpos|Hneg];
    [|exists None; split; [reflexivity | exact I]].
  destruct Hs as [->|(Ha & Hc)]; [lia|].
  rewrite sliceC_in_range by lia. cbn [bind].
  eexists. split; [reflexivity|]. split; [lia|].
  exists (String marker (slice text (i + 1) e +++ String marker EmptyString)).
  split; [apply Hsrc|]. split; [discriminate|].
  rewrite (slice_one text i marker) by (try lia; assumption).
  rewrite (sliceFrom_split text (i + 1) e) by lia.
  rewrite (slice_one text e marker) by (try lia; assumption).
  str_norm. reflexivity.
Qed.

Lemma tryItalic_spec (text : string) (i : Z) :
  0 <= i < len text ->
  exists r, tryItalic text i = Done r /\ attempt text i r.
Proof.
  intros Hi. unfold tryItalic.
  rewrite byteIs_in_range by lia. cbn [bind].
  destruct (Ascii.eqb_spec (byteAt text i) "*") as [E1|E1]; cbn [bind];
    [|exists None; split; [reflexivity | exact I]].
  assert (Hgo : exists r,
             (end_ <- findClosingSingle text (i + 1) "*" ;;
              if end_ >? 0 then
                content <- sliceC text (i + 1) end_ ;;
                Done (Some (annotatedSpan content "italic", end_ + 1))
              else Done None) = Done r
             /\ attempt text i r).
  { apply single_marker_attempt; [exact Hi | exact E1 | intros; constructor]. }
  destruct (Z.geb_spec (i + 1) (len text)) as [H1|H1]; cbn [bind]; [exact Hgo|].
  rewrite byteIsNot_in_range by lia. cbn [bind].
  destruct (negb _); [exact Hgo | exists None; split; [reflexivity | exact I]].
Qed.

Lemma tryCode_spec (text : string) (i : Z) :
  0 <= i < len text ->
  exists r, tryCode text i = Done r /\ attempt text i r.
Proof.
  intros Hi. unfold tryCode.
  rewrite byteIs_in_range by lia. cbn [bind].
  destruct (Ascii.eqb_spec (byteAt text i) "`") as [E1|E1];
    [|exists None; split; [reflexivity | exact I]].
  apply single_marker_attempt; [exact Hi | exact E1 | intros; constructor].
Qed.

Lemma TrimPrefix_HasPrefix (s prefix : string) :
  strings.HasPrefix s prefix = true -> s = prefix +++ strings.TrimPrefix s prefix.
Proof.
  unfold strings.TrimPrefix. intros H. rewrite H.
  revert s H. induction prefix as [|p prefix IH]; intros s H; [reflexivity|].
  destruct s as [|c s]; [discriminate|]. cbn [strings.HasPrefix] in H.
  apply andb_prop in H. destruct H as [Hc Hs]. apply Ascii.eqb_eq in Hc. subst c.
  cbn [String.length drop String.append]. f_equal. now apply IH.
Qed.

Lemma tryLink_spec (text : string) (i : Z) :
  0 <= i < len text ->
  exists r, tryLink text i = Done r /\ attempt text i r.
Proof.
  intros Hi. unfold tryLink, andThen.
  rewrite byteIs_in_range by lia. cbn [bind].
  destruct (Ascii.eqb_spec (byteAt text i) "[") as [E1|E1];
    [|exists None; split; [reflexivity | exact I]].
  destruct (findClosingSingle_spec text (i + 1) "]" ltac:(lia)) as (cb & Hcb & Hs).
  rewrite Hcb. cbn [bind].
  destruct (Z.gtb_spec cb 0) as [Hpos|Hneg];
    [|exists None; split; [reflexivity | exact I]].
  destruct Hs as [->|(Ha & Hc)]; [lia|].
  destruct (Z.ltb_spec (cb + 1) (len text)) as [H1|H1];
    [|exists None; split; [reflexivity | exact I]].
  rewrite byteIs_in_range by lia. cbn [bind].
  destruct (Ascii.eqb_spec (byteAt text (cb + 1)) "(") as [E2|E2];
    [|exists None; split; [reflexivity | exact I]].
  destruct (findClosingSingle_spec text (cb + 2) ")" ltac:(lia)) as (cp & Hcp & Hp).
  rewrite Hcp. cbn [bind].
  destruct (Z.gtb_spec cp 0) as [Hpos2|Hneg2];
    [|exists None; split; [reflexivity | exact I]].
  destruct Hp as [->|(Hb & Hd)]; [lia|].
  rewrite !sliceC_in_range by lia. cbn [bind].
  assert (Hsplit : sliceFrom text i
                   = "[" +++ slice text (i + 1) cb +++ "]("
                     +++ slice text (cb + 2) cp +++ ")" +++ sliceFrom text (cp + 1)).
  { rewrite (slice_one text i "[") by (try lia; assumption).
    rewrite (sliceFrom_split text (i + 1) cb) by lia.
    rewrite (slice_one text cb "]") by (try lia; assumption).
    rewrite (slice_one text (cb + 1) "(") by (try lia; assumption).
    replace (cb + 1 + 1) with (cb + 2) by lia.
    rewrite (sliceFrom_split text (cb + 2) cp) by lia.
    rewrite (slice_one text cp ")") by (try lia; assumption).
    str_norm. reflexivity. }
  destruct (strings.HasPrefix (slice text (cb + 2) cp) "notion://"
            && strings.HasPrefix (slice text (i + 1) cb) "@") eqn:Em.
  - eexists. split; [reflexivity|]. split; [lia|].
    apply andb_prop in Em. destruct Em as [Eu Et].
    exists ("[@" +++ strings.TrimPrefix (slice text (i + 1) cb) "@" +++ "](notion://"
            +++ strings.TrimPrefix (slice text (cb + 2) cp) "notion://" +++ ")").
    split; [constructor|]. split; [discriminate|].
    rewrite Hsplit.
    rewrite (TrimPrefix_HasPrefix _ _ Eu) at 1.
    rewrite (TrimPrefix_HasPrefix _ _ Et) at 1.
    str_norm. reflexivity.
  - eexists. split; [reflexivity|]. split; [lia|].
    exists ("[" +++ slice text (i + 1) cb +++ "](" +++ slice text (cb + 2) cp +++ ")").
    split; [now constructor|]. split; [discriminate|].
    rewrite Hsplit. str_norm. reflexivity.
Qed.

Lemma marked_spec (text : string) (i : Z) :
  0 <= i < len text ->
  exists r,
    orElse (tryBold text i)
      (orElse (tryItalic text i) (orElse (tryCode text i) (tryLink text i))) = Done r
    /\ attempt text i r.
Proof.
  intros Hi. unfold orElse.
  destruct (tryBold_spec text i Hi) as ([x|] & -> & Hx); cbn [bind];
    [exists (Some x); now split|].
  destruct (tryItalic_spec text i Hi) as ([y|] & -> & Hy); cbn [bind];
    [exists (Some y); now split|].
  destruct (tryCode_spec text i Hi) as ([z|] & -> & Hz); cbn [bind];
    [exists (Some z); now split|].
  destruct (tryLink_spec text i Hi) as (r & -> & Hr). now exists r.
Qed.

Lemma len_slice (text : string) (a b : Z) :
  0 <= a <= b -> b <= len text -> len (slice text a b) = b - a.
Proof.
  intros H H'. unfold len, slice in *. rewrite length_take; [lia|].
  rewrite length_drop. lia.
Qed.

Lemma stringOfByte_special (c : ascii) :
  special c -> stringOfByte c = String c EmptyString.
Proof. intros [->|[->| ->]]; reflexivity. Qed.

(** The loop ends, with spans that cover the text from [i] on. *)
Lemma parseInlineLoop_spec (fuel : nat) (text : string) :
  forall i acc,
    0 <= i <= len text -> (Z.to_nat (len text - i) < fuel)%nat ->
    exists spans,
      parseInlineLoop fuel text i acc = Done (acc ++ spans)
      /\ tiles (sliceFrom text i) spans.
Proof.
  induction fuel as [|fuel IH]; intros i acc Hi Hf; [lia|].
  cbn [parseInlineLoop].
  destruct (Z.ltb_spec i (len text)) as [Hlt|Hge].
  - destruct (marked_spec text i ltac:(lia)) as (r & -> & Hr). cbn [bind].
    destruct r as [[span next]|].
    + destruct Hr as (Hn & source & Hsrc & Hne & Hsplit).
      destruct (IH next (acc ++ [span]) ltac:(lia) ltac:(lia)) as (spans & -> & Ht).
      exists (span :: spans). split; [now rewrite <- app_assoc|].
      rewrite Hsplit. now constructor.
    + destruct (plainRunLoop_spec (S (String.length text)) text i ltac:(lia)
                  ltac:(unfold len; lia)) as (r & -> & Hrange & Hsp).
      cbn [bind].
      destruct (Z.gtb_spec r i) as [Hgt|Hle].
      * rewrite sliceC_in_range by lia. cbn [bind].
        destruct (IH r (acc ++ [plainSpan (slice text i r)]) ltac:(lia) ltac:(lia))
          as (spans & -> & Ht).
        exists (plainSpan (slice text i r) :: spans).
        split; [now rewrite <- app_assoc|].
        rewrite (sliceFrom_split text i r) by lia.
        constructor; [constructor | | exact Ht].
        intros E. pose proof (len_slice text i r ltac:(lia) ltac:(lia)) as L.
        rewrite E in L. unfold len in L. simpl in L. lia.
      * assert (r = i) by lia. subst r.
        rewrite index_in_range by lia. cbn [bind].
        rewrite (stringOfByte_special _ (Hsp Hlt)).
        destruct (IH (i + 1) (acc ++ [plainSpan (String (byteAt text i) EmptyString)])
                    ltac:(lia) ltac:(lia)) as (spans & -> & Ht).
        exists (plainSpan (String (byteAt text i) EmptyString) :: spans).
        split; [now rewrite <- app_assoc|].
        rewrite (sliceFrom_byte text i) by lia.
        change (String (byteAt text i) (sliceFrom text (i + 1)))
          with (String (byteAt text i) EmptyString +++ sliceFrom text (i + 1)).
        constructor; [constructor | discriminate | exact Ht].
  - assert (i = len text) by lia. subst i.
    exists []. split; [now rewrite app_nil_r|].
    rewrite sliceFrom_len. constructor.
Qed.

(** The spans of a text: none only for the empty text. *)
Lemma tiles_nil_inv (text : string) : tiles text [] -> text = EmptyString.
Proof. now inversion 1. Qed.

Lemma tiles_cons_inv (text : string) (span : gomap) (spans : list gomap) :
  tiles text (span :: spans) -> text <> EmptyString.
Proof.
  inversion 1 as [|source rest s ss Hs Hne Hr Heq]. intros E.
  apply append_eq_nil in E. destruct E. contradiction.
Qed.

Lemma parseInlineMarkdownRun_total (text : string) :
  exists spans,
    parseInlineMarkdownRun text = Done spans
    /\ parseInlineMarkdown text = spans
    /\ ((text = EmptyString /\ spans = [plainSpan EmptyString])
        \/ (text <> EmptyString /\ tiles text spans)).
Proof.
  unfold parseInlineMarkdown, parseInlineMarkdownRun.
  pose proof (len_nonneg text) as Hl.
  destruct (parseInlineLoop_spec (S (String.length text)) text 0 []
              ltac:(lia) ltac:(unfold len; lia)) as (spans & -> & Ht).
  cbn [bind app]. rewrite sliceFrom_0 in Ht.
  destruct spans as [|span spans].
  - apply tiles_nil_inv in Ht. subst text.
    eexists. split; [reflexivity|]. split; [reflexivity|]. now left.
  - eexists. split; [reflexivity|]. split; [reflexivity|]. right.
    split; [|exact Ht]. exact (tiles_cons_inv _ _ _ Ht).
Qed.

(** The titles of two mentions of one page are both gone from the spans. *)
Lemma mention_title_is_dropped :
  parseInlineMarkdown "[@Alpha](notion://a)" = [mentionSpan "a"]
  /\ parseInlineMarkdown "[@A much longer title](notion://a)" = [mentionSpan "a"].
Proof. split; vm_compute; reflexivity. Qed.

(** C4, as the code has it.  For every text the decoder ends without a
    panic and without running out of its loop counter; the spans it
    returns lie on the text one after the other and cover every byte of
    it, each span on the piece of markup it is read from (the empty text
    gives one empty span); a marker that opens nothing is a span of its
    own of one byte.  The bytes of a piece are the markers and what the
    span keeps, except in a page mention, where the title is read and not
    kept. *)
Theorem inline_decoder_total :
  (forall text,
     exists spans,
       parseInlineMarkdownRun text = Done spans
       /\ parseInlineMarkdown text = spans
       /\ ((text = EmptyString /\ spans = [plainSpan EmptyString])
           \/ (text <> EmptyString /\ tiles text spans)))
  /\ parseInlineMarkdown "*z" = [plainSpan "*"; plainSpan "z"]
  /\ parseInlineMarkdown "a **b" = [plainSpan "a "; plainSpan "*"; plainSpan "*"; plainSpan "b"]
  /\ parseInlineMarkdown "`c" = [plainSpan "`"; plainSpan "c"]
  /\ parseInlineMarkdown "[q](r" = [plainSpan "["; plainSpan "q](r"]
  /\ parseInlineMarkdown "x [@T](notion://p) y"
     = [plainSpan "x "; mentionSpan "p"; plainSpan " y"].
Proof.
  split; [exact parseInlineMarkdownRun_total|].
  repeat split; vm_compute; reflexivity.
Qed.

(** ** The round trip through the encoder (C1) *)

(** *** Spans *)

Definition jsonSpan (span : gomap) : any := jsonForm (MapAny span).

Lemma jsonForm_SliceMap (l : list gomap) :
  jsonForm (SliceMap l) = SliceAny (map jsonSpan l).
Proof. reflexivity. Qed.

Lemma jsonForm_SliceSliceMap (l : list (list gomap)) :
  jsonForm (SliceSliceMap l) = SliceAny (map (fun r => SliceAny (map jsonSpan r)) l).
Proof. reflexivity. Qed.







(** *** The block decoder, line by line *)

(** The case of the loop body of [MarkdownToBlocks] that a line falls in,
    by the conditions of the loop in their order. *)
Inductive lineClass : Type :=
| Blank | Marker | Heading1 | Heading2 | Heading3 | Divider | Fence | Todo | Bullet
| NumberedItem | Quote | TableRow | Paragraph.

Definition classify (line : string) : lineClass :=
  if isEmpty line then Blank
  else if isChildPageMarker line then Marker
  else if (len line >? 2) && Ascii.eqb (byteAt line 0) "#" && Ascii.eqb (byteAt line 1) " "
  then Heading1
  else if (len line >? 3) && (slice line 0 3 =? "## ")%string then Heading2
  else if (len line >? 4) && (slice line 0 4 =? "### ")%string then Heading3
  else if (line =? "---")%string then Divider
  else if isFence line then Fence
  else if (len line >? 5)
          && ((slice line 0 5 =? "- [ ]")%string || (slice line 0 5 =? "- [x]")%string)
  then Todo
  else if (len line >? 2) && (slice line 0 2 =? "- ")%string then Bullet
  else if numberedDotIdx line >? 0 then NumberedItem
  else if (len line >? 2) && (slice line 0 2 =? "> ")%string then Quote
  else if (len line >? 0) && Ascii.eqb (byteAt line 0) "|" then TableRow
  else Paragraph.

(** The block of a line that is a block by itself. *)
Definition lineBlock (line : string) : option gomap :=
  match classify line with
  | Heading1 => Some (textBlock "heading_1" (parseInlineMarkdown (sliceFrom line 2)))
  | Heading2 => Some (textBlock "heading_2" (parseInlineMarkdown (sliceFrom line 3)))
  | Heading3 => Some (textBlock "heading_3" (parseInlineMarkdown (sliceFrom line 4)))
  | Divider => Some dividerBlock
  | Todo =>
      Some (todoBlock
              (parseInlineMarkdown (if len line >? 6 then sliceFrom line 6 else EmptyString))
              (Ascii.eqb (byteAt line 3) "x"))
  | Bullet => Some (textBlock "bulleted_list_item" (parseInlineMarkdown (sliceFrom line 2)))
  | NumberedItem =>
      Some (textBlock "numbered_list_item"
              (parseInlineMarkdown (sliceFrom line (numberedDotIdx line + 2))))
  | Quote => Some (textBlock "quote" (parseInlineMarkdown (sliceFrom line 2)))
  | Paragraph => Some (textBlock "paragraph" (parseInlineMarkdown line))
  | Blank | Marker | Fence | TableRow => None
  end.

(** The lines of a fenced block and what comes after its closing fence. *)
Fixpoint breakFence (lines : list string) : list string * list string :=
  match lines with
  | [] => ([], [])
  | l :: rest =>
      if isFence l then ([], rest)
      else let '(codeLines, after) := breakFence rest in (l :: codeLines, after)
  end.

Definition startsRow (l : string) : bool :=
  (len l >? 0) && Ascii.eqb (byteAt l 0) "|".

(** The further rows of a table and what comes after them. *)
Fixpoint spanRows (lines : list string) : list string * list string :=
  match lines with
  | [] => ([], [])
  | l :: rest =>
      if startsRow l
      then let '(rows, after) := spanRows rest in (l :: rows, after)
      else ([], lines)
  end.

Definition codeBlockOf (line : string) (codeLines : list string) : gomap :=
  codeBlock (strings.Join codeLines nl)
    (mapLanguageToNotion (strings.TrimSpace (sliceFrom line 3))).

Definition tableBlocks (rows : list string) : list gomap :=
  match parseMarkdownTable rows with
  | Some tableBlock => [tableBlock]
  | None => []
  end.

(** The blocks of a list of lines. *)
Inductive decodesTo : list string -> list gomap -> Prop :=
| decodes_nil : decodesTo [] []
| decodes_skip (line : string) (rest : list string) (blocks : list gomap) :
    classify line = Blank \/ classify line = Marker ->
    decodesTo rest blocks -> decodesTo (line :: rest) blocks
| decodes_line (line : string) (rest : list string) (b : gomap) (blocks : list gomap) :
    lineBlock line = Some b ->
    decodesTo rest blocks -> decodesTo (line :: rest) (b :: blocks)
| decodes_fence (line : string) (rest codeLines after : list string) (blocks : list gomap) :
    classify line = Fence -> breakFence rest = (codeLines, after) ->
    decodesTo after blocks ->
    decodesTo (line :: rest) (codeBlockOf line codeLines :: blocks)
| decodes_table (line : string) (rest rows after : list string) (blocks : list gomap) :
    classify line = TableRow -> spanRows rest = (rows, after) ->
    decodesTo after blocks ->
    decodesTo (line :: rest) (tableBlocks (line :: rows) ++ blocks).

(** One turn of the loop, by the class of the line. *)
Lemma markdownLoop_step (n : nat) (lines : list string) (i : Z) (blocks : list gomap) :
  (i <? llen lines) = true ->
  markdownLoop (S n) lines i blocks
  = let line := lineAt lines i in
    match classify line with
    | Blank | Marker => markdownLoop n lines (i + 1) blocks
    | Fence =>
        let '(i', codeLines) := codeFenceLoop (List.length lines) lines i [] in
        markdownLoop n lines (i' + 1) (blocks ++ [codeBlockOf line codeLines])
    | TableRow =>
        let '(i', tableRows) := tableRowsLoop (List.length lines) lines i [line] in
        markdownLoop n lines (i' + 1) (blocks ++ tableBlocks tableRows)
    | _ =>
        match lineBlock line with
        | Some b => markdownLoop n lines (i + 1) (blocks ++ [b])
        | None => blocks
        end
    end.
Proof.
  intros Hi. cbn [markdownLoop]. rewrite Hi. cbn zeta.
  unfold lineBlock, classify.
  set (line := lineAt lines i).
  repeat match goal with
  | |- context [if ?c then _ else _] =>
      match c with
      | context [line] => destruct c eqn:?
      end
  end; try reflexivity.
  destruct (tableRowsLoop (List.length lines) lines i [line]) as [i' rows].
  unfold tableBlocks. destruct (parseMarkdownTable rows); [reflexivity|].
  now rewrite app_nil_r.
Qed.

Lemma skipn_cons_nth (k : nat) (all : list string) (x : string) (xs : list string) :
  skipn k all = x :: xs ->
  nth k all EmptyString = x /\ skipn (S k) all = xs /\ (k < List.length all)%nat.
Proof.
  revert all. induction k as [|k IH]; intros all H.
  - destruct all as [|y ys]; [discriminate|]. injection H as -> ->.
    repeat split. simpl. lia.
  - destruct all as [|y ys]; [discriminate|]. simpl in H.
    destruct (IH ys H) as (A & B & C). repeat split; try assumption. simpl. lia.
Qed.

Lemma skipn_nil_length (k : nat) (all : list string) :
  skipn k all = [] -> (List.length all <= k)%nat.
Proof.
  revert all. induction k as [|k IH]; intros all H.
  - destruct all; [simpl; lia | discriminate].
  - destruct all as [|y ys]; [simpl; lia|]. simpl in *. specialize (IH ys H). lia.
Qed.

(** The index after the line at [i] and the suffix that starts there. *)
Lemma suffix_step (all : list string) (i : Z) (x : string) (xs : list string) :
  0 <= i -> skipn (Z.to_nat i) all = x :: xs ->
  lineAt all i = x /\ skipn (Z.to_nat (i + 1)) all = xs /\ (i <? llen all) = true.
Proof.
  intros Hi H. destruct (skipn_cons_nth _ _ _ _ H) as (A & B & C).
  unfold lineAt, llen. replace (Z.to_nat (i + 1)) with (S (Z.to_nat i)) by lia.
  repeat split; try assumption. apply Z.ltb_lt. lia.
Qed.

Lemma suffix_end (all : list string) (i : Z) :
  0 <= i -> skipn (Z.to_nat i) all = [] -> (i <? llen all) = false.
Proof.
  intros Hi H. apply skipn_nil_length in H. unfold llen. apply Z.ltb_ge. lia.
Qed.

Lemma codeFenceLoop_spec (rest : list string) :
  forall n all i acc,
    0 <= i -> skipn (Z.to_nat (i + 1)) all = rest -> (List.length rest <= n)%nat ->
    exists i',
      codeFenceLoop n all i acc = (i', acc ++ fst (breakFence rest))
      /\ i <= i'
      /\ skipn (Z.to_nat (i' + 1)) all = snd (breakFence rest).
Proof.
  induction rest as [|l rest IH]; intros n all i acc Hi Hs Hn.
  - exists i. cbn [breakFence fst snd]. rewrite app_nil_r.
    split; [|split; [lia | exact Hs]].
    destruct n as [|n]; [reflexivity|]. cbn [codeFenceLoop].
    now rewrite (suffix_end all (i + 1) ltac:(lia) Hs).
  - destruct n as [|n]; [simpl in Hn; lia|]. cbn [codeFenceLoop].
    destruct (suffix_step all (i + 1) l rest ltac:(lia) Hs) as (Hl & Hr & Hlt).
    rewrite Hlt, Hl. cbn [breakFence].
    destruct (isFence l).
    + exists (i + 1). cbn [fst snd]. rewrite app_nil_r.
      split; [reflexivity|]. split; [lia | exact Hr].
    + destruct (IH n all (i + 1) (acc ++ [l]) ltac:(lia) Hr ltac:(simpl in Hn; lia))
        as (i' & Hc & Hi' & Hs').
      exists i'. destruct (breakFence rest) as [c r]. cbn [fst snd] in *.
      rewrite Hc, <- app_assoc. split; [reflexivity|]. split; [lia | exact Hs'].
Qed.

Lemma tableRowsLoop_spec (rest : list string) :
  forall n all i acc,
    0 <= i -> skipn (Z.to_nat (i + 1)) all = rest -> (List.length rest <= n)%nat ->
    exists i',
      tableRowsLoop n all i acc = (i', acc ++ fst (spanRows rest))
      /\ i <= i'
      /\ skipn (Z.to_nat (i' + 1)) all = snd (spanRows rest).
Proof.
  induction rest as [|l rest IH]; intros n all i acc Hi Hs Hn.
  - exists i. cbn [spanRows fst snd]. rewrite app_nil_r.
    split; [|split; [lia | exact Hs]].
    destruct n as [|n]; [reflexivity|]. cbn [tableRowsLoop].
    now rewrite (suffix_end all (i + 1) ltac:(lia) Hs).
  - destruct n as [|n]; [simpl in Hn; lia|]. cbn [tableRowsLoop].
    destruct (suffix_step all (i + 1) l rest ltac:(lia) Hs) as (Hl & Hr & Hlt).
    rewrite Hlt, Hl. cbn [spanRows andb]. fold (startsRow l).
    destruct (startsRow l).
    + destruct (IH n all (i + 1) (acc ++ [l]) ltac:(lia) Hr ltac:(simpl in Hn; lia))
        as (i' & Hc & Hi' & Hs').
      exists i'. destruct (spanRows rest) as [c r]. cbn [fst snd] in *.
      rewrite Hc, <- app_assoc. split; [reflexivity|]. split; [lia | exact Hs'].
    + exists i. cbn [fst snd]. rewrite app_nil_r.
      split; [reflexivity|]. split; [lia | exact Hs].
Qed.

Lemma breakFence_length (lines : list string) :
  (List.length (snd (breakFence lines)) <= List.length lines)%nat.
Proof.
  induction lines as [|l lines IH]; [simpl; lia|]. cbn [breakFence].
  destruct (isFence l); [simpl; lia|].
  destruct (breakFence lines). simpl in *. lia.
Qed.

Lemma spanRows_length (lines : list string) :
  (List.length (snd (spanRows lines)) <= List.length lines)%nat.
Proof.
  induction lines as [|l lines IH]; [simpl; lia|]. cbn [spanRows].
  destruct (startsRow l); [|simpl; lia].
  destruct (spanRows lines). simpl in *. lia.
Qed.

Lemma lineBlock_class (line : string) (b : gomap) :
  lineBlock line = Some b ->
  classify line <> Blank /\ classify line <> Marker
  /\ classify line <> Fence /\ classify line <> TableRow.
Proof.
  unfold lineBlock. destruct (classify line); intros H; try discriminate;
    repeat split; discriminate.
Qed.

(** The loop computes the blocks of the lines from [i] on. *)
Lemma markdownLoop_decodes (lines : list string) (blocks : list gomap) :
  decodesTo lines blocks ->
  forall all i n acc,
    0 <= i -> skipn (Z.to_nat i) all = lines -> (List.length lines <= n)%nat ->
    markdownLoop n all i acc = acc ++ blocks.
Proof.
  induction 1 as [| line rest blocks Hc _ IH
                  | line rest b blocks Hb _ IH
                  | line rest codeLines after blocks Hc Hbf _ IH
                  | line rest rows after blocks Hc Hsr _ IH ];
    intros all i n acc Hi Hs Hn.
  - rewrite app_nil_r. destruct n as [|n]; [reflexivity|].
    cbn [markdownLoop]. now rewrite (suffix_end all i Hi Hs).
  - destruct n as [|n]; [simpl in Hn; lia|].
    destruct (suffix_step all i line rest Hi Hs) as (Hl & Hr & Hlt).
    rewrite (markdownLoop_step _ _ _ _ Hlt). cbn zeta. rewrite Hl.
    destruct Hc as [-> | ->]; apply IH; try lia; try assumption; simpl in Hn; lia.
  - destruct n as [|n]; [simpl in Hn; lia|].
    destruct (suffix_step all i line rest Hi Hs) as (Hl & Hr & Hlt).
    rewrite (markdownLoop_step _ _ _ _ Hlt). cbn zeta. rewrite Hl, Hb.
    destruct (lineBlock_class _ _ Hb) as (N1 & N2 & N3 & N4).
    assert (E : markdownLoop n all (i + 1) (acc ++ [b]) = acc ++ b :: blocks).
    { rewrite (IH all (i + 1) n (acc ++ [b])); try lia; try assumption.
      - now rewrite <- app_assoc.
      - simpl in Hn. lia. }
    destruct (classify line); try contradiction; exact E.
  - destruct n as [|n]; [simpl in Hn; lia|].
    destruct (suffix_step all i line rest Hi Hs) as (Hl & Hr & Hlt).
    rewrite (markdownLoop_step _ _ _ _ Hlt). cbn zeta. rewrite Hl, Hc.
    destruct (codeFenceLoop_spec rest (List.length all) all i [] Hi Hr) as (i' & Hf & Hi' & Hs').
    { rewrite <- Hr. rewrite length_skipn. lia. }
    rewrite Hf, Hbf. cbn [fst snd app] in *.
    rewrite (IH all (i' + 1) n (acc ++ [codeBlockOf line codeLines])); try lia.
    + now rewrite <- app_assoc.
    + rewrite Hs', Hbf. reflexivity.
    + pose proof (breakFence_length rest) as L. rewrite Hbf in L. simpl in L, Hn. lia.
  - destruct n as [|n]; [simpl in Hn; lia|].
    destruct (suffix_step all i line rest Hi Hs) as (Hl & Hr & Hlt).
    rewrite (markdownLoop_step _ _ _ _ Hlt). cbn zeta. rewrite Hl, Hc.
    destruct (tableRowsLoop_spec rest (List.length all) all i [line] Hi Hr)
      as (i' & Hf & Hi' & Hs').
    { rewrite <- Hr. rewrite length_skipn. lia. }
    rewrite Hf, Hsr. cbn [fst snd app] in *.
    rewrite (IH all (i' + 1) n (acc ++ tableBlocks (line :: rows))); try lia.
    + now rewrite <- app_assoc.
    + rewrite Hs', Hsr. reflexivity.
    + pose proof (spanRows_length rest) as L. rewrite Hsr in L. simpl in L, Hn. lia.
Qed.

Lemma MarkdownToBlocks_decodes (markdown : string) (blocks : list gomap) :
  decodesTo (splitLines markdown) blocks -> MarkdownToBlocks markdown = blocks.
Proof.
  intros H. unfold MarkdownToBlocks.
  now rewrite (markdownLoop_decodes _ _ H (splitLines markdown) 0 _ []).
Qed.

(** Every list of lines has its blocks. *)
Lemma decodesTo_total (n : nat) :
  forall lines, (List.length lines <= n)%nat -> exists blocks, decodesTo lines blocks.
Proof.
  induction n as [|n IH]; intros lines Hn.
  - destruct lines; [exists []; constructor | simpl in Hn; lia].
  - destruct lines as [|line rest]; [exists []; constructor|]. simpl in Hn.
    destruct (lineBlock line) as [b|] eqn:Hb.
    + destruct (IH rest ltac:(lia)) as [blocks Hd].
      exists (b :: blocks). now constructor.
    + unfold lineBlock in Hb. destruct (classify line) eqn:Hc; try discriminate.
      * destruct (IH rest ltac:(lia)) as [blocks Hd].
        exists blocks. apply decodes_skip; [now left | exact Hd].
      * destruct (IH rest ltac:(lia)) as [blocks Hd].
        exists blocks. apply decodes_skip; [now right | exact Hd].
      * destruct (breakFence rest) as [codeLines after] eqn:Hbf.
        pose proof (breakFence_length rest) as L. rewrite Hbf in L. simpl in L.
        destruct (IH after ltac:(lia)) as [blocks Hd].
        eexists. eapply decodes_fence; eassumption.
      * destruct (spanRows rest) as [rows after] eqn:Hsr.
        pose proof (spanRows_length rest) as L. rewrite Hsr in L. simpl in L.
        destruct (IH after ltac:(lia)) as [blocks Hd].
        eexists. eapply decodes_table; eassumption.
Qed.

Lemma MarkdownToBlocks_decodesTo (markdown : string) :
  decodesTo (splitLines markdown) (MarkdownToBlocks markdown).
Proof.
  destruct (decodesTo_total _ (splitLines markdown) (le_n _)) as [blocks H].
  now rewrite (MarkdownToBlocks_decodes _ _ H).
Qed.

(** *** Bytes that a string does not hold *)

(** [strings.IndexByte(s, x) < 0]. *)
Fixpoint noByte (x : ascii) (s : string) : bool :=
  match s with
  | EmptyString => true
  | String c r => negb (Ascii.eqb c x) && noByte x r
  end.

Lemma oneLine_noByte (s : string) : oneLine s = noByte "010" s.
Proof. induction s as [|c s IH]; simpl; [reflexivity | now rewrite IH]. Qed.

Lemma noByte_append (x : ascii) (a b : string) :
  noByte x (a +++ b) = noByte x a && noByte x b.
Proof. induction a as [|c a IH]; simpl; [reflexivity|]. now rewrite IH, andb_assoc. Qed.

Lemma noByte_rev (x : ascii) (s : string) : noByte x (rev s) = noByte x s.
Proof.
  induction s as [|c s IH]; [reflexivity|].
  rewrite rev_String, noByte_append, IH. simpl.
  rewrite andb_true_r. apply andb_comm.
Qed.

Lemma noByte_drop (x : ascii) (n : nat) (s : string) :
  noByte x s = true -> noByte x (drop n s) = true.
Proof.
  intros H. rewrite <- (take_drop n s), noByte_append in H.
  apply andb_prop in H. tauto.
Qed.

Lemma noByte_take (x : ascii) (n : nat) (s : string) :
  noByte x s = true -> noByte x (take n s) = true.
Proof.
  intros H. rewrite <- (take_drop n s), noByte_append in H.
  apply andb_prop in H. tauto.
Qed.

(** What a scan for white space leaves is the end of the string. *)
Lemma TrimLeftSpace_suffix (n : nat) :
  forall s, (String.length s <= n)%nat ->
            exists w, s = w +++ strings.TrimLeftSpace s.
Proof.
  induction n as [|n IH]; intros s Hl.
  - destruct s; [now exists EmptyString | simpl in Hl; lia].
  - destruct s as [|a r1]; [now exists EmptyString|]. simpl in Hl. simpl.
    destruct (strings.asciiSpace a).
    { destruct (IH r1 ltac:(lia)) as [w Hw]. exists (String a w). simpl. now rewrite <- Hw. }
    destruct r1 as [|b r2]; [now exists EmptyString|]. simpl in Hl.
    destruct (strings.space2 a b).
    { destruct (IH r2 ltac:(lia)) as [w Hw]. exists (String a (String b w)).
      simpl. now rewrite <- Hw. }
    destruct r2 as [|c r3]; [now exists EmptyString|]. simpl in Hl.
    destruct (strings.space3 a b c); [|now exists EmptyString].
    destruct (IH r3 ltac:(lia)) as [w Hw]. exists (String a (String b (String c w))).
    simpl. now rewrite <- Hw.
Qed.

Lemma TrimLeftSpaceRev_suffix (n : nat) :
  forall s, (String.length s <= n)%nat ->
            exists w, s = w +++ strings.TrimLeftSpaceRev s.
Proof.
  induction n as [|n IH]; intros s Hl.
  - destruct s; [now exists EmptyString | simpl in Hl; lia].
  - destruct s as [|a r1]; [now exists EmptyString|]. simpl in Hl. simpl.
    destruct (strings.asciiSpace a).
    { destruct (IH r1 ltac:(lia)) as [w Hw]. exists (String a w). simpl. now rewrite <- Hw. }
    destruct r1 as [|b r2]; [now exists EmptyString|]. simpl in Hl.
    destruct (strings.space2 b a).
    { destruct (IH r2 ltac:(lia)) as [w Hw]. exists (String a (String b w)).
      simpl. now rewrite <- Hw. }
    destruct r2 as [|c r3]; [now exists EmptyString|]. simpl in Hl.
    destruct (strings.space3 c b a); [|now exists EmptyString].
    destruct (IH r3 ltac:(lia)) as [w Hw]. exists (String a (String b (String c w))).
    simpl. now rewrite <- Hw.
Qed.

(** A trimmed string is a piece of the string: what was in front and what
    was behind. *)
Lemma TrimSpace_middle (s : string) :
  exists front back, s = front +++ strings.TrimSpace s +++ back.
Proof.
  destruct (TrimLeftSpace_suffix _ s (le_n _)) as [front Hf].
  destruct (TrimLeftSpaceRev_suffix _ (rev (strings.TrimLeftSpace s)) (le_n _)) as [w Hw].
  exists front, (rev w). unfold strings.TrimSpace, strings.TrimRightSpace.
  rewrite <- rev_append, <- Hw, rev_involutive. exact Hf.
Qed.

Lemma noByte_TrimSpace (x : ascii) (s : string) :
  noByte x s = true -> noByte x (strings.TrimSpace s) = true.
Proof.
  intros H. destruct (TrimSpace_middle s) as (front & back & E).
  rewrite E, !noByte_append in H.
  apply andb_prop in H. destruct H as [_ H]. apply andb_prop in H. tauto.
Qed.

Lemma noByte_SplitByte (x sep : ascii) (s cur : string) :
  noByte x s = true -> noByte x cur = true ->
  Forall (fun p => noByte x p = true) (strings.SplitByte sep s cur).
Proof.
  revert cur. induction s as [|c r IH]; intros cur Hs Hc; simpl.
  - constructor; [now rewrite noByte_rev | constructor].
  - simpl in Hs. apply andb_prop in Hs. destruct Hs as [Hx Hr].
    destruct (Ascii.eqb c sep).
    + constructor; [now rewrite noByte_rev | now apply IH].
    + apply IH; [assumption|]. simpl. now rewrite Hx, Hc.
Qed.

(** The pieces of a split do not hold the separator. *)
Lemma SplitByte_pieces (sep : ascii) (s cur : string) :
  noByte sep cur = true ->
  Forall (fun p => noByte sep p = true) (strings.SplitByte sep s cur).
Proof.
  revert cur. induction s as [|c r IH]; intros cur Hc; simpl.
  - constructor; [now rewrite noByte_rev | constructor].
  - destruct (Ascii.eqb c sep) eqn:E.
    + constructor; [now rewrite noByte_rev | now apply IH].
    + apply IH. simpl. now rewrite E, Hc.
Qed.

(** Splitting what was joined gives the pieces. *)
Lemma SplitByte_piece (sep : ascii) (p rest cur : string) :
  noByte sep p = true ->
  strings.SplitByte sep (p +++ String sep rest) cur
  = (rev cur +++ p) :: strings.SplitByte sep rest EmptyString.
Proof.
  revert cur. induction p as [|c p IH]; intros cur Hp; simpl.
  - rewrite Ascii.eqb_refl. now rewrite append_nil_r.
  - simpl in Hp. apply andb_prop in Hp. destruct Hp as [Hc Hp].
    apply negb_true_iff in Hc. rewrite Hc.
    rewrite IH by assumption. now rewrite rev_String, append_assoc.
Qed.

Lemma SplitByte_single (sep : ascii) (p cur : string) :
  noByte sep p = true -> strings.SplitByte sep p cur = [rev cur +++ p].
Proof.
  revert cur. induction p as [|c p IH]; intros cur Hp; simpl.
  - now rewrite append_nil_r.
  - simpl in Hp. apply andb_prop in Hp. destruct Hp as [Hc Hp].
    apply negb_true_iff in Hc. rewrite Hc.
    rewrite IH by assumption. now rewrite rev_String, append_assoc.
Qed.

Lemma Split_Join_pieces (sep : ascii) (pieces : list string) :
  pieces <> [] -> Forall (fun p => noByte sep p = true) pieces ->
  strings.Split (strings.Join pieces (String sep EmptyString)) sep = pieces.
Proof.
  unfold strings.Split.
  induction pieces as [|p pieces IH]; [contradiction|]. intros _ H.
  inversion H as [|? ? Hp Hr]; subst.
  destruct pieces as [|p2 pieces].
  - simpl. now rewrite SplitByte_single.
  - rewrite Join_cons2. cbn [String.append]. rewrite SplitByte_piece by assumption.
    simpl rev. simpl String.append at 1. f_equal. apply IH; [discriminate | exact Hr].
Qed.

(** *** Lines *)

Definition allLines (lines : list string) : Prop :=
  Forall (fun l => oneLine l = true) lines.

(** Every line followed by a newline. *)
Fixpoint unlines (lines : list string) : string :=
  match lines with
  | [] => EmptyString
  | l :: rest => l +++ nl +++ unlines rest
  end.


Lemma splitLinesLoop_acc (s cur : string) (acc : list string) :
  splitLinesLoop s cur acc = acc ++ splitLinesLoop s cur [].
Proof.
  revert cur acc. induction s as [|c s IH]; intros cur acc; simpl.
  - destruct cur; [now rewrite app_nil_r | reflexivity].
  - destruct (Ascii.eqb c "010").
    + rewrite IH. rewrite (IH _ [rev cur]). now rewrite app_assoc.
    + apply IH.
Qed.

Lemma splitLinesLoop_line (l rest cur : string) :
  oneLine l = true ->
  splitLinesLoop (l +++ nl +++ rest) cur []
  = (rev cur +++ l) :: splitLinesLoop rest EmptyString [].
Proof.
  revert cur. induction l as [|c l IH]; intros cur Hl.
  - simpl. rewrite splitLinesLoop_acc. now rewrite append_nil_r.
  - simpl in Hl. apply andb_prop in Hl. destruct Hl as [Hc Hl].
    apply negb_true_iff in Hc. simpl. rewrite Hc.
    rewrite IH by assumption. now rewrite rev_String, append_assoc.
Qed.

(** The lines of lines written one after the other are those lines. *)
Lemma splitLines_unlines (lines : list string) :
  allLines lines -> splitLines (unlines lines) = lines.
Proof.
  unfold splitLines. induction 1 as [|l lines Hl _ IH]; [reflexivity|].
  cbn [unlines]. rewrite splitLinesLoop_line by assumption.
  now rewrite IH.
Qed.

Lemma splitLinesLoop_oneLine (s cur : string) (acc : list string) :
  oneLine cur = true -> allLines acc -> allLines (splitLinesLoop s cur acc).
Proof.
  revert cur acc. induction s as [|c s IH]; intros cur acc Hc Ha; simpl.
  - destruct cur as [|d cur]; [assumption|].
    apply Forall_app. split; [assumption|]. constructor; [|constructor].
    now rewrite oneLine_noByte, noByte_rev, <- oneLine_noByte.
  - destruct (Ascii.eqb c "010") eqn:E.
    + apply IH; [reflexivity|]. apply Forall_app. split; [assumption|].
      constructor; [|constructor].
      now rewrite oneLine_noByte, noByte_rev, <- oneLine_noByte.
    + apply IH; [|assumption]. simpl. now rewrite E, Hc.
Qed.

Lemma splitLines_allLines (s : string) : allLines (splitLines s).
Proof. apply splitLinesLoop_oneLine; [reflexivity | constructor]. Qed.

(** *** Canonical lines *)

Lemma len_String (c : ascii) (s : string) : len (String c s) = 1 + len s.
Proof. unfold len. cbn [String.length]. lia. Qed.

Lemma gtb_true (a b : Z) : b < a -> (a >? b) = true.
Proof. intros H. rewrite Z.gtb_ltb. now apply Z.ltb_lt. Qed.

Lemma gtb_false (a b : Z) : a <= b -> (a >? b) = false.
Proof. intros H. rewrite Z.gtb_ltb. now apply Z.ltb_ge. Qed.

Lemma ltb_true (a b : Z) : a < b -> (a <? b) = true.
Proof. apply Z.ltb_lt. Qed.

(** The conditions of [classify] on a line with known first bytes: the
    length is set apart, the bytes are compared. *)
Ltac conditions :=
  repeat (cbn; rewrite ?andb_false_r, ?andb_true_r).


Lemma classify_fence (lang : string) :
  classify (String "`" (String "`" (String "`" lang))) = Fence.
Proof.
  unfold classify, isFence.
  remember (len (String "`" (String "`" (String "`" lang)))) as L eqn:HL.
  rewrite !len_String in HL. pose proof (len_nonneg lang).
  conditions.
  replace (L >=? 3) with true by (symmetry; apply Z.geb_le; lia). reflexivity.
Qed.





Lemma byteAt_0 (c : ascii) (s : string) : byteAt (String c s) 0 = c.
Proof. reflexivity. Qed.

Lemma byteAt_S (c : ascii) (s : string) (i : Z) :
  0 <= i -> byteAt (String c s) (i + 1) = byteAt s i.
Proof.
  intros H. unfold byteAt. replace (Z.to_nat (i + 1)) with (S (Z.to_nat i)) by lia.
  reflexivity.
Qed.

Lemma ltb_false (a b : Z) : b <= a -> (a <? b) = false.
Proof. apply Z.ltb_ge. Qed.


















(** *** The blocks that go through unchanged *)





Definition rowText (row : list string) : string :=
  "| " +++ strings.Join row " | " +++ " |".









Lemma blank_skipped (rest : list string) (blocks : list gomap) :
  decodesTo rest blocks -> decodesTo (EmptyString :: rest) blocks.
Proof. intros H. apply decodes_skip; [now left | exact H]. Qed.

Lemma oneLine_sliceFrom (line : string) (k : Z) :
  oneLine line = true -> oneLine (sliceFrom line k) = true.
Proof. rewrite !oneLine_noByte. apply noByte_drop. Qed.
















(** *** Fenced code *)







(** *** White space around a cell *)

Lemma space2_low (a b : ascii) : (byteN b <? 128)%N = true -> strings.space2 a b = false.
Proof.
  intros H. apply N.ltb_lt in H. unfold strings.space2.
  replace (byteN b =? 133)%N with false by (symmetry; apply N.eqb_neq; lia).
  replace (byteN b =? 160)%N with false by (symmetry; apply N.eqb_neq; lia).
  apply andb_false_r.
Qed.

Lemma space2_first (a b : ascii) : (byteN a <? 128)%N = true -> strings.space2 a b = false.
Proof.
  intros H. apply N.ltb_lt in H. unfold strings.space2.
  replace (byteN a =? 194)%N with false by (symmetry; apply N.eqb_neq; lia).
  reflexivity.
Qed.

Lemma space3_low (a b c : ascii) :
  (byteN c <? 128)%N = true -> strings.space3 a b c = false.
Proof.
  intros H. apply N.ltb_lt in H. unfold strings.space3. cbv zeta.
  replace (byteN c =? 128)%N with false by (symmetry; apply N.eqb_neq; lia).
  replace (128 <=? byteN c)%N with false by (symmetry; apply N.leb_gt; lia).
  replace (byteN c =? 168)%N with false by (symmetry; apply N.eqb_neq; lia).
  replace (byteN c =? 169)%N with false by (symmetry; apply N.eqb_neq; lia).
  replace (byteN c =? 175)%N with false by (symmetry; apply N.eqb_neq; lia).
  replace (byteN c =? 159)%N with false by (symmetry; apply N.eqb_neq; lia).
  cbn [andb orb]. now rewrite !andb_false_r.
Qed.

Lemma space3_first (a b c : ascii) :
  (byteN a <? 128)%N = true -> strings.space3 a b c = false.
Proof.
  intros H. apply N.ltb_lt in H. unfold strings.space3. cbv zeta.
  replace (byteN a =? 225)%N with false by (symmetry; apply N.eqb_neq; lia).
  replace (byteN a =? 226)%N with false by (symmetry; apply N.eqb_neq; lia).
  replace (byteN a =? 227)%N with false by (symmetry; apply N.eqb_neq; lia).
  reflexivity.
Qed.

(** A string that begins with a byte that is no white space and does not
    begin one. *)
Definition stuck (s : string) : Prop :=
  match s with
  | EmptyString => False
  | String a r1 =>
      strings.asciiSpace a = false
      /\ match r1 with
         | EmptyString => True
         | String b r2 =>
             strings.space2 a b = false
             /\ match r2 with
                | EmptyString => True
                | String c _ => strings.space3 a b c = false
                end
         end
  end.

Lemma stuck_fixed (s : string) : stuck s -> strings.TrimLeftSpace s = s.
Proof.
  destruct s as [|a [|b [|c r]]]; cbn [stuck strings.TrimLeftSpace]; try tauto.
  - now intros [-> _].
  - now intros (-> & -> & _).
  - now intros (-> & -> & ->).
Qed.

Lemma TrimLeftSpace_stuck (n : nat) :
  forall s, (String.length s <= n)%nat ->
            strings.TrimLeftSpace s = EmptyString \/ stuck (strings.TrimLeftSpace s).
Proof.
  induction n as [|n IH]; intros s Hl.
  - destruct s; [now left | simpl in Hl; lia].
  - destruct s as [|a r1]; [now left|]. simpl in Hl. cbn [strings.TrimLeftSpace].
    destruct (strings.asciiSpace a) eqn:Ea; [apply IH; lia|].
    destruct r1 as [|b r2]; [right; cbn; auto|]. simpl in Hl.
    destruct (strings.space2 a b) eqn:Eb; [apply IH; lia|].
    destruct r2 as [|c r3]; [right; cbn; auto|]. simpl in Hl.
    destruct (strings.space3 a b c) eqn:Ec; [apply IH; lia|].
    right. cbn. auto.
Qed.

Lemma stuck_prefix (q w : string) : stuck (q +++ w) -> q <> EmptyString -> stuck q.
Proof.
  destruct q as [|a [|b [|c r]]]; cbn [stuck String.append]; tauto.
Qed.

Lemma stuck_space (q : string) : stuck q -> stuck (q +++ " ").
Proof.
  destruct q as [|a [|b [|c r]]]; cbn [stuck String.append]; try tauto.
  - intros [H _]. split; [exact H|]. split; [|exact I].
    now apply space2_low.
  - intros (H1 & H2 & _). split; [exact H1|]. split; [exact H2|].
    now apply space3_low.
Qed.

Lemma TrimLeftSpaceRev_unfold (s : string) :
  strings.TrimLeftSpaceRev s
  = match s with
    | EmptyString => EmptyString
    | String a r1 =>
        if strings.asciiSpace a then strings.TrimLeftSpaceRev r1
        else match r1 with
             | EmptyString => s
             | String b r2 =>
                 if strings.space2 b a then strings.TrimLeftSpaceRev r2
                 else match r2 with
                      | EmptyString => s
                      | String c r3 =>
                          if strings.space3 c b a then strings.TrimLeftSpaceRev r3 else s
                      end
             end
    end.
Proof. destruct s; reflexivity. Qed.

Lemma TrimLeftSpaceRev_idempotent (n : nat) :
  forall s, (String.length s <= n)%nat ->
            strings.TrimLeftSpaceRev (strings.TrimLeftSpaceRev s)
            = strings.TrimLeftSpaceRev s.
Proof.
  induction n as [|n IH]; intros s Hl.
  - destruct s; [reflexivity | simpl in Hl; lia].
  - destruct s as [|a r1]; [reflexivity|]. simpl in Hl.
    rewrite (TrimLeftSpaceRev_unfold (String a r1)).
    destruct (strings.asciiSpace a) eqn:Ea; [apply IH; lia|].
    destruct r1 as [|b r2]; [cbn; now rewrite Ea|]. simpl in Hl.
    destruct (strings.space2 b a) eqn:Eb; [apply IH; lia|].
    destruct r2 as [|c r3]; [cbn; now rewrite Ea, Eb|]. simpl in Hl.
    destruct (strings.space3 c b a) eqn:Ec; [apply IH; lia|].
    cbn. now rewrite Ea, Eb, Ec.
Qed.

(** A trimmed string between two spaces is trimmed to itself. *)
Lemma TrimSpace_padded (p : string) :
  strings.TrimSpace (" " +++ strings.TrimSpace p +++ " ") = strings.TrimSpace p.
Proof.
  remember (strings.TrimSpace p) as q eqn:Hq.
  unfold strings.TrimSpace at 1. cbn [String.append strings.TrimLeftSpace].
  change (strings.asciiSpace " ") with true. cbv iota.
  destruct q as [|a q'] eqn:Eq; [reflexivity|]. rewrite <- Eq in *.
  assert (Hne : q <> EmptyString) by (rewrite Eq; discriminate). clear Eq a q'.
  unfold strings.TrimSpace, strings.TrimRightSpace in Hq.
  destruct (TrimLeftSpaceRev_suffix _ (rev (strings.TrimLeftSpace p)) (le_n _)) as [w Hw].
  apply (f_equal rev) in Hw. rewrite rev_involutive, rev_append, <- Hq in Hw.
  assert (Hst : stuck q).
  { destruct (TrimLeftSpace_stuck _ p (le_n _)) as [E | S].
    - rewrite E in Hw. symmetry in Hw. apply append_eq_nil in Hw. tauto.
    - rewrite Hw in S. exact (stuck_prefix _ _ S Hne). }
  rewrite (stuck_fixed _ (stuck_space _ Hst)).
  unfold strings.TrimRightSpace. rewrite rev_append.
  change (rev " ") with " ". cbn [String.append strings.TrimLeftSpaceRev].
  change (strings.asciiSpace " ") with true. cbv iota.
  rewrite Hq at 1. rewrite rev_involutive.
  rewrite (TrimLeftSpaceRev_idempotent _ _ (le_n _)).
  now rewrite <- Hq.
Qed.

(** A line between two bars is trimmed already. *)
Lemma TrimSpace_bars (s : string) :
  strings.TrimSpace (String "|" (s +++ "|")) = String "|" (s +++ "|").
Proof.
  unfold strings.TrimSpace.
  assert (L : strings.TrimLeftSpace (String "|" (s +++ "|")) = String "|" (s +++ "|")).
  { apply stuck_fixed. cbn [stuck]. split; [reflexivity|].
    destruct (s +++ "|") as [|b [|c r]]; [exact I | |].
    - split; [now apply space2_first | exact I].
    - split; [now apply space2_first | now apply space3_first]. }
  rewrite L. unfold strings.TrimRightSpace.
  change (String "|" (s +++ "|")) with ("|" +++ s +++ "|").
  rewrite !rev_append. change (rev "|") with "|". cbn [String.append].
  assert (R : forall z, strings.TrimLeftSpaceRev (String "|" z) = String "|" z).
  { intros z. cbn [strings.TrimLeftSpaceRev].
    change (strings.asciiSpace "|") with false. cbv iota.
    destruct z as [|b [|c r]]; [reflexivity | |].
    - now rewrite space2_low.
    - now rewrite space2_low, space3_low. }
  rewrite R. change (String "|" (rev s +++ "|")) with ("|" +++ rev s +++ "|").
  rewrite !rev_append, rev_involutive. reflexivity.
Qed.


(** *** Rows of a table *)

(** A cell as [parseCells] gives it. *)
Definition cellOK (c : string) : Prop :=
  noByte "|" c = true /\ oneLine c = true
  /\ strings.TrimSpace (" " +++ c +++ " ") = c.

Definition pad (c : string) : string := " " +++ c +++ " ".

Lemma Join_pad (row : list string) :
  row <> [] -> " " +++ strings.Join row " | " +++ " " = strings.Join (map pad row) "|".
Proof.
  induction row as [|c row IH]; [contradiction|]. intros _.
  destruct row as [|c2 row]; [reflexivity|].
  cbn [map]. rewrite !Join_cons2. cbn [map] in IH. rewrite <- IH by discriminate.
  unfold pad. now str_norm.
Qed.

Lemma byteAt_last (s : string) (c : ascii) :
  byteAt (s +++ String c EmptyString) (len (s +++ String c EmptyString) - 1) = c.
Proof.
  unfold byteAt, len. rewrite length_append. cbn [String.length].
  replace (Z.to_nat (Z.of_nat (String.length s + 1) - 1)) with (String.length s) by lia.
  induction s as [|d s IH]; [reflexivity | exact IH].
Qed.

Lemma sliceTo_last (s : string) (c : ascii) :
  sliceTo (s +++ String c EmptyString) (len (s +++ String c EmptyString) - 1) = s.
Proof.
  unfold sliceTo, len. rewrite length_append. cbn [String.length].
  replace (Z.to_nat (Z.of_nat (String.length s + 1) - 1)) with (String.length s) by lia.
  apply take_append.
Qed.

(** The cells of a row as the encoder writes it are the cells written. *)
Lemma parseCells_rowText (row : list string) :
  row <> [] -> Forall cellOK row -> parseCells (rowText row) = row.
Proof.
  intros Hne Hc. unfold parseCells, rowText.
  replace ("| " +++ strings.Join row " | " +++ " |")
    with (String "|" ((" " +++ strings.Join row " | " +++ " ") +++ "|"))
    by (now str_norm).
  rewrite TrimSpace_bars. cbv zeta.
  rewrite byteAt_0, len_String.
  remember ((" " +++ strings.Join row " | " +++ " ") +++ "|") as x eqn:Hx.
  pose proof (len_nonneg x). rewrite (gtb_true (1 + len x) 0) by lia.
  change (sliceFrom (String "|" x) 1) with x. cbn [andb Ascii.eqb Bool.eqb].
  assert (Hlen : 0 < len x).
  { subst x. rewrite len_append. pose proof (len_nonneg (" " +++ strings.Join row " | " +++ " ")).
    change (len "|") with 1. lia. }
  rewrite (gtb_true (len x) 0) by lia. subst x. rewrite byteAt_last, sliceTo_last.
  cbn [andb Ascii.eqb Bool.eqb].
  rewrite Join_pad by assumption.
  rewrite Split_Join_pieces.
  - rewrite map_map. rewrite <- (map_id row) at 2. apply map_ext_in.
    intros c Hin. rewrite Forall_forall in Hc. exact (proj2 (proj2 (Hc c Hin))).
  - destruct row; [contradiction | discriminate].
  - rewrite Forall_forall. intros p Hin. apply in_map_iff in Hin.
    destruct Hin as (c & <- & Hin). rewrite Forall_forall in Hc.
    unfold pad. rewrite !noByte_append. rewrite (proj1 (Hc c Hin)). reflexivity.
Qed.


Lemma parseCells_cells (row : string) :
  oneLine row = true -> Forall cellOK (parseCells row).
Proof.
  intros Hl. unfold parseCells.
  remember (strings.TrimSpace row) as r0 eqn:H0.
  assert (L0 : oneLine r0 = true).
  { subst r0. rewrite oneLine_noByte in *. now apply noByte_TrimSpace. }
  cbv zeta.
  remember (if (len r0 >? 0) && Ascii.eqb (byteAt r0 0) "|" then sliceFrom r0 1 else r0)
    as r1 eqn:H1.
  assert (L1 : oneLine r1 = true).
  { subst r1. destruct ((len r0 >? 0) && Ascii.eqb (byteAt r0 0) "|");
      [now apply oneLine_sliceFrom | exact L0]. }
  remember (if (len r1 >? 0) && Ascii.eqb (byteAt r1 (len r1 - 1)) "|"
            then sliceTo r1 (len r1 - 1) else r1) as r2 eqn:H2.
  assert (L2 : oneLine r2 = true).
  { subst r2. destruct ((len r1 >? 0) && Ascii.eqb (byteAt r1 (len r1 - 1)) "|");
      [|exact L1]. rewrite oneLine_noByte in *. now apply noByte_take. }
  clear H0 H1 H2 L0 L1 Hl. rewrite Forall_forall. intros c Hin.
  apply in_map_iff in Hin. destruct Hin as (p & <- & Hin).
  pose proof (SplitByte_pieces "|" r2 EmptyString eq_refl) as A.
  rewrite oneLine_noByte in L2.
  pose proof (noByte_SplitByte "010" "|" r2 EmptyString L2 eq_refl) as B.
  rewrite Forall_forall in A, B. unfold strings.Split in Hin.
  split; [apply noByte_TrimSpace; exact (A p Hin)|].
  split; [rewrite oneLine_noByte; apply noByte_TrimSpace; exact (B p Hin)|].
  apply TrimSpace_padded.
Qed.
































(** *** The round trip *)










(** * Further properties of the converters *)

(** ** Inline text *)



(** A byte that starts no markup. *)
Definition plainByte (c : ascii) : bool :=
  negb (Ascii.eqb c "*") && negb (Ascii.eqb c "`") && negb (Ascii.eqb c "[").

Fixpoint plainText (s : string) : bool :=
  match s with
  | EmptyString => true
  | String c r => plainByte c && plainText r
  end.

Lemma plainText_byteAt (text : string) (i : Z) :
  plainText text = true -> 0 <= i < len text -> plainByte (byteAt text i) = true.
Proof.
  intros Hp Hi. unfold byteAt, len in *.
  remember (Z.to_nat i) as k eqn:Hk.
  assert (Hlt : (k < String.length text)%nat) by lia. clear Hk Hi i.
  revert k Hlt. induction text as [|c text IH]; intros k Hlt; [simpl in Hlt; lia|].
  cbn [plainText] in Hp. apply andb_prop in Hp. destruct Hp as [Hc Hr].
  destruct k as [|k]; [exact Hc|]. cbn [String.get]. apply IH; [exact Hr|].
  simpl in Hlt. lia.
Qed.

Lemma plainRunLoop_plain (n : nat) (text : string) :
  plainText text = true ->
  forall i, 0 <= i <= len text -> (Z.to_nat (len text - i) < n)%nat ->
            plainRunLoop n text i = Done (len text).
Proof.
  intros Hp. induction n as [|n IH]; intros i Hi Hn; [lia|]. cbn [plainRunLoop].
  unfold andThen. cbn [bind].
  destruct (Z.ltb_spec i (len text)) as [Hlt|Hge].
  - rewrite !byteIsNot_in_range by lia. cbn [bind].
    pose proof (plainText_byteAt text i Hp ltac:(lia)) as Hb. unfold plainByte in Hb.
    apply andb_prop in Hb. destruct Hb as [Hb H3]. apply andb_prop in Hb.
    destruct Hb as [H1 H2]. rewrite H1, H2, H3. cbn [bind]. apply IH; lia.
  - cbn [bind]. f_equal. lia.
Qed.

(** A text with no asterisk, backquote or opening bracket is one span of
    plain text. *)
Theorem plain_text_is_one_span (text : string) :
  plainText text = true -> parseInlineMarkdown text = [plainSpan text].
Proof.
  intros Hp. unfold parseInlineMarkdown, parseInlineMarkdownRun.
  destruct text as [|c0 rest] eqn:Et; [reflexivity|]. rewrite <- Et in *.
  assert (Hlen : 0 < len text) by (subst text; rewrite len_String; pose proof (len_nonneg rest); lia).
  cbn [parseInlineLoop]. rewrite ltb_true by lia.
  pose proof (plainText_byteAt text 0 Hp ltac:(lia)) as Hb. unfold plainByte in Hb.
  apply andb_prop in Hb. destruct Hb as [Hb H3]. apply andb_prop in Hb.
  destruct Hb as [H1 H2]. apply negb_true_iff in H1, H2, H3.
  assert (A : orElse (tryBold text 0)
                (orElse (tryItalic text 0) (orElse (tryCode text 0) (tryLink text 0)))
              = Done None).
  { assert (B : forall c, byteIs text 0 c = Done (Ascii.eqb (byteAt text 0) c))
      by (intros c; apply byteIs_in_range; lia).
    unfold orElse, tryBold, tryItalic, tryCode, tryLink, andThen. rewrite !B.
    rewrite H1, H2, H3. cbn [bind].
    destruct (0 + 1 <? len text); reflexivity. }
  rewrite A. cbn [bind].
  rewrite (plainRunLoop_plain _ text Hp 0) by (unfold len; lia). cbn [bind].
  rewrite gtb_true by lia. rewrite sliceC_in_range by lia. cbn [bind].
  assert (Hall : slice text 0 (len text) = text).
  { unfold slice, len. rewrite Z.sub_0_r, Nat2Z.id. apply take_all. }
  rewrite Hall.
  assert (F : exists f, String.length text = S f) by (subst text; now eexists).
  destruct F as [f ->]. cbn [parseInlineLoop].
  rewrite ltb_false by lia. reflexivity.
Qed.

Lemma plain_text_is_one_span_example :
  plainText "Meeting notes, 3 pm (room 2)" = true
  /\ parseInlineMarkdown "Meeting notes, 3 pm (room 2)"
     = [plainSpan "Meeting notes, 3 pm (room 2)"].
Proof.
  split; [reflexivity|].
  apply (plain_text_is_one_span "Meeting notes, 3 pm (room 2)"). reflexivity.
Defined.

(** ** Lines *)

Lemma rev_nonempty (c : ascii) (s : string) : rev (String c s) <> EmptyString.
Proof.
  rewrite rev_String. intros E. apply append_eq_nil in E. destruct E as [_ E].
  discriminate E.
Qed.

Lemma HasSuffix_nl_append (a r : string) :
  r <> EmptyString -> strings.HasSuffix (a +++ r) nl = strings.HasSuffix r nl.
Proof.
  intros Hr. unfold strings.HasSuffix. rewrite rev_append.
  destruct r as [|c r]; [contradiction|].
  pose proof (rev_nonempty c r) as Hn.
  destruct (rev (String c r)) as [|d t]; [contradiction|]. reflexivity.
Qed.

Lemma splitLinesLoop_unlines (s : string) :
  forall cur,
    oneLine cur = true ->
    unlines (splitLinesLoop s cur [])
    = let t := rev cur +++ s in
      if isEmpty t || strings.HasSuffix t nl then t else t +++ nl.
Proof.
  induction s as [|c s IH]; intros cur Hc; cbn [splitLinesLoop].
  - cbv zeta. rewrite append_nil_r. destruct cur as [|d cur]; [reflexivity|].
    cbn [app unlines]. rewrite append_nil_r.
    rewrite (isEmpty_false _ (rev_nonempty d cur)).
    unfold strings.HasSuffix. rewrite rev_involutive.
    cbn [oneLine] in Hc. apply andb_prop in Hc. destruct Hc as [Hd _].
    apply negb_true_iff in Hd. cbn. now rewrite Hd.
  - destruct (Ascii.eqb_spec c "010") as [->|Hne].
    + rewrite splitLinesLoop_acc. cbn [app unlines]. rewrite (IH EmptyString eq_refl).
      cbv zeta. cbn [rev revOnto String.append].
      assert (Ht : isEmpty (rev cur +++ String "010" s) = false).
      { apply isEmpty_false. intros E. apply append_eq_nil in E. destruct E as [_ E].
        discriminate E. }
      rewrite Ht. cbn [orb].
      destruct s as [|d s].
      * cbn [isEmpty String.eqb orb]. rewrite append_nil_r.
        unfold strings.HasSuffix. rewrite rev_append. reflexivity.
      * rewrite (isEmpty_false (String d s)) by discriminate. cbn [orb].
        change (rev cur +++ String "010" (String d s))
          with (rev cur +++ nl +++ String d s).
        rewrite (HasSuffix_nl_append (rev cur) (nl +++ String d s)) by discriminate.
        rewrite (HasSuffix_nl_append nl (String d s)) by discriminate.
        destruct (strings.HasSuffix (String d s) nl); rewrite ?append_assoc; reflexivity.
    + apply Ascii.eqb_neq in Hne. rewrite IH by (cbn [oneLine]; now rewrite Hne, Hc).
      cbv zeta. rewrite rev_String, append_assoc. reflexivity.
Qed.

(** [splitLines] cuts at the newlines and loses nothing: its lines hold no
    newline; written back with a newline after each they are the text,
    which gets a final newline if it is not empty and had none; and lines
    written that way are read back as they are. *)
Theorem splitLines_keeps_the_text :
  (forall s, allLines (splitLines s))
  /\ (forall s, unlines (splitLines s)
                = if isEmpty s || strings.HasSuffix s nl then s else s +++ nl)
  /\ (forall lines, forallb oneLine lines = true -> splitLines (unlines lines) = lines).
Proof.
  split; [exact splitLines_allLines|]. split.
  - intros s. unfold splitLines. now rewrite splitLinesLoop_unlines.
  - intros lines H. apply splitLines_unlines. unfold allLines.
    rewrite Forall_forall. rewrite forallb_forall in H. exact H.
Qed.

Lemma splitLines_cons (l rest : string) :
  oneLine l = true -> splitLines (l +++ nl +++ rest) = l :: splitLines rest.
Proof. intros H. unfold splitLines. now rewrite splitLinesLoop_line. Qed.

Lemma splitLines_app (lines : list string) (rest : string) :
  allLines lines -> splitLines (unlines lines +++ rest) = lines ++ splitLines rest.
Proof.
  induction 1 as [|l lines Hl _ IH]; [reflexivity|].
  cbn [unlines app]. rewrite !append_assoc, splitLines_cons by assumption.
  now rewrite IH.
Qed.

(** ** The kinds of block the decoder makes *)

Definition decodedKinds : list string :=
  ["heading_1"; "heading_2"; "heading_3"; "paragraph"; "bulleted_list_item";
   "numbered_list_item"; "to_do"; "quote"; "divider"; "code"; "table"].

Lemma decodesTo_kinds (lines : list string) (blocks : list gomap) :
  decodesTo lines blocks ->
  Forall (fun b => In (blockTypeOf b) decodedKinds) blocks
  /\ (List.length blocks <= List.length lines)%nat.
Proof.
  induction 1 as [| line rest blocks Hc _ IH
                  | line rest b blocks Hb _ IH
                  | line rest codeLines after blocks Hc Hbf _ IH
                  | line rest rows after blocks Hc Hsr _ IH ].
  - split; [constructor | simpl; lia].
  - destruct IH as [A B]. split; [exact A | simpl; lia].
  - destruct IH as [A B]. split; [|simpl; lia]. constructor; [|exact A].
    unfold lineBlock in Hb.
    destruct (classify line); try discriminate Hb; injection Hb as <-; cbn; tauto.
  - destruct IH as [A B]. pose proof (breakFence_length rest) as L.
    rewrite Hbf in L. cbn [snd] in L. split; [|simpl; lia].
    constructor; [cbn; tauto | exact A].
  - destruct IH as [A B]. pose proof (spanRows_length rest) as L.
    rewrite Hsr in L. cbn [snd] in L. unfold tableBlocks.
    destruct (parseMarkdownTable (line :: rows)) as [t|] eqn:Ht; cbn [app].
    + split; [|simpl; lia]. constructor; [|exact A].
      destruct (parseMarkdownTable_rows _ _ Ht) as (? & ? & _ & -> & _). cbn. tauto.
    + split; [exact A | simpl; lia].
Qed.

(** Every block [MarkdownToBlocks] returns is of one of eleven kinds
    (never a callout or a child page), and there is at most one block for
    each line of the text. *)
Theorem decoder_block_kinds (markdown : string) :
  Forall (fun b => In (blockTypeOf b) decodedKinds) (MarkdownToBlocks markdown)
  /\ (List.length (MarkdownToBlocks markdown) <= List.length (splitLines markdown))%nat.
Proof. exact (decodesTo_kinds _ _ (MarkdownToBlocks_decodesTo markdown)). Qed.

(** ** Tables of one line, fenced code *)

Lemma MarkdownToBlocks_lines (markdown : string) (lines : list string)
  (blocks : list gomap) :
  splitLines markdown = lines -> decodesTo lines blocks ->
  MarkdownToBlocks markdown = blocks.
Proof. intros <- H. now apply MarkdownToBlocks_decodes. Qed.

Lemma splitLinesLoop_last (s : string) :
  forall cur acc,
    oneLine s = true -> s <> EmptyString \/ cur <> EmptyString ->
    splitLinesLoop s cur acc = acc ++ [rev cur +++ s].
Proof.
  induction s as [|d s IH]; intros cur acc Hl Hne; cbn [splitLinesLoop].
  - destruct Hne as [Hne|Hne]; [contradiction|].
    destruct cur; [contradiction|]. now rewrite append_nil_r.
  - cbn [oneLine] in Hl. apply andb_prop in Hl. destruct Hl as [Hd Hl].
    apply negb_true_iff in Hd. rewrite Hd.
    rewrite IH; [|exact Hl | right; discriminate].
    now rewrite rev_String, append_assoc.
Qed.

(** The last line needs no newline after it. *)
Lemma splitLines_last (lines : list string) (l : string) :
  allLines lines -> oneLine l = true -> l <> EmptyString ->
  splitLines (unlines lines +++ l) = lines ++ [l].
Proof.
  intros Hls Hl Hne. rewrite splitLines_app by assumption. f_equal.
  unfold splitLines. rewrite splitLinesLoop_last; [reflexivity | exact Hl | now left].
Qed.

(** A line that starts a table and has no second row after it gives no
    block: the decoder wants two lines for a table, and the text of the
    line is in no block.  So it is before an empty line and at the end of
    the text. *)
Theorem single_table_line_is_dropped (row rest : string) :
  classify row = TableRow -> oneLine row = true ->
  MarkdownToBlocks (row +++ nl +++ nl +++ rest) = MarkdownToBlocks rest
  /\ MarkdownToBlocks row = [].
Proof.
  intros Hc Hl.
  assert (Hne : row <> EmptyString) by (intros ->; discriminate Hc).
  split.
  - apply (MarkdownToBlocks_lines _ (row :: EmptyString :: splitLines rest)).
    + rewrite splitLines_cons by assumption.
      change (nl +++ rest) with (EmptyString +++ nl +++ rest).
      now rewrite splitLines_cons.
    + change (MarkdownToBlocks rest) with (tableBlocks [row] ++ MarkdownToBlocks rest).
      eapply decodes_table; [exact Hc | reflexivity |].
      apply blank_skipped. apply MarkdownToBlocks_decodesTo.
  - apply (MarkdownToBlocks_lines _ [row]).
    + exact (splitLines_last [] row (Forall_nil _) Hl Hne).
    + change (@nil gomap) with (tableBlocks [row] ++ []).
      eapply decodes_table; [exact Hc | reflexivity | constructor].
Qed.

Lemma single_table_line_is_dropped_example :
  (classify "| only | row |" = TableRow /\ oneLine "| only | row |" = true)
  /\ MarkdownToBlocks ("| only | row |" +++ nl +++ nl +++ "after") = MarkdownToBlocks "after"
  /\ MarkdownToBlocks "| only | row |" = [].
Proof.
  split; [split; reflexivity|].
  apply (single_table_line_is_dropped "| only | row |" "after"); reflexivity.
Defined.

Lemma breakFence_at (codeLines : list string) (closing : string) (rest : list string) :
  Forall (fun l => isFence l = false) codeLines -> isFence closing = true ->
  breakFence (codeLines ++ closing :: rest) = (codeLines, rest).
Proof.
  intros H Hc. induction H as [|l codeLines Hl _ IH]; cbn [app breakFence].
  - now rewrite Hc.
  - now rewrite Hl, IH.
Qed.

Lemma breakFence_open (codeLines : list string) :
  Forall (fun l => isFence l = false) codeLines -> breakFence codeLines = (codeLines, []).
Proof.
  induction 1 as [|l codeLines Hl _ IH]; [reflexivity|].
  cbn [breakFence]. now rewrite Hl, IH.
Qed.

(** Fenced code is kept as it is written.  The lines between an opening
    fence and the next line that starts with three backquotes are the
    content of one code block, joined by newlines: nothing in them is read
    as markup, whatever they hold, and empty lines stay.  What stands
    after the backquotes of the closing line is not kept.  A fence that is
    never closed takes the rest of the text. *)
Theorem fenced_code_is_verbatim (lang closing rest : string) (codeLines : list string) :
  oneLine lang = true -> forallb oneLine codeLines = true ->
  forallb (fun l => negb (isFence l)) codeLines = true ->
  isFence closing = true -> oneLine closing = true ->
  MarkdownToBlocks
    ("```" +++ lang +++ nl +++ unlines codeLines +++ closing +++ nl +++ rest)
  = codeBlock (strings.Join codeLines nl) (mapLanguageToNotion (strings.TrimSpace lang))
    :: MarkdownToBlocks rest
  /\ MarkdownToBlocks ("```" +++ lang +++ nl +++ unlines codeLines)
     = [codeBlock (strings.Join codeLines nl)
          (mapLanguageToNotion (strings.TrimSpace lang))].
Proof.
  intros Hlang Hlines Hnf Hclose Hcl.
  assert (Hall : allLines codeLines).
  { unfold allLines. rewrite Forall_forall. rewrite forallb_forall in Hlines. exact Hlines. }
  assert (Hno : Forall (fun l => isFence l = false) codeLines).
  { rewrite Forall_forall. rewrite forallb_forall in Hnf. intros l Hin.
    apply negb_true_iff. now apply Hnf. }
  assert (Hfirst : oneLine ("```" +++ lang) = true) by exact Hlang.
  assert (Hblock : forall ls,
             codeBlockOf ("```" +++ lang) ls
             = codeBlock (strings.Join ls nl)
                 (mapLanguageToNotion (strings.TrimSpace lang))) by reflexivity.
  split.
  - apply (MarkdownToBlocks_lines _
             (("```" +++ lang) :: (codeLines ++ closing :: splitLines rest))).
    + change ("```" +++ lang +++ nl +++ unlines codeLines +++ closing +++ nl +++ rest)
        with (("```" +++ lang) +++ nl +++ unlines codeLines +++ closing +++ nl +++ rest).
      rewrite splitLines_cons by assumption. f_equal.
      rewrite splitLines_app by assumption. f_equal.
      now apply splitLines_cons.
    + rewrite <- Hblock. eapply decodes_fence.
      * apply classify_fence.
      * now apply breakFence_at.
      * apply MarkdownToBlocks_decodesTo.
  - apply (MarkdownToBlocks_lines _ (("```" +++ lang) :: codeLines)).
    + change ("```" +++ lang +++ nl +++ unlines codeLines)
        with (("```" +++ lang) +++ nl +++ unlines codeLines).
      rewrite splitLines_cons by assumption. f_equal.
      rewrite <- (append_nil_r (unlines codeLines)).
      rewrite splitLines_app by assumption. apply app_nil_r.
    + rewrite <- Hblock. eapply decodes_fence.
      * apply classify_fence.
      * now apply breakFence_open.
      * constructor.
Qed.

Lemma fenced_code_is_verbatim_example :
  MarkdownToBlocks
    ("```PY" +++ nl
     +++ unlines ["# not a heading"; EmptyString; "- **not** a list"]
     +++ "```trailing" +++ nl +++ "after")
  = codeBlock ("# not a heading" +++ nl +++ nl +++ "- **not** a list") "python"
    :: MarkdownToBlocks "after"
  /\ MarkdownToBlocks
       ("```PY" +++ nl +++ unlines ["# not a heading"; EmptyString; "- **not** a list"])
     = [codeBlock ("# not a heading" +++ nl +++ nl +++ "- **not** a list") "python"].
Proof.
  apply (fenced_code_is_verbatim "PY" "```trailing" "after"
           ["# not a heading"; EmptyString; "- **not** a list"]); reflexivity.
Defined.

(** ** Languages *)

Definition fixedLanguage (lang : string) : bool :=
  (mapLanguageToNotion lang =? lang)%string.

(** The language [mapLanguageToNotion] gives is mapped to itself: mapping
    twice is mapping once, so the language written after a fence by the
    encoder is the one the decoder reads there. *)
Theorem mapLanguageToNotion_idempotent (lang : string) :
  mapLanguageToNotion (mapLanguageToNotion lang) = mapLanguageToNotion lang.
Proof.
  apply String.eqb_eq. fold (fixedLanguage (mapLanguageToNotion lang)).
  unfold mapLanguageToNotion at 1.
  generalize (strings.ToLower (strings.TrimSpace lang)). clear lang. intros lang.
  unfold mapNormalisedLanguage.
  destruct (isEmpty lang); [exact (eq_refl : fixedLanguage "plain text" = true)|].
  destruct (lookup languageMap lang) as [mapped|] eqn:E.
  - apply lookup_In in E.
    assert (A : forallb (fun kv => fixedLanguage (snd kv)) languageMap = true)
      by (vm_compute; reflexivity).
    rewrite forallb_forall in A. exact (A _ E).
  - unfold lookupBool. destruct (lookup knownLanguages lang) as [[|]|] eqn:K;
      [| exact (eq_refl : fixedLanguage "plain text" = true)
       | exact (eq_refl : fixedLanguage "plain text" = true)].
    apply lookup_In in K.
    assert (A : forallb (fun kv => match lookup languageMap (fst kv) with
                                   | None => fixedLanguage (fst kv)
                                   | Some _ => true
                                   end) knownLanguages = true)
      by (vm_compute; reflexivity).
    rewrite forallb_forall in A. specialize (A _ K). cbn [fst] in A.
    now rewrite E in A.
Qed.

(** ** The search for a closing marker *)

Lemma findClosingLoop_first (n : nat) (text marker : string) :
  forall i,
    0 <= i -> (Z.to_nat (len text - len marker - i + 1) < n)%nat ->
    exists r,
      findClosingLoop n text i marker = Done r
      /\ ((r = -1
           /\ forall j, i <= j -> j + len marker <= len text ->
                        slice text j (j + len marker) <> marker)
          \/ (i <= r /\ r + len marker <= len text
              /\ slice text r (r + len marker) = marker
              /\ forall j, i <= j < r -> slice text j (j + len marker) <> marker)).
Proof.
  induction n as [|n IH]; intros i Hi Hn; [lia|]. cbn [findClosingLoop].
  pose proof (len_nonneg marker) as Hm.
  destruct (Z.leb_spec i (len text - len marker)) as [Hle|Hgt].
  - rewrite sliceC_in_range by lia. cbn [bind].
    destruct (String.eqb_spec (slice text i (i + len marker)) marker) as [E|E].
    + exists i. split; [reflexivity|]. right. repeat split; try lia; try exact E.
    + destruct (IH (i + 1) ltac:(lia) ltac:(lia))
        as (r & Hr & [[-> Hnone]|(H1 & H2 & H3 & Hfirst)]).
      * exists (-1). split; [exact Hr|]. left. split; [reflexivity|].
        intros j Hj Hj2. destruct (Z.eq_dec j i) as [->|Hd]; [exact E|].
        apply Hnone; lia.
      * exists r. split; [exact Hr|]. right. repeat split; try lia; try exact H3.
        intros j Hj. destruct (Z.eq_dec j i) as [->|Hd]; [exact E|].
        apply Hfirst; lia.
  - exists (-1). split; [reflexivity|]. left. split; [reflexivity|]. intros j Hj Hj2. lia.
Qed.

Lemma findClosingSingleLoop_first (n : nat) (text : string) (c : ascii) :
  forall i,
    0 <= i -> (Z.to_nat (len text - i) < n)%nat ->
    exists r,
      findClosingSingleLoop n text i c = Done r
      /\ ((r = -1 /\ forall j, i <= j < len text -> byteAt text j <> c)
          \/ (i <= r < len text /\ byteAt text r = c
              /\ forall j, i <= j < r -> byteAt text j <> c)).
Proof.
  induction n as [|n IH]; intros i Hi Hn; [lia|]. cbn [findClosingSingleLoop].
  destruct (Z.ltb_spec i (len text)) as [Hlt|Hge].
  - rewrite index_in_range by lia. cbn [bind].
    destruct (Ascii.eqb_spec (byteAt text i) c) as [E|E].
    + exists i. split; [reflexivity|]. right. repeat split; try lia; try exact E.
    + destruct (IH (i + 1) ltac:(lia) ltac:(lia))
        as (r & Hr & [[-> Hnone]|(H1 & H2 & Hfirst)]).
      * exists (-1). split; [exact Hr|]. left. split; [reflexivity|].
        intros j Hj. destruct (Z.eq_dec j i) as [->|Hd]; [exact E|].
        apply Hnone; lia.
      * exists r. split; [exact Hr|]. right. repeat split; try lia; try exact H2.
        intros j Hj. destruct (Z.eq_dec j i) as [->|Hd]; [exact E|].
        apply Hfirst; lia.
  - exists (-1). split; [reflexivity|]. left. split; [reflexivity|]. intros j Hj. lia.
Qed.

(** [findClosing] and [findClosingSingle] return, without a panic, the
    first index at or after [pos] where the marker stands, and [-1] only
    when it stands nowhere from [pos] on. *)
Theorem closing_marker_is_the_first (text : string) (pos : Z) :
  0 <= pos ->
  (forall marker,
     marker <> EmptyString ->
     exists r,
       findClosing text pos marker = Done r
       /\ ((r = -1
            /\ forall j, pos <= j -> j + len marker <= len text ->
                         slice text j (j + len marker) <> marker)
           \/ (pos <= r /\ r + len marker <= len text
               /\ slice text r (r + len marker) = marker
               /\ forall j, pos <= j < r -> slice text j (j + len marker) <> marker)))
  /\ (forall c,
        exists r,
          findClosingSingle text pos c = Done r
          /\ ((r = -1 /\ forall j, pos <= j < len text -> byteAt text j <> c)
              \/ (pos <= r < len text /\ byteAt text r = c
                  /\ forall j, pos <= j < r -> byteAt text j <> c))).
Proof.
  intros Hpos. split.
  - intros marker Hm. unfold findClosing. apply findClosingLoop_first; [exact Hpos|].
    assert (0 < len marker) by (destruct marker; [contradiction | unfold len; simpl; lia]).
    unfold len in *. lia.
  - intros c. unfold findClosingSingle. apply findClosingSingleLoop_first; [exact Hpos|].
    unfold len. lia.
Qed.

Lemma closing_marker_is_the_first_example :
  0 <= 2
  /\ exists r,
       findClosingSingle "a*b*c" 2 "*" = Done r
       /\ ((r = -1 /\ forall j, 2 <= j < len "a*b*c" -> byteAt "a*b*c" j <> "*"%char)
           \/ (2 <= r < len "a*b*c" /\ byteAt "a*b*c" r = "*"%char
               /\ forall j, 2 <= j < r -> byteAt "a*b*c" j <> "*"%char)).
Proof.
  split; [lia|].
  exact (proj2 (closing_marker_is_the_first "a*b*c" 2 ltac:(lia)) "*"%char).
Defined.

(** ** Rows of a table *)

(** The cells read from a line are a normal form of the row: written by
    the encoder as [| c1 | c2 |] and read again, they are the same cells.
    The bars at the ends and the blanks around a cell are not part of
    it. *)
Theorem table_row_normal_form (line : string) :
  oneLine line = true ->
  parseCells (rowText (parseCells line)) = parseCells line.
Proof.
  intros Hl. apply parseCells_rowText; [apply parseCells_nonempty|].
  now apply parseCells_cells.
Qed.

Lemma table_row_normal_form_example :
  parseCells "|  Name|Status  |  " = ["Name"; "Status"]
  /\ rowText ["Name"; "Status"] = "| Name | Status |"
  /\ parseCells (rowText (parseCells "|  Name|Status  |  ")) = parseCells "|  Name|Status  |  ".
Proof.
  split; [vm_compute; reflexivity|]. split; [reflexivity|].
  apply (table_row_normal_form "|  Name|Status  |  "). reflexivity.
Defined.

(** ** The encoder, block after block *)

Definition typed (b : gomap) : bool := negb (isEmpty (blockTypeOf b)).

Lemma encodeBlock_untyped (tr : list (string * bool)) (e : encoder) (b : gomap) :
  typed b = false -> encodeBlock tr e b = e.
Proof.
  unfold typed, encodeBlock. fold (blockTypeOf b). intros H.
  apply negb_false_iff in H. now rewrite H.
Qed.

(** A block without a type (no [type] key, or one that is no string or is
    empty) is passed over by the encoder: the markup of a list of blocks
    is the markup of its typed blocks, and the numbering of a numbered
    list goes on across such a block. *)
Theorem untyped_blocks_are_skipped (blocks : list gomap) (tr : list (string * bool)) :
  BlocksToMarkdownWithChildPages blocks tr
  = BlocksToMarkdownWithChildPages (filter typed blocks) tr.
Proof.
  unfold BlocksToMarkdownWithChildPages.
  generalize (mkEncoder EmptyString 1 EmptyString).
  induction blocks as [|b blocks IH]; intros e; [reflexivity|].
  cbn [fold_left filter]. destruct (typed b) eqn:T.
  - cbn [fold_left]. apply IH.
  - rewrite encodeBlock_untyped by exact T. apply IH.
Qed.






(** * Further properties of the synchronisation *)

(** ** File names *)

Fixpoint safeBytes (name : string) : bool :=
  match name with
  | EmptyString => true
  | String c r => negb (isUnsafeFilenameByte c) && safeBytes r
  end.

Lemma replaceUnsafe_safe (name : string) : safeBytes (replaceUnsafe name) = true.
Proof.
  induction name as [|c name IH]; [reflexivity|]. cbn [replaceUnsafe safeBytes].
  rewrite IH. destruct (isUnsafeFilenameByte c) eqn:E; [reflexivity | now rewrite E].
Qed.

Lemma replaceUnsafe_length (name : string) :
  String.length (replaceUnsafe name) = String.length name.
Proof. induction name as [|c name IH]; [reflexivity|]. cbn. now rewrite IH. Qed.

Lemma replaceUnsafe_fixed (name : string) :
  safeBytes name = true -> replaceUnsafe name = name.
Proof.
  induction name as [|c name IH]; [reflexivity|]. cbn [safeBytes replaceUnsafe].
  intros H. apply andb_prop in H. destruct H as [Hc Hr].
  apply negb_true_iff in Hc. now rewrite Hc, IH.
Qed.

Lemma safeBytes_take (n : nat) (name : string) :
  safeBytes name = true -> safeBytes (take n name) = true.
Proof.
  revert name. induction n as [|n IH]; intros name H; [reflexivity|].
  destruct name as [|c name]; [reflexivity|]. cbn [safeBytes take] in *.
  apply andb_prop in H. destruct H as [Hc Hr]. now rewrite Hc, IH.
Qed.

(** The file name [sanitizeFilename] makes holds none of the nine bytes of
    the source's pattern (angle brackets, colon, double quote, slash,
    backslash, bar, question mark, asterisk), is at most 100 bytes long
    and as long as the title when that is at most 100 bytes; a name that
    is already safe and short is kept, so sanitising twice changes
    nothing more. *)
Theorem sanitizeFilename_is_safe (name : string) :
  safeBytes (sanitizeFilename name) = true
  /\ len (sanitizeFilename name) = Z.min (len name) 100
  /\ (safeBytes name = true -> len name <= 100 -> sanitizeFilename name = name)
  /\ sanitizeFilename (sanitizeFilename name) = sanitizeFilename name.
Proof.
  assert (A : forall n, safeBytes (sanitizeFilename n) = true
                        /\ len (sanitizeFilename n) = Z.min (len n) 100).
  { intros n. unfold sanitizeFilename, sliceTo, len.
    rewrite replaceUnsafe_length.
    destruct (Z.gtb_spec (Z.of_nat (String.length n)) 100) as [Hgt|Hle].
    - split; [apply safeBytes_take, replaceUnsafe_safe|].
      rewrite length_take by (rewrite replaceUnsafe_length; lia). lia.
    - split; [apply replaceUnsafe_safe|]. rewrite replaceUnsafe_length. lia. }
  assert (B : forall n, safeBytes n = true -> len n <= 100 -> sanitizeFilename n = n).
  { intros n Hs Hn. unfold sanitizeFilename. rewrite (replaceUnsafe_fixed n Hs).
    now rewrite gtb_false by lia. }
  destruct (A name) as [A1 A2]. repeat split; try assumption.
  - apply B.
  - apply B; [exact A1 | lia].
Qed.

(** ** Calls *)

(** What a step adds to the trace. *)
Definition callsOnly {A : Type} (allowed : call -> bool) (x : io A) : Prop :=
  forall w trace,
    exists added, snd (x w trace) = trace ++ added /\ forallb allowed added = true.

Lemma callsOnly_ret {A : Type} (allowed : call -> bool) (a : A) : callsOnly allowed (ret a).
Proof. intros w trace. exists []. now rewrite app_nil_r. Qed.

Lemma callsOnly_fail {A : Type} (allowed : call -> bool) (msg : string) :
  callsOnly allowed (@fail A msg).
Proof. intros w trace. exists []. now rewrite app_nil_r. Qed.

Lemma callsOnly_request (allowed : call -> bool) (c : call) :
  allowed c = true -> callsOnly allowed (request c).
Proof. intros H w trace. exists [c]. cbn. now rewrite H. Qed.

Lemma callsOnly_bind {A B : Type} (allowed : call -> bool) (x : io A) (f : A -> io B) :
  callsOnly allowed x -> (forall a, callsOnly allowed (f a)) ->
  callsOnly allowed (ioBind x f).
Proof.
  intros Hx Hf w trace. unfold ioBind. destruct (Hx w trace) as (a1 & E1 & F1).
  destruct (x w trace) as [[a|msg] trace'] eqn:R; cbn [snd] in E1; subst trace'.
  - destruct (Hf a w (trace ++ a1)) as (a2 & E2 & F2).
    exists (a1 ++ a2). rewrite E2, app_assoc. split; [reflexivity|].
    now rewrite forallb_app, F1, F2.
  - exists a1. now split.
Qed.

Lemma callsOnly_wrapErr {A : Type} (allowed : call -> bool) (prefix : string) (x : io A) :
  callsOnly allowed x -> callsOnly allowed (wrapErr prefix x).
Proof.
  intros Hx w trace. unfold wrapErr. destruct (Hx w trace) as (a1 & E1 & F1).
  destruct (x w trace) as [[a|msg] trace']; cbn [snd] in *; now exists a1.
Qed.

Lemma callsOnly_orDefault {A : Type} (allowed : call -> bool) (x : io A) (d : A) :
  callsOnly allowed x -> callsOnly allowed (SyncReparent.orDefault x d).
Proof.
  intros Hx w trace. unfold SyncReparent.orDefault. destruct (Hx w trace) as (a1 & E1 & F1).
  destruct (x w trace) as [[a|msg] trace']; cbn [snd] in *; now exists a1.
Qed.

Lemma callsOnly_perform (allowed : call -> bool) (c : call) :
  allowed c = true -> callsOnly allowed (perform c).
Proof.
  intros H. unfold perform. apply callsOnly_bind; [now apply callsOnly_request|].
  intros r. destruct r; first [apply callsOnly_ret | apply callsOnly_fail].
Qed.

Definition readOnly (c : call) : bool := negb (isRemoteMutation c).

Ltac calls_only :=
  repeat first
    [ apply callsOnly_ret
    | apply callsOnly_fail
    | apply callsOnly_wrapErr
    | apply callsOnly_orDefault
    | apply callsOnly_perform; reflexivity
    | apply callsOnly_request; reflexivity
    | apply callsOnly_bind; [| intros ?]
    | match goal with
      | |- callsOnly _ (match ?r with _ => _ end) => destruct r
      | |- callsOnly _ (if ?c then _ else _) => destruct c
      | |- callsOnly _ (let '(_, _) := ?p in _) => destruct p
      end ].

(** [DiffPage] and [PullPage], in both revisions of [sync.go], change
    nothing on the remote side, whatever the answers they get: every call
    they make reads a file, writes the local file or directory, asks the
    time, or fetches from the API. *)
Theorem pull_and_diff_change_nothing_remote :
  (forall filePath, callsOnly readOnly (SyncReparent.DiffPage filePath))
  /\ (forall filePath, callsOnly readOnly (SyncPositions.DiffPage filePath))
  /\ (forall pageID outputDir, callsOnly readOnly (SyncReparent.PullPage pageID outputDir))
  /\ (forall pageID outputDir, callsOnly readOnly (SyncPositions.PullPage pageID outputDir)).
Proof.
  split; [|split; [|split]].
  - intros filePath. unfold SyncReparent.DiffPage, readFile, fetchAllBlocks. calls_only.
  - intros filePath. unfold SyncPositions.DiffPage, readFile, fetchAllBlocks. calls_only.
  - intros pageID outputDir.
    unfold SyncReparent.PullPage, SyncReparent.now, getPageTitle, fetchAllBlocks,
      fetchComments.
    calls_only.
  - intros pageID outputDir.
    unfold SyncPositions.PullPage, SyncReparent.now, getPageTitle, fetchAllBlocks,
      fetchComments.
    calls_only.
Qed.

(** ** Batches *)

(** The blocks in pieces of at most 100, as [appendBlocksBatched] sends
    them. *)
Fixpoint batchesFrom (n : nat) (blocks : list gomap) : list (list gomap) :=
  match n with
  | O => []
  | S n' =>
      match blocks with
      | [] => []
      | _ => firstn 100 blocks :: batchesFrom n' (skipn 100 blocks)
      end
  end.

Definition batchesOf (blocks : list gomap) : list (list gomap) :=
  batchesFrom (List.length blocks) blocks.

Lemma batchesFrom_concat (n : nat) :
  forall blocks,
    (List.length blocks <= n)%nat ->
    concat (batchesFrom n blocks) = blocks
    /\ Forall (fun b => (1 <= List.length b <= 100)%nat) (batchesFrom n blocks).
Proof.
  induction n as [|n IH]; intros blocks Hn.
  - destruct blocks; [split; [reflexivity | constructor] | simpl in Hn; lia].
  - destruct blocks as [|b blocks]; [split; [reflexivity | constructor]|].
    cbn [batchesFrom]. remember (b :: blocks) as l eqn:Hl.
    assert (Hlen : (1 <= List.length l)%nat) by (subst l; simpl; lia).
    destruct (IH (skipn 100 l)) as [C F].
    { rewrite length_skipn. lia. }
    split.
    + cbn [concat]. rewrite C. apply firstn_skipn.
    + constructor; [|exact F]. rewrite length_firstn. lia.
Qed.

Lemma perform_run (c : call) (w : answers) (trace : list call) :
  perform c w trace
  = match w trace c with
    | Failed err => (Err err, trace ++ [c])
    | _ => (Ok tt, trace ++ [c])
    end.
Proof. unfold perform, ioBind, request. destruct (w trace c); reflexivity. Qed.

(** The first answer that is a failure, if there is one, among the
    answers to the calls [cs] made one after the other from [trace]. *)
Fixpoint firstFailure (w : answers) (trace : list call) (cs : list call) (i : Z)
  : option (Z * string * list call) :=
  match cs with
  | [] => None
  | c :: rest =>
      match w trace c with
      | Failed err => Some (i, err, trace ++ [c])
      | _ => firstFailure w (trace ++ [c]) rest (i + 1)
      end
  end.

Lemma appendBatchesLoop_run (pageID : string) (after : option string) (w : answers)
  (all : list gomap) (n : nat) :
  forall i trace,
    0 <= i -> (List.length (skipn (Z.to_nat i) all) <= n)%nat ->
    appendBatchesLoop n pageID after all i true w trace
    = match firstFailure w trace
              (map (AppendChildren pageID after) (batchesFrom n (skipn (Z.to_nat i) all)))
              (i / batchSize) with
      | Some (j, err, trace') =>
          (Err ("failed to append batch " +++ itoa j +++ ": " +++ err), trace')
      | None =>
          (Ok tt,
           trace ++ map (AppendChildren pageID after)
                      (batchesFrom n (skipn (Z.to_nat i) all)))
      end.
Proof.
  induction n as [|n IH]; intros i trace Hi Hn.
  - cbn. now rewrite app_nil_r.
  - cbn [appendBatchesLoop batchesFrom]. unfold llen.
    destruct (Z.ltb_spec i (Z.of_nat (List.length all))) as [Hlt|Hge].
    + assert (Hrem : skipn (Z.to_nat i) all <> []).
      { intros E. apply (f_equal (@List.length gomap)) in E.
        rewrite length_skipn in E. cbn [List.length] in E. lia. }
      assert (Hlen : (List.length all - Z.to_nat i <= S n)%nat)
        by (rewrite <- length_skipn; exact Hn).
      destruct (skipn (Z.to_nat i) all) as [|b0 rest0] eqn:Hsk; [contradiction|].
      rewrite <- Hsk.
      set (batch := firstn 100 (skipn (Z.to_nat i) all)).
      assert (Hbatch : firstn (Z.to_nat ((if i + batchSize >? Z.of_nat (List.length all)
                                          then Z.of_nat (List.length all)
                                          else i + batchSize) - i))
                         (skipn (Z.to_nat i) all) = batch).
      { subst batch. unfold batchSize.
        destruct (Z.gtb_spec (i + 100) (Z.of_nat (List.length all))) as [Hg|Hl].
        - rewrite !firstn_all2; [reflexivity | rewrite length_skipn; lia
                                 | rewrite length_skipn; lia].
        - f_equal. lia. }
      rewrite Hbatch. cbn [map firstFailure].
      unfold ioBind, wrapErr. rewrite perform_run.
      destruct (w trace (AppendChildren pageID after batch)) eqn:Ew;
        try reflexivity;
        (rewrite IH; [| unfold batchSize; lia
                      | unfold batchSize; rewrite length_skipn; lia]);
        (replace (skipn (Z.to_nat (i + batchSize)) all)
           with (skipn 100 (skipn (Z.to_nat i) all))
           by (rewrite skipn_skipn; f_equal; unfold batchSize; lia));
        (replace ((i + batchSize) / batchSize) with (i / batchSize + 1)
           by (unfold batchSize; rewrite <- (Z.mul_1_l 100) at 2;
               rewrite Z.div_add by lia; reflexivity));
        destruct (firstFailure _ _ _ _) as [[[j err] trace']|];
        try reflexivity; now rewrite <- app_assoc.
    + assert (Hnil : skipn (Z.to_nat i) all = []).
      { apply length_zero_iff_nil. rewrite length_skipn. lia. }
      rewrite Hnil. cbn. now rewrite app_nil_r.
Qed.

Lemma firstFailure_none (w : answers) (cs : list call) :
  (forall tr c, In c cs -> forall err, w tr c <> Failed err) ->
  forall trace i, firstFailure w trace cs i = None.
Proof.
  induction cs as [|c cs IH]; intros H trace i; [reflexivity|].
  cbn [firstFailure].
  destruct (w trace c) eqn:E;
    try (apply IH; intros tr c' Hin; apply H; now right).
  exfalso. apply (H trace c (or_introl eq_refl) err E).
Qed.

Lemma append_in_batches_run (pageID : string) (blocks : list gomap) (w : answers)
  (trace : list call) :
  (exists msg trace', appendBlocksBatched pageID blocks w trace = (Err msg, trace'))
  \/ appendBlocksBatched pageID blocks w trace
     = (Ok tt, trace ++ map (AppendChildren pageID None) (batchesOf blocks)).
Proof.
  unfold appendBlocksBatched. rewrite appendBatchesLoop_run by (cbn; lia).
  change (skipn (Z.to_nat 0) blocks) with blocks. fold (batchesOf blocks).
  destruct (firstFailure _ _ _ _) as [[[k err] tr]|]; [left; eauto | now right].
Qed.

(** [appendBlocksBatched] sends the blocks in order, in pieces of 1 to 100
    blocks that together are the whole list, one call for each piece.  When
    no call fails it returns no error after the last piece; the first call
    that fails ends it, with the error
    [failed to append batch j: ...] where [j] counts the pieces from 0, and
    the pieces after it are not sent. *)
Theorem append_in_batches (pageID : string) (blocks : list gomap) (w : answers)
  (trace : list call) :
  let sent := map (AppendChildren pageID None) (batchesOf blocks) in
  concat (batchesOf blocks) = blocks
  /\ Forall (fun batch => (1 <= List.length batch <= 100)%nat) (batchesOf blocks)
  /\ ((forall tr c, In c sent -> forall err, w tr c <> Failed err) ->
      appendBlocksBatched pageID blocks w trace = (Ok tt, trace ++ sent))
  /\ appendBlocksBatched pageID blocks w trace
     = match firstFailure w trace sent 0 with
       | Some (j, err, trace') =>
           (Err ("failed to append batch " +++ itoa j +++ ": " +++ err), trace')
       | None => (Ok tt, trace ++ sent)
       end.
Proof.
  intros sent.
  destruct (batchesFrom_concat (List.length blocks) blocks (le_n _)) as [C F].
  assert (R : appendBlocksBatched pageID blocks w trace
              = match firstFailure w trace sent 0 with
                | Some (j, err, trace') =>
                    (Err ("failed to append batch " +++ itoa j +++ ": " +++ err), trace')
                | None => (Ok tt, trace ++ sent)
                end).
  { unfold appendBlocksBatched.
    rewrite appendBatchesLoop_run by (cbn; lia).
    reflexivity. }
  split; [exact C|]. split; [exact F|]. split; [|exact R].
  intros H. rewrite R. now rewrite firstFailure_none.
Qed.

(** ** The calls of a push *)

Lemma step_run {A : Type} (prefix : string) (c : call) (k : io A) (w : answers)
  (trace : list call) :
  (_ <-- wrapErr prefix (perform c) ;; k) w trace
  = match w trace c with
    | Failed err => (Err (prefix +++ ": " +++ err), trace ++ [c])
    | _ => k w (trace ++ [c])
    end.
Proof.
  unfold ioBind at 1. unfold wrapErr. rewrite perform_run.
  destruct (w trace c); reflexivity.
Qed.

Lemma reparentPages_run (parent : string) (w : answers) (children : list string) :
  forall trace,
    match reparentPages parent children w trace with
    | (Ok _, trace') =>
        trace' = trace ++ map (fun child => ReparentPage child parent) children
    | (Err _, trace') =>
        exists k, trace' = trace ++ firstn k (map (fun child => ReparentPage child parent)
                                                children)
    end.
Proof.
  induction children as [|child rest IH]; intros trace.
  - cbn. now rewrite app_nil_r.
  - cbn [reparentPages map]. unfold ioBind, wrapErr. rewrite perform_run.
    destruct (w trace (ReparentPage child parent)) eqn:E;
      try (specialize (IH (trace ++ [ReparentPage child parent]));
           destruct (reparentPages parent rest w _) as [[u|msg] trace'];
           [ rewrite IH, <- app_assoc; reflexivity
           | destruct IH as [k IH]; exists (S k); rewrite IH, <- app_assoc; reflexivity ]).
    exists 1%nat. reflexivity.
Qed.

(** A push of the first revision, for a file that can be read and names
    its page: the page is erased first, and when that call fails the push
    ends with [failed to erase page: ...] and has sent nothing else.  A
    push that returns no error has made, in this order, the erase call,
    one append call for each batch of the blocks decoded from the file's
    text, and one re-parent call for each child page of the
    frontmatter. *)
Theorem push_erases_then_appends (filePath content pageID markdown body preserved : string)
  (childPageIDs : list string) (w : answers) (trace : list call) :
  w trace (ReadFile filePath) = Text content ->
  SyncReparent.parseFrontmatterFull content = (pageID, childPageIDs, markdown) ->
  pageID <> EmptyString ->
  extractCommentsSection markdown = (body, preserved) ->
  let blocks := withPreservedComments (MarkdownToBlocks body) preserved in
  let start := trace ++ [ReadFile filePath] in
  (forall err,
      w start (ErasePage pageID) = Failed err ->
      SyncReparent.PushPage filePath w trace
      = (Err ("failed to erase page: " +++ err), start ++ [ErasePage pageID]))
  /\ (forall trace',
         SyncReparent.PushPage filePath w trace = (Ok tt, trace') ->
         trace' = start ++ [ErasePage pageID]
                    ++ map (AppendChildren pageID None) (batchesOf blocks)
                    ++ map (fun child => ReparentPage child pageID) childPageIDs).
Proof.
  intros Hread Hfm Hid Hcs blocks start.
  assert (Hne : isEmpty pageID = false).
  { unfold isEmpty. now apply String.eqb_neq. }
  assert (Hpush : SyncReparent.PushPage filePath w trace
                  = (_ <-- wrapErr "failed to erase page" (erasePage pageID) ;;
                     _ <-- wrapErr "failed to append blocks"
                             (appendBlocksBatched pageID blocks) ;;
                     if llen childPageIDs >? 0
                     then wrapErr "failed to reparent child pages"
                            (reparentPages pageID childPageIDs)
                     else ret tt) w start).
  { unfold SyncReparent.PushPage. unfold ioBind at 1. unfold wrapErr at 1.
    unfold readFile, ioBind at 1, request. rewrite Hread. cbn [ret].
    rewrite Hfm, Hne, Hcs. reflexivity. }
  rewrite Hpush. unfold erasePage. rewrite step_run. split.
  - intros err E. rewrite E. reflexivity.
  - intros trace'.
    assert (Hrest : (_ <-- wrapErr "failed to append blocks"
                             (appendBlocksBatched pageID blocks) ;;
                     if llen childPageIDs >? 0
                     then wrapErr "failed to reparent child pages"
                            (reparentPages pageID childPageIDs)
                     else ret tt) w (start ++ [ErasePage pageID]) = (Ok tt, trace') ->
                    trace' = start ++ [ErasePage pageID]
                               ++ map (AppendChildren pageID None) (batchesOf blocks)
                               ++ map (fun child => ReparentPage child pageID)
                                    childPageIDs).
    { unfold ioBind at 1. unfold wrapErr at 1.
      destruct (append_in_batches_run pageID blocks w (start ++ [ErasePage pageID]))
        as [[msg [tr Ea]] | Ea]; rewrite Ea; [discriminate|].
      destruct (llen childPageIDs >? 0) eqn:L.
      - unfold wrapErr.
        pose proof (reparentPages_run pageID w childPageIDs
                      ((start ++ [ErasePage pageID])
                         ++ map (AppendChildren pageID None) (batchesOf blocks))) as R.
        destruct (reparentPages pageID childPageIDs w _) as [[u|msg] tr];
          [| discriminate].
        intros H. assert (tr = trace') as <- by congruence.
        rewrite R, <- !app_assoc. reflexivity.
      - assert (childPageIDs = []) as ->
          by (destruct childPageIDs; [reflexivity | unfold llen in L; cbn in L; lia]).
        cbn [ret map]. intros H. injection H as <-.
        rewrite app_nil_r, <- !app_assoc. reflexivity. }
    destruct (w start (ErasePage pageID)); try discriminate; exact Hrest.
Qed.

(** A file with two child pages in its frontmatter, and a remote side that
    accepts every call. *)
Definition pushedFile : string :=
  "---" +++ nl +++ "notion_id: abc123" +++ nl +++ "title: Notes" +++ nl
  +++ "child_pages:" +++ nl +++ "  - c1" +++ nl +++ "  - c2" +++ nl
  +++ "---" +++ nl +++ nl +++ "# Notes" +++ nl +++ "text" +++ nl.

Definition acceptingRemote (content : string) : answers :=
  fun _ c =>
    match c with
    | ReadFile _ => Text content
    | _ => Succeeded
    end.

Lemma push_erases_then_appends_example :
  SyncReparent.PushPage "notes.md" (acceptingRemote pushedFile) []
  = (Ok tt,
     [ReadFile "notes.md"; ErasePage "abc123";
      AppendChildren "abc123" None
        [textBlock "heading_1" [plainSpan "Notes"]; textBlock "paragraph" [plainSpan "text"]];
      ReparentPage "c1" "abc123"; ReparentPage "c2" "abc123"])
  /\ [ReadFile "notes.md"; ErasePage "abc123";
      AppendChildren "abc123" None
        [textBlock "heading_1" [plainSpan "Notes"]; textBlock "paragraph" [plainSpan "text"]];
      ReparentPage "c1" "abc123"; ReparentPage "c2" "abc123"]
     = ([] ++ [ReadFile "notes.md"]) ++ [ErasePage "abc123"]
         ++ map (AppendChildren "abc123" None)
              (batchesOf (withPreservedComments
                            (MarkdownToBlocks (nl +++ "# Notes" +++ nl +++ "text" +++ nl))
                            EmptyString))
         ++ map (fun child => ReparentPage child "abc123") ["c1"; "c2"].
Proof.
  assert (R : SyncReparent.PushPage "notes.md" (acceptingRemote pushedFile) []
              = (Ok tt,
                 [ReadFile "notes.md"; ErasePage "abc123";
                  AppendChildren "abc123" None
                    [textBlock "heading_1" [plainSpan "Notes"];
                     textBlock "paragraph" [plainSpan "text"]];
                  ReparentPage "c1" "abc123"; ReparentPage "c2" "abc123"]))
    by (vm_compute; reflexivity).
  split; [exact R|].
  refine (proj2 (push_erases_then_appends "notes.md" pushedFile "abc123"
                   (nl +++ "# Notes" +++ nl +++ "text" +++ nl)
                   (nl +++ "# Notes" +++ nl +++ "text" +++ nl)
                   EmptyString ["c1"; "c2"] (acceptingRemote pushedFile) []
                   eq_refl _ _ _) _ R).
  - vm_compute; reflexivity.
  - discriminate.
  - vm_compute; reflexivity.
Defined.
